(** * Transcript cue normalizer and formatter: a shallow embedding

    The functions below are transcribed from [download_transcript_formats.py]
    (the same bodies are duplicated in [flask_transcript_api.py] and
    [download_transcript_formats_batch.py]).

    Conventions of the embedding:
    - a Python [str] is a [string]; its characters are read as the code
      points U+0000..U+00FF;
    - a Python [float] is a primitive binary64 [float], so that arithmetic
      rounds exactly as CPython does;
    - a Python [int] is a [Z];
    - [Optional[T]] is [option T];
    - a raised exception is the [Raise] branch of [res];
    - the file system touched by the writers is a finite map from paths to
      file contents, threaded explicitly. *)

From Stdlib Require Import ZArith List String Ascii Floats Lia DecimalString.
From stdpp Require Import gmap strings.

Local Open Scope Z_scope.

(** Let [simpl] compute string concatenation on constructors. *)
#[local] Arguments String.append !s1 s2 : simpl nomatch.

(** ** Exceptions and results *)

Inductive exn : Type :=
| ValueError (msg : string)
| RuntimeError (msg : string)
| OverflowError (msg : string).

Inductive res (A : Type) : Type :=
| Ok (a : A)
| Raise (e : exn).
Arguments Ok {A} a.
Arguments Raise {A} e.

(** Sequencing: the first exception raised aborts the rest. *)
#[global] Instance res_bind : MBind res := fun A B k m =>
  match m with
  | Ok a => k a
  | Raise e => Raise e
  end.
#[global] Instance res_ret : MRet res := fun A a => Ok a.

(** The three error names of the specification, as the code raises them. *)
Definition InvalidURL (url : string) : exn :=
  ValueError ("Could not extract video id from URL: " +:+ url).
Definition NormalizationError : exn :=
  RuntimeError "Unable to normalize transcript object returned by library.".
Definition UnsupportedFormat (fmt : string) : exn :=
  ValueError ("Unsupported format: " +:+ fmt).

(** ** Python numbers *)

Module PyNum.

(** [float(z)] for an integer [z]: the nearest binary64 value. *)
Definition of_Z (z : Z) : float :=
  SF2Prim (binary_normalize prec emax z 0 false).

Definition Z2SF (z : Z) : spec_float :=
  match z with
  | Z0 => S754_zero false
  | Zpos p => S754_finite false p 0
  | Zneg p => S754_finite true p 0
  end.

(** [n / d] on integers (true division): the quotient rounded once. *)
Definition truediv (n d : Z) : float :=
  SF2Prim (SFdiv prec emax (Z2SF n) (Z2SF d)).

(** Magnitude of a finite float [m * 2^e] cut to an integer, toward zero. *)
Definition trunc_mag (m : positive) (e : Z) : Z :=
  if 0 <=? e then Z.shiftl (Zpos m) e else Z.shiftr (Zpos m) (- e).

(** [int(f)]: truncation toward zero; NaN and the infinities raise. *)
Definition int_of_float (f : float) : res Z :=
  match Prim2SF f with
  | S754_zero _ => Ok 0
  | S754_finite s m e => Ok (if s then - trunc_mag m e else trunc_mag m e)
  | S754_infinity _ => Raise (OverflowError "cannot convert float infinity to integer")
  | S754_nan => Raise (ValueError "cannot convert float NaN to integer")
  end.

(** Magnitude of [m * 2^e] rounded to the nearest integer, ties to even. *)
Definition round_mag (m : positive) (e : Z) : Z :=
  if 0 <=? e then Z.shiftl (Zpos m) e
  else
    let d := 2 ^ (- e) in
    let q := Zpos m / d in
    let r := Zpos m mod d in
    if 2 * r <? d then q
    else if d <? 2 * r then q + 1
    else if Z.even q then q else q + 1.

(** [round(f)] with no digits argument. *)
Definition round_half_even (f : float) : res Z :=
  match Prim2SF f with
  | S754_zero _ => Ok 0
  | S754_finite s m e => Ok (if s then - round_mag m e else round_mag m e)
  | S754_infinity _ => Raise (OverflowError "cannot convert float infinity to integer")
  | S754_nan => Raise (ValueError "cannot convert float NaN to integer")
  end.

(** Truth value of a float: only the zeros are false. *)
Definition truthy (f : float) : bool := negb (PrimFloat.eqb f 0%float).

(** [round(f, 3)]: the exact value of [f] rounded to the nearest multiple
    of 1/1000 (ties to even), returned as the nearest binary64 value. *)
Definition round3 (f : float) : float :=
  match Prim2SF f with
  | S754_finite s m e =>
      let n := round_mag (m * 1000) e in
      if n =? 0 then (if s then (-0)%float else 0%float)
      else truediv (if s then - n else n) 1000
  | _ => f
  end.

End PyNum.

(** ** Decimal rendering of integers *)

Definition digits_of (n : Z) : string :=
  NilZero.string_of_uint (N.to_uint (Z.to_N n)).

Fixpoint zeros (k : nat) : string :=
  match k with
  | O => ""
  | S k' => String "0" (zeros k')
  end.

(** [format(z, "0wd")]: sign first, then zeros up to [w] characters in all. *)
Definition fmt_d (w : nat) (z : Z) : string :=
  if z <? 0 then
    let d := digits_of (- z) in
    "-" +:+ zeros (w - 1 - String.length d) +:+ d
  else
    let d := digits_of z in
    zeros (w - String.length d) +:+ d.

(** ** [datetime.timedelta], restricted to what the timestamp functions use *)

Module Timedelta.

(** [timedelta(seconds=secs)] as a whole number of microseconds: the
    integral part is exact, the fractional part times [1e6] is rounded to
    the nearest integer (ties to even); more than 999999999 days raise. *)
Definition of_seconds (secs : float) : res Z :=
  ip ← PyNum.int_of_float secs;
  let frac := (secs - PyNum.of_Z ip)%float in
  us ← PyNum.round_half_even (frac * 1000000)%float;
  let total := ip * 1000000 + us in
  let days := total / 86400000000 in
  if (days <? -999999999) || (999999999 <? days)
  then Raise (OverflowError "days; must have magnitude <= 999999999")
  else Ok total.

(** [td.total_seconds()]. *)
Definition total_seconds (us : Z) : float := PyNum.truediv us 1000000.

End Timedelta.

(** ** Timestamp formatting *)

Definition secs_to_srt_timestamp (secs : float) : res string :=
  td ← Timedelta.of_seconds secs;
  total_seconds ← PyNum.int_of_float (Timedelta.total_seconds td);
  let hh := total_seconds / 3600 in
  let mm := (total_seconds mod 3600) / 60 in
  let ss := total_seconds mod 60 in
  ms ← PyNum.int_of_float
          ((Timedelta.total_seconds td - PyNum.of_Z total_seconds) * 1000)%float;
  Ok (fmt_d 2 hh +:+ ":" +:+ fmt_d 2 mm +:+ ":" +:+ fmt_d 2 ss +:+ "," +:+ fmt_d 3 ms).

Definition secs_to_vtt_timestamp (secs : float) : res string :=
  td ← Timedelta.of_seconds secs;
  total_seconds ← PyNum.int_of_float (Timedelta.total_seconds td);
  let hh := total_seconds / 3600 in
  let mm := (total_seconds mod 3600) / 60 in
  let ss := total_seconds mod 60 in
  ms ← PyNum.int_of_float
          ((Timedelta.total_seconds td - PyNum.of_Z total_seconds) * 1000)%float;
  Ok (fmt_d 2 hh +:+ ":" +:+ fmt_d 2 mm +:+ ":" +:+ fmt_d 2 ss +:+ "." +:+ fmt_d 3 ms).

(** ** Cues *)

(** The unit record of a transcript, with the field types the code
    annotates ([Optional[float]] timings, optional strings). *)
Record Cue : Type := mkCue {
  text : option string;
  start : option float;
  duration : option float;
  speaker : option string;
  confidence : option float
}.

(** ** End-time inference *)

Definition compute_end (start duration default_next_start : option float)
  : option float :=
  match start with
  | None => None
  | Some s =>
      match duration with
      | Some d => Some (s + d)%float
      | None =>
          match default_next_start with
          | Some n => Some n
          | None => None
          end
      end
  end.

(** [duration if duration else 2.0]: a Python truth test, so a missing
    duration and a zero duration both take the default. *)
Definition duration_or_default (duration : option float) : float :=
  match duration with
  | Some d => if PyNum.truthy d then d else 2%float
  | None => 2%float
  end.

(** The start and end times the SRT and VTT loops render for the cue [it]
    at 0-based position [i] of [items]. *)
Definition cue_times (items : list Cue) (i : nat) (it : Cue) : float * float :=
  let n := length items in
  let next_start :=
    if (i + 1 <? n)%nat then
      match nth_error items (i + 1) with
      | Some nxt => start nxt
      | None => None
      end
    else None in
  let end_ := compute_end (start it) (duration it) next_start in
  let '(start_, end_) :=
    match start it with
    | None =>
        let s := (PyNum.of_Z (Z.of_nat i) * 2)%float in
        (s, Some (s + duration_or_default (duration it))%float)
    | Some s => (s, end_)
    end in
  let end_ :=
    match end_ with
    | None => (start_ + duration_or_default (duration it))%float
    | Some e => e
    end in
  (start_, end_).

(** [text = it.get("text") or ""]. *)
Definition text_or_empty (it : Cue) : string :=
  match text it with
  | Some t => t
  | None => ""
  end.

(** The body line shared by the SRT and VTT writers. *)
Definition cue_line (it : Cue) : string :=
  match speaker it with
  | Some (String c sp) => String c sp +:+ ": " +:+ text_or_empty it
  | _ => text_or_empty it
  end.

(** ** File system *)

Abbreviation files := (gmap string string).

(** [open(path, "w").write(content)]: the whole file is replaced. *)
Definition write_file (path content : string) (fs : files) : files :=
  <[path := content]> fs.

(** A writer either leaves the file system as it was and raises, or
    writes its file and returns the path. *)
Definition emit (content : res string) (path : string) (fs : files)
  : files * res string :=
  match content with
  | Ok c => (write_file path c fs, Ok path)
  | Raise e => (fs, Raise e)
  end.

(** ** SRT and VTT writers *)

Definition srt_block (items : list Cue) (i : nat) (it : Cue) : res (list string) :=
  let '(start_, end_) := cue_times items i it in
  let idx := Z.of_nat i + 1 in
  s ← secs_to_srt_timestamp start_;
  e ← secs_to_srt_timestamp end_;
  Ok [digits_of idx; s +:+ " --> " +:+ e; cue_line it; ""].

Fixpoint srt_loop (items : list Cue) (i : nat) (rest : list Cue)
  : res (list string) :=
  match rest with
  | [] => Ok []
  | it :: rest' =>
      b ← srt_block items i it;
      l ← srt_loop items (S i) rest';
      Ok (b ++ l)
  end.

Definition srt_text (items : list Cue) : res string :=
  lines ← srt_loop items 0 items;
  Ok (String.concat (String "010" "") lines).

Definition write_srt (items : list Cue) (path : string) (fs : files)
  : files * res string :=
  emit (srt_text items) path fs.

Definition vtt_block (items : list Cue) (i : nat) (it : Cue) : res (list string) :=
  let '(start_, end_) := cue_times items i it in
  s ← secs_to_vtt_timestamp start_;
  e ← secs_to_vtt_timestamp end_;
  Ok [s +:+ " --> " +:+ e; cue_line it; ""].

Fixpoint vtt_loop (items : list Cue) (i : nat) (rest : list Cue)
  : res (list string) :=
  match rest with
  | [] => Ok []
  | it :: rest' =>
      b ← vtt_block items i it;
      l ← vtt_loop items (S i) rest';
      Ok (b ++ l)
  end.

Definition vtt_text (items : list Cue) : res string :=
  lines ← vtt_loop items 0 items;
  Ok (String.concat (String "010" "") ("WEBVTT" :: "" :: lines)).

Definition write_vtt (items : list Cue) (path : string) (fs : files)
  : files * res string :=
  emit (vtt_text items) path fs.

(** ** Python values seen by the normalizer

    [normalize_transcript_obj] receives whatever the retrieval library
    returns. The values it can tell apart are: lists and tuples;
    dictionaries; strings, numbers and [None]; callables; and other objects,
    described by what [list(obj)] gives ([None] when iteration raises) and by
    their attributes. A callable is described by the outcome of calling it
    with no argument ([None] when the call raises). *)

Inductive pyval : Type :=
| PNone
| PStr (s : string)
| PInt (z : Z)
| PFloat (f : float)
| PDict (d : gmap string pyval)
| PList (l : list pyval)
| PTuple (l : list pyval)
| PFun (call : option pyval)
| PObj (iter : option (list pyval)) (attrs : string -> option pyval).

(** A cue as the normalizer builds it: a dictionary with string keys. *)
Abbreviation item_dict := (gmap string pyval).

(** [it.get(key)] on a dictionary. *)
Definition dict_get (d : gmap string pyval) (key : string) : pyval :=
  match d !! key with
  | Some v => v
  | None => PNone
  end.

(** [getattr(it, name, None)] on a value that is not a dictionary; the
    built-in values have none of the five cue attributes. *)
Definition getattr_default (it : pyval) (name : string) : pyval :=
  match it with
  | PObj _ attrs =>
      match attrs name with
      | Some v => v
      | None => PNone
      end
  | _ => PNone
  end.

(** [d.setdefault(key, value)]. *)
Definition setdefault (key : string) (value : pyval) (d : item_dict) : item_dict :=
  match d !! key with
  | Some _ => d
  | None => <[key := value]> d
  end.

Definition to_item_dict (it : pyval) : item_dict :=
  let d : item_dict := ∅ in
  let d :=
    match it with
    | PDict m =>
        let d := <["text" := dict_get m "text"]> d in
        let d := <["start" := dict_get m "start"]> d in
        let d := <["duration" := dict_get m "duration"]> d in
        let d := <["speaker" := dict_get m "speaker"]> d in
        <["confidence" := dict_get m "confidence"]> d
    | _ =>
        let d := <["text" := getattr_default it "text"]> d in
        let d := <["start" := getattr_default it "start"]> d in
        let d := <["duration" := getattr_default it "duration"]> d in
        let d := <["speaker" := getattr_default it "speaker"]> d in
        <["confidence" := getattr_default it "confidence"]> d
    end in
  let d := setdefault "text" PNone d in
  let d := setdefault "start" PNone d in
  let d := setdefault "duration" PNone d in
  let d := setdefault "speaker" PNone d in
  setdefault "confidence" PNone d.

Fixpoint chars (s : string) : list pyval :=
  match s with
  | EmptyString => []
  | String c s' => PStr (String c "") :: chars s'
  end.

(** [list(obj)]; [None] when the value is not iterable. A dictionary
    iterates over its keys. *)
Definition iterate (obj : pyval) : option (list pyval) :=
  match obj with
  | PNone | PInt _ | PFloat _ | PFun _ => None
  | PStr s => Some (chars s)
  | PDict d => Some (PStr <$> (map_to_list d).*1)
  | PList l | PTuple l => Some l
  | PObj iter _ => iter
  end.

(** The accessor names probed on an opaque object, in order. *)
Definition accessor_names : list string :=
  ["fetch"; "list"; "to_list"; "as_list"; "get_transcript"].

Fixpoint normalize_transcript_obj (obj : pyval) : res (list item_dict) :=
  match obj with
  | PList l | PTuple l => Ok (to_item_dict <$> l)
  | PObj iter attrs =>
      match iter with
      | Some (x :: xs) => Ok (to_item_dict <$> (x :: xs))
      | _ =>
          (fix probe (names : list string) : res (list item_dict) :=
             match names with
             | [] => Raise NormalizationError
             | method_name :: rest =>
                 match attrs method_name with
                 | None => probe rest
                 | Some (PFun None) => probe rest
                 | Some (PFun (Some r)) =>
                     match normalize_transcript_obj r with
                     | Ok cues => Ok cues
                     | Raise _ => probe rest
                     end
                 | Some r =>
                     match normalize_transcript_obj r with
                     | Ok cues => Ok cues
                     | Raise _ => probe rest
                     end
                 end
             end) accessor_names
      end
  | _ =>
      match iterate obj with
      | Some (x :: xs) => Ok (to_item_dict <$> (x :: xs))
      | _ => Raise NormalizationError
      end
  end.

(** What probing one accessor of an opaque object gives: [None] when the
    attribute is missing or calling it raises, else the value obtained
    (the attribute itself when it is not callable). *)
Definition accessor_value (attrs : string -> option pyval) (name : string)
  : option pyval :=
  match attrs name with
  | None => None
  | Some (PFun None) => None
  | Some (PFun (Some r)) => Some r
  | Some r => Some r
  end.

(** The loop over accessor names, on its own. *)
Fixpoint probe_accessors (attrs : string -> option pyval) (names : list string)
  : res (list item_dict) :=
  match names with
  | [] => Raise NormalizationError
  | method_name :: rest =>
      match accessor_value attrs method_name with
      | None => probe_accessors attrs rest
      | Some r =>
          match normalize_transcript_obj r with
          | Ok cues => Ok cues
          | Raise _ => probe_accessors attrs rest
          end
      end
  end.

(** ** Characters named in the definitions *)

Definition newline : ascii := "010".
Definition cr : ascii := "013".
Definition dquote : ascii := "034".
Definition backslash : ascii := "092".

(** ** String operations of the Python runtime *)

Module Str.

Fixpoint contains (c : ascii) (s : string) : bool :=
  match s with
  | EmptyString => false
  | String a s' => Ascii.eqb a c || contains c s'
  end.

(** [s.split(c, 1)] when [c] occurs in [s]: the text before the first
    occurrence and the text after it. *)
Fixpoint split_first (c : ascii) (s : string) : option (string * string) :=
  match s with
  | EmptyString => None
  | String a s' =>
      if Ascii.eqb a c then Some (EmptyString, s')
      else
        match split_first c s' with
        | Some (l, r) => Some (String a l, r)
        | None => None
        end
  end.

(** [s.split(c)]: never empty. *)
Fixpoint split (c : ascii) (s : string) : list string :=
  match s with
  | EmptyString => [EmptyString]
  | String a s' =>
      if Ascii.eqb a c then EmptyString :: split c s'
      else
        match split c s' with
        | p :: ps => String a p :: ps
        | [] => [String a EmptyString]
        end
  end.

(** [s.lstrip(chars)] and [s.rstrip(chars)] for a set of characters. *)
Fixpoint lstrip (p : ascii -> bool) (s : string) : string :=
  match s with
  | EmptyString => EmptyString
  | String a s' => if p a then lstrip p s' else s
  end.

Fixpoint rstrip (p : ascii -> bool) (s : string) : string :=
  match s with
  | EmptyString => EmptyString
  | String a s' =>
      match rstrip p s' with
      | EmptyString => if p a then EmptyString else String a EmptyString
      | r => String a r
      end
  end.

Definition strip (p : ascii -> bool) (s : string) : string :=
  rstrip p (lstrip p s).

(** [s.replace(a, b)] for single characters. *)
Fixpoint replace (a b : ascii) (s : string) : string :=
  match s with
  | EmptyString => EmptyString
  | String c s' => String (if Ascii.eqb c a then b else c) (replace a b s')
  end.

(** [s.replace(a, "")]. *)
Fixpoint remove (p : ascii -> bool) (s : string) : string :=
  match s with
  | EmptyString => EmptyString
  | String c s' => if p c then remove p s' else String c (remove p s')
  end.

Fixpoint forallb (p : ascii -> bool) (s : string) : bool :=
  match s with
  | EmptyString => true
  | String c s' => p c && forallb p s'
  end.

Definition code (c : ascii) : nat := nat_of_ascii c.

Definition in_range (lo hi : nat) (c : ascii) : bool :=
  ((lo <=? code c) && (code c <=? hi))%nat.

Definition is_digit (c : ascii) : bool := in_range 48 57 c.
Definition is_upper (c : ascii) : bool := in_range 65 90 c.
Definition is_lower (c : ascii) : bool := in_range 97 122 c.
Definition is_alpha (c : ascii) : bool := is_upper c || is_lower c.

(** [c.isspace()], also the class [\s] of [re] on [str] patterns. *)
Definition is_space (c : ascii) : bool :=
  in_range 9 13 c || in_range 28 32 c
  || (code c =? 133)%nat || (code c =? 160)%nat.

Definition is_slash (c : ascii) : bool := Ascii.eqb c "/".

(** [parts[-1]] of a non-empty list. *)
Definition last_part (parts : list string) : option string := last parts.

End Str.

(** ** Reading a text file

    [open(path, "r").read()]: in text mode every line ending, a carriage
    return with or without a line feed after it, is read as one line feed.
    (On writing, a line feed is stored as the line separator of the
    platform, which is the line feed itself on the platforms modelled.) *)
Fixpoint read_text (content : string) : string :=
  match content with
  | EmptyString => EmptyString
  | String c rest =>
      if Ascii.eqb c cr then
        match rest with
        | String d rest' =>
            if Ascii.eqb d newline then String newline (read_text rest')
            else String newline (read_text rest)
        | EmptyString => String newline EmptyString
        end
      else String c (read_text rest)
  end.

(** ** [json]: the serializer as [write_json] calls it, and the reader

    Both belong to the Python standard library. [json.dump] is transcribed
    for the call [json.dump(items, fh, ensure_ascii=False, indent=2)] on a
    list of cue dictionaries; [json.load] for its defaults. A number read
    is kept as its literal. Error messages are given without the position
    the library appends to them. *)

Module Json.

Inductive value : Type :=
| JNull
| JBool (b : bool)
| JNum (literal : string)
| JStr (s : string)
| JArr (l : list value)
| JObj (m : gmap string value).

(** *** Encoding *)

Definition hex_digit (n : nat) : ascii :=
  if (n <? 10)%nat then ascii_of_nat (48 + n) else ascii_of_nat (87 + n).

(** [ESCAPE_DCT]: the replacement of one character of a string. With
    [ensure_ascii=False] only the backslash, the double quote and the
    characters below U+0020 are replaced. *)
Definition escape_char (c : ascii) : string :=
  let n := Str.code c in
  if Ascii.eqb c backslash then String backslash (String backslash "")
  else if Ascii.eqb c dquote then String backslash (String dquote "")
  else if (n =? 8)%nat then String backslash "b"
  else if (n =? 12)%nat then String backslash "f"
  else if (n =? 10)%nat then String backslash "n"
  else if (n =? 13)%nat then String backslash "r"
  else if (n =? 9)%nat then String backslash "t"
  else if (n <? 32)%nat then
    String backslash
      ("u00" +:+ String (hex_digit (n / 16)) (String (hex_digit (n mod 16)) ""))
  else String c "".

Fixpoint escape (s : string) : string :=
  match s with
  | EmptyString => EmptyString
  | String c s' => escape_char c +:+ escape s'
  end.

(** [encode_basestring]. *)
Definition encode_basestring (s : string) : string :=
  String dquote (escape s +:+ String dquote "").

(** A float that is neither NaN nor an infinity. *)
Definition finite (o : float) : bool :=
  PrimFloat.eqb o o && negb (PrimFloat.eqb o infinity)
  && negb (PrimFloat.eqb o neg_infinity).

Section Encode.
(** [float.__repr__], which is outside the repository. *)
Variable float_repr : float -> string.

(** [floatstr]. *)
Definition floatstr (o : float) : string :=
  if negb (PrimFloat.eqb o o) then "NaN"
  else if PrimFloat.eqb o infinity then "Infinity"
  else if PrimFloat.eqb o neg_infinity then "-Infinity"
  else float_repr o.

Definition encode_str (o : option string) : string :=
  match o with
  | Some s => encode_basestring s
  | None => "null"
  end.

Definition encode_float (o : option float) : string :=
  match o with
  | Some f => floatstr f
  | None => "null"
  end.

(** The items of a cue dictionary, in the order of its keys, each value
    encoded. *)
Definition cue_members (it : Cue) : list (string * string) :=
  [ ("text", encode_str (text it));
    ("start", encode_float (start it));
    ("duration", encode_float (duration it));
    ("speaker", encode_str (speaker it));
    ("confidence", encode_float (confidence it)) ].

Fixpoint blanks (k : nat) : string :=
  match k with
  | O => ""
  | S k' => String " " (blanks k')
  end.

(** [newline_indent] at a nesting level, for [indent=2]. *)
Definition newline_indent (level : nat) : string :=
  String newline (blanks (2 * level)).

Definition encode_member (kv : string * string) : string :=
  encode_basestring kv.1 +:+ ": " +:+ kv.2.

(** [_iterencode_dict] *)
Definition encode_dict (level : nat) (members : list (string * string)) : string :=
  match members with
  | [] => "{}"
  | _ :: _ =>
      "{" +:+ newline_indent (S level)
      +:+ String.concat ("," +:+ newline_indent (S level))
            (encode_member <$> members)
      +:+ newline_indent level +:+ "}"
  end.

(** [_iterencode_list] *)
Definition encode_list (level : nat) (elements : list string) : string :=
  match elements with
  | [] => "[]"
  | _ :: _ =>
      "[" +:+ newline_indent (S level)
      +:+ String.concat ("," +:+ newline_indent (S level)) elements
      +:+ newline_indent level +:+ "]"
  end.

Definition dumps (items : list Cue) : string :=
  encode_list 0 ((fun it => encode_dict 1 (cue_members it)) <$> items).

End Encode.

(** *** Decoding *)

(** [JSONDecodeError] is a ValueError. *)
Definition decode_error (msg : string) : exn := ValueError msg.

(** The interpreter's limit on nested calls; the reader below meets it
    only when its fuel runs out, which the length of the text prevents. *)
Definition recursion_error : exn :=
  RuntimeError "maximum recursion depth exceeded".

(** The strings of the embedding hold code points up to U+00FF: an escape
    that denotes a higher one has no character here. *)
Definition beyond_alphabet : exn :=
  ValueError "code point above U+00FF".

Definition is_ws (c : ascii) : bool :=
  Ascii.eqb c " " || Ascii.eqb c "009" || Ascii.eqb c newline || Ascii.eqb c cr.

Definition skip_ws (s : string) : string := Str.lstrip is_ws s.

Definition hex_value (c : ascii) : option nat :=
  let n := Str.code c in
  if Str.is_digit c then Some (n - 48)%nat
  else if Str.in_range 97 102 c then Some (n - 87)%nat
  else if Str.in_range 65 70 c then Some (n - 55)%nat
  else None.

Definition hex4 (a b c d : ascii) : option nat :=
  x ← hex_value a; y ← hex_value b; z ← hex_value c; w ← hex_value d;
  Some (((x * 16 + y) * 16 + z) * 16 + w)%nat.

(** [BACKSLASH]: the character an escape letter stands for. *)
Definition unescape (e : ascii) : option ascii :=
  if Ascii.eqb e dquote then Some dquote
  else if Ascii.eqb e backslash then Some backslash
  else if Ascii.eqb e "/" then Some "/"%char
  else if Ascii.eqb e "b" then Some "008"%char
  else if Ascii.eqb e "f" then Some "012"%char
  else if Ascii.eqb e "n" then Some newline
  else if Ascii.eqb e "r" then Some cr
  else if Ascii.eqb e "t" then Some "009"%char
  else None.

(** [scanstring] from the character after the opening quote: the string
    read and the text after the closing quote. *)
Fixpoint scanstring (s : string) : res (string * string) :=
  match s with
  | EmptyString => Raise (decode_error "Unterminated string starting at")
  | String c s1 =>
      if Ascii.eqb c dquote then Ok (EmptyString, s1)
      else if Ascii.eqb c backslash then
        match s1 with
        | EmptyString => Raise (decode_error "Unterminated string starting at")
        | String e s2 =>
            if Ascii.eqb e "u" then
              match s2 with
              | String h1 (String h2 (String h3 (String h4 (String _ _ as s3)))) =>
                  match hex4 h1 h2 h3 h4 with
                  | Some n =>
                      if (n <? 256)%nat then
                        '(t, r) ← scanstring s3;
                        Ok (String (ascii_of_nat n) t, r)
                      else Raise beyond_alphabet
                  | None => Raise (decode_error "Invalid \uXXXX escape")
                  end
              | _ => Raise (decode_error "Invalid \uXXXX escape")
              end
            else
              match unescape e with
              | Some ch => '(t, r) ← scanstring s2; Ok (String ch t, r)
              | None => Raise (decode_error "Invalid \escape")
              end
        end
      else if (Str.code c <? 32)%nat then
        Raise (decode_error "Invalid control character at")
      else '(t, r) ← scanstring s1; Ok (String c t, r)
  end.

(** The longest prefix of characters of a class, and what follows it. *)
Fixpoint span (p : ascii -> bool) (s : string) : string * string :=
  match s with
  | EmptyString => (EmptyString, EmptyString)
  | String c s' =>
      if p c then let '(a, r) := span p s' in (String c a, r)
      else (EmptyString, s)
  end.

(** The integer part of a number: [0], or a digit from 1 to 9 and the
    digits after it. *)
Definition int_part (s : string) : option (string * string) :=
  match s with
  | String c s' =>
      if Ascii.eqb c "0" then Some ("0", s')
      else if Str.is_digit c then
        let '(ds, r) := span Str.is_digit s' in Some (String c ds, r)
      else None
  | EmptyString => None
  end.

(** The fraction: a dot followed by at least one digit. *)
Definition frac_part (s : string) : string * string :=
  match s with
  | String c (String d s') =>
      if Ascii.eqb c "." && Str.is_digit d then
        let '(ds, r) := span Str.is_digit s' in (String c (String d ds), r)
      else (EmptyString, s)
  | _ => (EmptyString, s)
  end.

(** The exponent: [e] or [E], an optional sign and at least one digit. *)
Definition exp_part (s : string) : string * string :=
  match s with
  | String e s1 =>
      if Ascii.eqb e "e" || Ascii.eqb e "E" then
        let '(sign, s2) :=
          match s1 with
          | String g s2 =>
              if Ascii.eqb g "+" || Ascii.eqb g "-"
              then (String g EmptyString, s2)
              else (EmptyString, s1)
          | EmptyString => (EmptyString, s1)
          end in
        match span Str.is_digit s2 with
        | (String d ds, r) => (String e (sign +:+ String d ds), r)
        | (EmptyString, _) => (EmptyString, s)
        end
      else (EmptyString, s)
  | EmptyString => (EmptyString, s)
  end.

(** [_match_number]: the literal of the number at the head of the text,
    and the text after it. *)
Definition match_number (s : string) : option (string * string) :=
  let '(sign, s1) :=
    match s with
    | String c s' =>
        if Ascii.eqb c "-" then (String c EmptyString, s') else (EmptyString, s)
    | EmptyString => (EmptyString, s)
    end in
  match int_part s1 with
  | Some (ip, s2) =>
      let '(fp, s3) := frac_part s2 in
      let '(ep, s4) := exp_part s3 in
      Some (sign +:+ ip +:+ fp +:+ ep, s4)
  | None => None
  end.

(** The text is one number: the number match consumes all of it. *)
Definition number_literal (s : string) : bool :=
  match match_number s with
  | Some (_, EmptyString) => true
  | _ => false
  end.

(** The text after [prefix], when the text starts with it. *)
Fixpoint after_prefix (prefix s : string) : option string :=
  match prefix, s with
  | EmptyString, _ => Some s
  | String a p, String b s' => if Ascii.eqb a b then after_prefix p s' else None
  | String _ _, EmptyString => None
  end.

Definition expecting_value : exn := decode_error "Expecting value".
Definition expecting_comma : exn := decode_error "Expecting ',' delimiter".
Definition expecting_colon : exn := decode_error "Expecting ':' delimiter".
Definition expecting_name : exn :=
  decode_error "Expecting property name enclosed in double quotes".

(** [scan_once], with the loops of [JSONArray] and [JSONObject]. [fuel]
    bounds the depth of the calls. [elements] and [members] start where
    a value, respectively a property name, is expected. *)
Fixpoint scan_once (fuel : nat) (s : string) {struct fuel}
  : res (value * string) :=
  match fuel with
  | O => Raise recursion_error
  | S fuel' =>
      match s with
      | EmptyString => Raise expecting_value
      | String c s' =>
          if Ascii.eqb c dquote then
            '(t, r) ← scanstring s'; Ok (JStr t, r)
          else if Ascii.eqb c "{" then
            match skip_ws s' with
            | String d r =>
                if Ascii.eqb d "}" then Ok (JObj ∅, r)
                else members fuel' ∅ (String d r)
            | EmptyString => members fuel' ∅ EmptyString
            end
          else if Ascii.eqb c "[" then
            match skip_ws s' with
            | String d r =>
                if Ascii.eqb d "]" then Ok (JArr [], r)
                else elements fuel' [] (String d r)
            | EmptyString => elements fuel' [] EmptyString
            end
          else
            match after_prefix "null" s with
            | Some r => Ok (JNull, r)
            | None =>
            match after_prefix "true" s with
            | Some r => Ok (JBool true, r)
            | None =>
            match after_prefix "false" s with
            | Some r => Ok (JBool false, r)
            | None =>
            match after_prefix "NaN" s with
            | Some r => Ok (JNum "NaN", r)
            | None =>
            match after_prefix "Infinity" s with
            | Some r => Ok (JNum "Infinity", r)
            | None =>
            match after_prefix "-Infinity" s with
            | Some r => Ok (JNum "-Infinity", r)
            | None =>
            match match_number s with
            | Some (literal, r) => Ok (JNum literal, r)
            | None => Raise expecting_value
            end end end end end end end
      end
  end
with elements (fuel : nat) (acc : list value) (s : string) {struct fuel}
  : res (value * string) :=
  match fuel with
  | O => Raise recursion_error
  | S fuel' =>
      '(val, r1) ← scan_once fuel' s;
      match skip_ws r1 with
      | String e r2 =>
          if Ascii.eqb e "]" then Ok (JArr (acc ++ [val]), r2)
          else if Ascii.eqb e "," then elements fuel' (acc ++ [val]) (skip_ws r2)
          else Raise expecting_comma
      | EmptyString => Raise expecting_comma
      end
  end
with members (fuel : nat) (m : gmap string value) (s : string) {struct fuel}
  : res (value * string) :=
  match fuel with
  | O => Raise recursion_error
  | S fuel' =>
      match s with
      | String c s1 =>
          if Ascii.eqb c dquote then
            '(key, r1) ← scanstring s1;
            match skip_ws r1 with
            | String d r2 =>
                if Ascii.eqb d ":" then
                  '(val, r3) ← scan_once fuel' (skip_ws r2);
                  match skip_ws r3 with
                  | String e r4 =>
                      if Ascii.eqb e "}" then Ok (JObj (<[key := val]> m), r4)
                      else if Ascii.eqb e ","
                      then members fuel' (<[key := val]> m) (skip_ws r4)
                      else Raise expecting_comma
                  | EmptyString => Raise expecting_comma
                  end
                else Raise expecting_colon
            | EmptyString => Raise expecting_colon
            end
          else Raise expecting_name
      | EmptyString => Raise expecting_name
      end
  end.

(** [json.loads]: one value, with white space around it. *)
Definition loads (s : string) : res value :=
  '(obj, rest) ← scan_once (S (String.length s)) (skip_ws s);
  match skip_ws rest with
  | EmptyString => Ok obj
  | String _ _ => Raise (decode_error "Extra data")
  end.

(** [v[key]] on an object, and [[it[key] for it in v]] on an array of
    objects; [None] when the value has another shape or lacks the key. *)
Definition member (key : string) (v : value) : option value :=
  match v with
  | JObj m => m !! key
  | _ => None
  end.

Definition column (key : string) (v : value) : option (list value) :=
  match v with
  | JArr l => mapM (member key) l
  | _ => None
  end.

End Json.

(** ** The remaining writers and the dispatch on the format name *)

(** One CSV row, as handed to [csv.DictWriter.writerow]. *)
Record csv_row : Type := mkRow {
  row_start : string;
  row_duration : string;
  row_speaker : option string;
  row_confidence : option float;
  row_text : option string
}.

(** One DOCX paragraph or PDF block: the speaker, the bracketed timestamp
    (empty when the start is unknown) and the body text. *)
Record block : Type := mkBlock {
  block_speaker : option string;
  block_ts : string;
  block_text : string
}.

(** The serializers of the libraries the writers call; they are outside the
    repository, and the writers only hand them the values computed here.
    [docx_installed] and [fpdf_installed] say whether the import succeeds.
    [float_repr] is [float.__repr__], with which [json] writes a finite
    float; the only fact used of it is that it writes a finite float as a
    number: digits with an optional sign, fraction and exponent. *)
Class Libs : Type := {
  float_repr : float -> string;
  float_repr_number :
    forall f, Json.finite f = true -> Json.number_literal (float_repr f) = true;
  csv_text : list csv_row -> string;
  docx_installed : bool;
  docx_save : list block -> string;
  fpdf_installed : bool;
  pdf_output : list block -> string
}.

Section Writers.
Context {libs : Libs}.

Fixpoint txt_text (items : list Cue) : string :=
  match items with
  | [] => ""
  | it :: rest =>
      match speaker it with
      | Some (String c sp) =>
          "[" +:+ String c sp +:+ "] " +:+ text_or_empty it +:+ String "010" ""
            +:+ txt_text rest
      | _ => text_or_empty it +:+ String "010" "" +:+ txt_text rest
      end
  end.

Definition write_txt (items : list Cue) (path : string) (fs : files)
  : files * res string :=
  (write_file path (txt_text items) fs, Ok path).

Definition write_json (items : list Cue) (path : string) (fs : files)
  : files * res string :=
  (write_file path (Json.dumps float_repr items) fs, Ok path).

(** [fmt] of [write_csv]. *)
Definition csv_fmt (ts : option float) : res string :=
  match ts with
  | None => Ok ""
  | Some t => secs_to_vtt_timestamp t
  end.

Definition csv_row_of (it : Cue) : res csv_row :=
  s ← csv_fmt (start it);
  d ← csv_fmt (duration it);
  Ok (mkRow s d (speaker it) (confidence it) (text it)).

(** The rows written before the loop ends or a timestamp raises. *)
Fixpoint csv_loop (items : list Cue) (done : list csv_row)
  : list csv_row * option exn :=
  match items with
  | [] => (done, None)
  | it :: rest =>
      match csv_row_of it with
      | Ok r => csv_loop rest (done ++ [r])
      | Raise e => (done, Some e)
      end
  end.

(** The file is opened and its header written before the first row is
    computed: a row that raises leaves the rows before it on disk. *)
Definition write_csv (items : list Cue) (path : string) (fs : files)
  : files * res string :=
  let '(rows, err) := csv_loop items [] in
  let fs' := write_file path (csv_text rows) fs in
  match err with
  | None => (fs', Ok path)
  | Some e => (fs', Raise e)
  end.

Definition block_of (it : Cue) : res block :=
  ts ← match start it with
       | Some s => secs_to_vtt_timestamp s
       | None => Ok ""
       end;
  Ok (mkBlock (speaker it) ts (text_or_empty it)).

Fixpoint blocks_of (items : list Cue) : res (list block) :=
  match items with
  | [] => Ok []
  | it :: rest =>
      b ← block_of it;
      bs ← blocks_of rest;
      Ok (b :: bs)
  end.

Definition write_docx (items : list Cue) (path : string) (fs : files)
  : files * res string :=
  if docx_installed then
    emit (bs ← blocks_of items; Ok (docx_save bs)) path fs
  else
    (fs, Raise (RuntimeError
       "python-docx is required for docx output. pip install python-docx")).

Definition write_pdf (items : list Cue) (path : string) (fs : files)
  : files * res string :=
  if fpdf_installed then
    emit (bs ← blocks_of items; Ok (pdf_output bs)) path fs
  else
    (fs, Raise (RuntimeError "fpdf is required for pdf output. pip install fpdf")).

(** [c.lower()] on the code points below U+0100. *)
Definition lower_char (c : ascii) : ascii :=
  let n := nat_of_ascii c in
  if ((65 <=? n) && (n <=? 90))%nat then ascii_of_nat (n + 32)
  else if ((192 <=? n) && (n <=? 222) && negb (n =? 215))%nat
       then ascii_of_nat (n + 32)
       else c.

Fixpoint lower (s : string) : string :=
  match s with
  | EmptyString => EmptyString
  | String c s' => String (lower_char c) (lower s')
  end.

Definition save_output (vid : string) (items : list Cue) (fmt : string)
    (custom_path : option string) (fs : files) : files * res string :=
  let out_path :=
    match custom_path with
    | Some (String c p) => String c p
    | _ => vid +:+ "_transcript." +:+ fmt
    end in
  let fmt := lower fmt in
  if String.eqb fmt "txt" then write_txt items out_path fs
  else if String.eqb fmt "json" then write_json items out_path fs
  else if String.eqb fmt "srt" then write_srt items out_path fs
  else if String.eqb fmt "vtt" then write_vtt items out_path fs
  else if String.eqb fmt "csv" then write_csv items out_path fs
  else if String.eqb fmt "docx" then write_docx items out_path fs
  else if String.eqb fmt "pdf" then write_pdf items out_path fs
  else (fs, Raise (UnsupportedFormat fmt)).

(** The seven format names of the dispatch. *)
Definition supported_formats : list string :=
  ["txt"; "json"; "srt"; "vtt"; "csv"; "docx"; "pdf"].

End Writers.

(** ** [urllib.parse], restricted to what [extract_video_id] uses

    These functions belong to the Python standard library, not to the
    repository; they are transcribed from the library (CPython 3.11 with the
    check of bracketed hosts). [urlsplit] raises ValueError when the network
    location has one bracket without the other, or brackets around anything
    but an address. Its last check, [_checknetloc], rejects a network
    location with a character whose NFKC normal form contains one of
    [/?#@:]; no code point below U+0100 has such a form, so the check never
    fails on the strings of this embedding and is left out. *)

Record ParseResult : Type := mkParse {
  scheme : string;
  netloc : string;
  path : string;
  params : string;
  query : string;
  fragment : string
}.

(** Two functions of the library are kept abstract. Of
    [urllib.parse.unquote] the only fact used is its own first test, that a
    string with no percent sign is returned as it is. Of
    [_check_bracketed_host], which hands the text between the brackets of a
    host to [ipaddress] and raises ValueError unless it is an IPv6 or
    IPvFuture address, nothing is assumed: it returns or raises. *)
Class UrlLib : Type := {
  unquote : string -> string;
  unquote_plain : forall s, Str.contains "%" s = false -> unquote s = s;
  check_bracketed_host : string -> res unit
}.

Module Url.

(** Leading characters [urlsplit] strips: U+0000..U+0020. *)
Definition is_c0_or_space (c : ascii) : bool := (Str.code c <=? 32)%nat.

(** Characters [urlsplit] removes everywhere: tab, CR, LF. *)
Definition is_unsafe (c : ascii) : bool :=
  (Str.code c =? 9)%nat || (Str.code c =? 10)%nat || (Str.code c =? 13)%nat.

Definition is_scheme_char (c : ascii) : bool :=
  Str.is_alpha c || Str.is_digit c
  || Ascii.eqb c "+" || Ascii.eqb c "-" || Ascii.eqb c ".".

(** The scheme, lower-cased, and the rest, when the text before the first
    colon is a scheme. *)
Definition split_scheme (url : string) : string * string :=
  match url with
  | String c _ =>
      if Str.is_alpha c then
        match Str.split_first ":" url with
        | Some (s, rest) =>
            if Str.forallb is_scheme_char s then (lower s, rest) else (EmptyString, url)
        | None => (EmptyString, url)
        end
      else (EmptyString, url)
  | EmptyString => (EmptyString, url)
  end.

Definition is_netloc_delim (c : ascii) : bool :=
  Ascii.eqb c "/" || Ascii.eqb c "?" || Ascii.eqb c "#".

(** [_splitnetloc(url, 0)] on the text after the two slashes. *)
Fixpoint splitnetloc (s : string) : string * string :=
  match s with
  | EmptyString => (EmptyString, EmptyString)
  | String c s' =>
      if is_netloc_delim c then (EmptyString, s)
      else let '(n, r) := splitnetloc s' in (String c n, r)
  end.

Definition split_netloc (url : string) : string * string :=
  match url with
  | String a (String b rest) =>
      if Ascii.eqb a "/" && Ascii.eqb b "/" then splitnetloc rest
      else (EmptyString, url)
  | _ => (EmptyString, url)
  end.

(** [s.rpartition(c)[2]]: the text after the last [c], all of [s] when [c]
    does not occur. *)
Fixpoint after_last (c : ascii) (s : string) : string :=
  match s with
  | EmptyString => EmptyString
  | String a s' =>
      if Str.contains c s' then after_last c s'
      else if Ascii.eqb a c then s' else s
  end.

Definition invalid_ipv6 : exn := ValueError "Invalid IPv6 URL".

Section Split.
Context {urllib : UrlLib}.

(** [_check_bracketed_netloc]: nothing may stand before the opening
    bracket, and only a port after the closing one. *)
Definition check_bracketed_netloc (netloc : string) : res unit :=
  let hostname_and_port := after_last "@" netloc in
  match Str.split_first "[" hostname_and_port with
  | Some (before_bracket, bracketed) =>
      match before_bracket with
      | String _ _ => Raise invalid_ipv6
      | EmptyString =>
          let '(hostname, port) :=
            match Str.split_first "]" bracketed with
            | Some (h, p) => (h, p)
            | None => (bracketed, EmptyString)
            end in
          match port with
          | String c _ =>
              if Ascii.eqb c ":" then check_bracketed_host hostname
              else Raise invalid_ipv6
          | EmptyString => check_bracketed_host hostname
          end
      end
  | None =>
      let hostname :=
        match Str.split_first ":" hostname_and_port with
        | Some (h, _) => h
        | None => hostname_and_port
        end in
      check_bracketed_host hostname
  end.

(** The two tests [urlsplit] makes on the network location it has cut
    off. Without the two slashes the network location is empty and both
    tests pass. *)
Definition check_netloc (netloc : string) : res unit :=
  let lb := Str.contains "[" netloc in
  let rb := Str.contains "]" netloc in
  if (lb && negb rb) || (rb && negb lb) then Raise invalid_ipv6
  else if lb && rb then check_bracketed_netloc netloc
  else Ok tt.

Definition urlsplit (url : string) : res ParseResult :=
  let url := Str.lstrip is_c0_or_space url in
  let url := Str.remove is_unsafe url in
  let '(scheme, url) := split_scheme url in
  let '(netloc, url) := split_netloc url in
  check_netloc netloc ;;
  let '(url, fragment) :=
    match Str.split_first "#" url with
    | Some (u, f) => (u, f)
    | None => (url, EmptyString)
    end in
  let '(url, query) :=
    match Str.split_first "?" url with
    | Some (u, q) => (u, q)
    | None => (url, EmptyString)
    end in
  Ok (mkParse scheme netloc url EmptyString query fragment).

End Split.

(** The schemes whose last path segment may carry [;parameters]. *)
Definition uses_params : list string :=
  [""; "ftp"; "hdl"; "prospero"; "http"; "imap"; "https"; "shttp"; "rtsp";
   "rtspu"; "sip"; "sips"; "mms"; "sftp"; "tel"].

(** The text after the last slash, and what precedes it (slash included). *)
Fixpoint rsplit_slash (s : string) : string * string :=
  match s with
  | EmptyString => (EmptyString, EmptyString)
  | String c s' =>
      let '(pre, lst) := rsplit_slash s' in
      if Str.contains "/" s then (String c pre, lst)
      else (EmptyString, s)
  end.

(** [_splitparams]: cut at the first semicolon of the last segment. *)
Definition splitparams (url : string) : string * string :=
  let '(pre, lst) := rsplit_slash url in
  match Str.split_first ";" lst with
  | Some (l, p) => (pre +:+ l, p)
  | None => (url, EmptyString)
  end.

Definition urlparse `{UrlLib} (url : string) : res ParseResult :=
  r ← urlsplit url;
  if bool_decide (scheme r ∈ uses_params) && Str.contains ";" (path r) then
    let '(p, prm) := splitparams (path r) in
    Ok (mkParse (scheme r) (netloc r) p prm (query r) (fragment r))
  else Ok r.

End Url.

Section VideoId.
Context {urllib : UrlLib}.

(** [parse_qsl(qs)] with its defaults: fields are separated by [&], a
    field without [=] or with an empty value is dropped, [+] stands for
    a space, and names and values are percent-decoded. *)
Definition parse_field (name_value : string) : list (string * string) :=
  match Str.split_first "=" name_value with
  | Some (n, String c v) =>
      [(unquote (Str.replace "+" " " n), unquote (Str.replace "+" " " (String c v)))]
  | _ => []
  end.

Definition parse_qsl (qs : string) : list (string * string) :=
  flat_map parse_field (Str.split "&" qs).

(** [parse_qs(qs)]: the values of each name, in order of appearance. *)
Definition add_field (m : gmap string (list string)) (nv : string * string)
  : gmap string (list string) :=
  match m !! nv.1 with
  | Some vs => <[nv.1 := vs ++ [nv.2]]> m
  | None => <[nv.1 := [nv.2]]> m
  end.

Definition parse_qs (qs : string) : gmap string (list string) :=
  fold_left add_field (parse_qsl qs) ∅.

Definition is_id_char (c : ascii) : bool :=
  Str.is_alpha c || Str.is_digit c || Ascii.eqb c "_" || Ascii.eqb c "-".

(** The longest prefix made of identifier characters: its length and what
    follows it. *)
Fixpoint id_run (s : string) : nat * string :=
  match s with
  | EmptyString => (O, EmptyString)
  | String c s' =>
      if is_id_char c then let '(n, r) := id_run s' in (S n, r)
      else (O, s)
  end.

(** [re.match(r"^[A-Za-z0-9_-]{6,}$", candidate)]: at least six identifier
    characters up to the end, where [$] also stands before a final
    newline. *)
Definition match_video_id (candidate : string) : bool :=
  let '(n, r) := id_run candidate in
  (6 <=? n)%nat && (String.eqb r "" || String.eqb r (String "010" "")).

(** The first branch: the first value of [v] in a non-empty query. *)
Definition query_v (parsed : ParseResult) : option string :=
  match query parsed with
  | EmptyString => None
  | q =>
      match parse_qs q !! "v" with
      | Some (v :: _) => Some v
      | _ => None
      end
  end.

(** The second branch: the last segment of the path without its outer
    slashes. *)
Definition path_candidate (parsed : ParseResult) : option string :=
  let path := Str.strip Str.is_slash (path parsed) in
  let parts := Str.split "/" path in
  Str.last_part parts.

Definition extract_video_id (url : string) : res string :=
  parsed ← Url.urlparse url;
  match query_v parsed with
  | Some v => Ok v
  | None =>
      match path_candidate parsed with
      | Some candidate =>
          if match_video_id candidate then Ok candidate
          else Raise (InvalidURL url)
      | None => Raise (InvalidURL url)
      end
  end.

End VideoId.

(** An instance for running examples: escapes are decoded to the character
    with that code, which agrees with the library on escapes below [%80]. *)
Module Unquote.

Definition hex_val (c : ascii) : option nat :=
  let n := Str.code c in
  if Str.is_digit c then Some (n - 48)%nat
  else if Str.in_range 65 70 c then Some (n - 55)%nat
  else if Str.in_range 97 102 c then Some (n - 87)%nat
  else None.

Fixpoint decode (s : string) : string :=
  match s with
  | EmptyString => EmptyString
  | String c s1 =>
      match s1 with
      | String a (String b rest) =>
          if Ascii.eqb c "%" then
            match hex_val a, hex_val b with
            | Some x, Some y => String (ascii_of_nat (16 * x + y)) (decode rest)
            | _, _ => String c (decode s1)
            end
          else String c (decode s1)
      | _ => String c (decode s1)
      end
  end.

End Unquote.

(** ** Regular expressions, as far as the subtitle patterns use them

    A backtracking matcher with the priorities of Python's [re]: a greedy
    repetition tries the longest run first, a lazy one the shortest, an
    alternation its left branch first. Repetition is over one-character
    atoms, which is all the patterns of the parser need. *)

Inductive regex : Type :=
| Chr (c : ascii)                       (* a literal character *)
| Class (p : ascii -> bool)             (* [\d], [\s], and [.] under re.S *)
| Seq (r1 r2 : regex)
| Alt (r1 r2 : regex)
| Greedy (p : ascii -> bool) (min : nat)  (* [p{min,}], [p*], [p+] *)
| Lazy (p : ascii -> bool)              (* [p*?] *)
| Group (n : nat) (r : regex)           (* capture group number [n] *)
| Ahead (r : regex)                     (* [(?=r)] *)
| EndZ.                                 (* [\Z] *)

Abbreviation captures := (gmap nat string).

Module Re.

(** The first [length s - length s'] characters of [s]: what was consumed
    between two positions. *)
Fixpoint take (n : nat) (s : string) : string :=
  match n, s with
  | S n', String c s' => String c (take n' s')
  | _, _ => EmptyString
  end.

Definition taken (s s' : string) : string :=
  take (String.length s - String.length s') s.

Section Match.
Context {A : Type}.

Fixpoint greedy (p : ascii -> bool) (min : nat) (s : string)
    (k : string -> option A) : option A :=
  match s with
  | String c s' =>
      if p c then
        match greedy p (pred min) s' k with
        | Some x => Some x
        | None => match min with O => k s | S _ => None end
        end
      else match min with O => k s | S _ => None end
  | EmptyString => match min with O => k s | S _ => None end
  end.

Fixpoint lazy (p : ascii -> bool) (s : string)
    (k : string -> option A) : option A :=
  match k s with
  | Some x => Some x
  | None =>
      match s with
      | String c s' => if p c then lazy p s' k else None
      | EmptyString => None
      end
  end.

End Match.

(** [exec r s caps k]: match [r] at the head of [s], then continue with
    [k] on what is left; [None] when every alternative fails. *)
Fixpoint exec {A : Type} (r : regex) (s : string) (caps : captures)
    (k : string -> captures -> option A) : option A :=
  match r with
  | Chr c =>
      match s with
      | String a s' => if Ascii.eqb a c then k s' caps else None
      | EmptyString => None
      end
  | Class p =>
      match s with
      | String a s' => if p a then k s' caps else None
      | EmptyString => None
      end
  | Seq r1 r2 => exec r1 s caps (fun s' caps' => exec r2 s' caps' k)
  | Alt r1 r2 =>
      match exec r1 s caps k with
      | Some x => Some x
      | None => exec r2 s caps k
      end
  | Greedy p min => greedy p min s (fun s' => k s' caps)
  | Lazy p => lazy p s (fun s' => k s' caps)
  | Group n r =>
      exec r s caps (fun s' caps' => k s' (<[n := taken s s']> caps'))
  | Ahead r =>
      match exec r s caps (fun _ caps' => Some caps') with
      | Some caps' => k s caps'
      | None => None
      end
  | EndZ =>
      match s with
      | EmptyString => k s caps
      | String _ _ => None
      end
  end.

(** A match at the head of [s]: how many characters it spans, and its
    groups. *)
Definition match_here (r : regex) (s : string) : option (nat * captures) :=
  exec r s ∅ (fun s' caps => Some ((String.length s - String.length s')%nat, caps)).

(** [r.finditer(s)]: leftmost matches, each search resuming where the
    previous match ended. [skip] counts the characters still covered by
    the last match. *)
Fixpoint scan (r : regex) (s : string) (skip : nat) : list captures :=
  match skip with
  | S skip' =>
      match s with
      | String _ s' => scan r s' skip'
      | EmptyString => []
      end
  | O =>
      match match_here r s with
      | Some (len, caps) =>
          caps ::
            match s with
            | String _ s' => scan r s' (pred len)
            | EmptyString => []
            end
      | None =>
          match s with
          | String _ s' => scan r s' O
          | EmptyString => []
          end
      end
  end.

Definition finditer (r : regex) (s : string) : list captures := scan r s O.

(** [mm.group(n)]. *)
Definition group (n : nat) (caps : captures) : string :=
  match caps !! n with
  | Some g => g
  | None => EmptyString
  end.

End Re.

Declare Scope regex_scope.
Delimit Scope regex_scope with re.
Infix "·" := Seq (at level 45, right associativity) : regex_scope.

(** ** The subtitle file parser *)

Definition digit : regex := Class Str.is_digit.
Definition spaces : regex := Greedy Str.is_space 0.

(** [\d{2}:\d{2}:\d{2}<sep>\d+] *)
Definition timestamp_re (sep : ascii) : regex :=
  (digit · digit · Chr ":" · digit · digit · Chr ":" · digit · digit
   · Chr sep · Greedy Str.is_digit 1)%re.

(** [(.*?)(?=\n{2,}|\Z)] under [re.S] *)
Definition body_re : regex :=
  (Group 3 (Lazy (fun _ => true))
   · Ahead (Alt (Greedy (Ascii.eqb newline) 2) EndZ))%re.

(** [(ts)\s*-->\s*(ts)\s*\n(.*?)(?=\n{2,}|\Z)] *)
Definition timing_re (sep : ascii) : regex :=
  (Group 1 (timestamp_re sep) · spaces · Chr "-" · Chr "-" · Chr ">" · spaces
   · Group 2 (timestamp_re sep) · spaces · Chr newline · body_re)%re.

Definition vtt_pattern : regex := timing_re ".".

(** The SRT pattern starts with the index line, [\d+\s*\n]. *)
Definition srt_pattern : regex :=
  (Greedy Str.is_digit 1 · spaces · Chr newline · timing_re ",")%re.

(** The value of a string of decimal digits. *)
Fixpoint digits_value (s : string) (acc : Z) : option Z :=
  match s with
  | EmptyString => Some acc
  | String c s' =>
      if Str.is_digit c
      then digits_value s' (10 * acc + Z.of_nat (Str.code c - 48))
      else None
  end.

(** [int(s)] on the strings the patterns capture (decimal digits). *)
Definition py_int (s : string) : res Z :=
  match s, digits_value s 0 with
  | String _ _, Some z => Ok z
  | _, _ => Raise (ValueError "invalid literal for int() with base 10")
  end.

(** [float(s)] on [digits] or [digits.digits]: the nearest binary64 value
    to the decimal number written. *)
Definition py_float (s : string) : res float :=
  let bad := Raise (ValueError "could not convert string to float") in
  match Str.split_first "." s with
  | Some (ip, fp) =>
      match ip +:+ fp, digits_value (ip +:+ fp) 0 with
      | String _ _, Some n => Ok (PyNum.truediv n (10 ^ Z.of_nat (String.length fp)))
      | _, _ => bad
      end
  | None =>
      match s, digits_value s 0 with
      | String _ _, Some n => Ok (PyNum.of_Z n)
      | _, _ => bad
      end
  end.

(** [to_secs] of the parser: [h, m, s = t.split(":")] and
    [int(h) * 3600 + int(m) * 60 + float(s)]. *)
Definition to_secs (t : string) : res float :=
  match Str.split ":" t with
  | [h; m; s] =>
      hh ← py_int h;
      mm ← py_int m;
      ss ← py_float s;
      Ok (PyNum.of_Z (hh * 3600 + mm * 60) + ss)%float
  | _ => Raise (ValueError "wrong number of values to unpack")
  end.

(** The [try] block of both loops: any exception leaves both fields null. *)
Definition cue_timing (start_ts end_ts : string) : option float * option float :=
  match to_secs start_ts with
  | Ok start =>
      match to_secs end_ts with
      | Ok e => (Some start, Some (PyNum.round3 (e - start)%float))
      | Raise _ => (None, None)
      end
  | Raise _ => (None, None)
  end.

(** [mm.group(3).strip().replace("\n", " ")]. *)
Definition cue_text (body : string) : string :=
  Str.replace newline " " (Str.strip Str.is_space body).

(** The cue appended for one match of the VTT pattern. *)
Definition vtt_cue (mm : captures) : Cue :=
  let start_ts := Str.strip Str.is_space (Re.group 1 mm) in
  let end_ts := Str.strip Str.is_space (Re.group 2 mm) in
  let text := cue_text (Re.group 3 mm) in
  let '(start, duration) := cue_timing start_ts end_ts in
  mkCue (Some text) start duration None None.

(** The cue appended for one match of the SRT pattern. *)
Definition srt_cue (mm : captures) : Cue :=
  let start_ts := Str.replace "," "." (Str.strip Str.is_space (Re.group 1 mm)) in
  let end_ts := Str.replace "," "." (Str.strip Str.is_space (Re.group 2 mm)) in
  let text := cue_text (Re.group 3 mm) in
  let '(start, duration) := cue_timing start_ts end_ts in
  mkCue (Some text) start duration None None.

(** The two loops of [yt_dlp_subtitle_fallback] over the file text. *)
Definition vtt_cues (data : string) : list Cue :=
  vtt_cue <$> Re.finditer vtt_pattern data.

Definition srt_cues (data : string) : list Cue :=
  srt_cue <$> Re.finditer srt_pattern data.

(** The parser up to its last resort: the VTT cues when there are any, else
    the SRT cues when there are any; [None] stands for the point where the
    source goes on to split the text on blank lines. *)
Definition timed_cues (data : string) : option (list Cue) :=
  match vtt_cues data with
  | c :: cues => Some (c :: cues)
  | [] =>
      match srt_cues data with
      | c :: cues => Some (c :: cues)
      | [] => None
      end
  end.

(** ** Definitions that follow the wording of the specification

    These are not transcribed from the code: each states a rule the way the
    specification words it, to be compared with the code's definition. *)

Module Spec.

(** [math.floor(f)]. *)
Definition floor (f : float) : res Z :=
  match Prim2SF f with
  | S754_zero _ => Ok 0
  | S754_finite s m e =>
      let down := PyNum.trunc_mag m e in
      let exact :=
        if 0 <=? e then true else Zpos m mod 2 ^ (- e) =? 0 in
      Ok (if s then (if exact then - down else - down - 1) else down)
  | S754_infinity _ => Raise (OverflowError "cannot convert float infinity to integer")
  | S754_nan => Raise (ValueError "cannot convert float NaN to integer")
  end.

(** The timestamp rule as worded: hours, minutes and whole seconds of
    [floor(seconds)], and [round((seconds - floor(seconds)) * 1000)]
    milliseconds, padded to 2/2/2/3 digits. *)
Definition timestamp (sep : string) (secs : float) : res string :=
  whole ← floor secs;
  ms ← PyNum.round_half_even ((secs - PyNum.of_Z whole) * 1000)%float;
  Ok (fmt_d 2 (whole / 3600) +:+ ":" +:+ fmt_d 2 ((whole mod 3600) / 60) +:+ ":"
      +:+ fmt_d 2 (whole mod 60) +:+ sep +:+ fmt_d 3 ms).

(** "Yields a non-empty sequence": the value is a list, a tuple or an
    iterable with at least one item. *)
Definition nonempty_sequence (v : pyval) : bool :=
  match iterate v with
  | Some (_ :: _) => true
  | _ => false
  end.

(** The accessor rule as worded: the first accessor, in the fixed order,
    that succeeds and yields a non-empty sequence is normalized; the
    others are passed over. *)
Fixpoint first_accessor (attrs : string -> option pyval) (names : list string)
  : res (list item_dict) :=
  match names with
  | [] => Raise NormalizationError
  | name :: rest =>
      match accessor_value attrs name with
      | Some r =>
          if nonempty_sequence r then normalize_transcript_obj r
          else first_accessor attrs rest
      | None => first_accessor attrs rest
      end
  end.



End Spec.

(** [repr] of a float that is a whole number below [1e16]: its digits and
    [.0]. The examples have no other floats, for which this function
    writes [0.0]. *)
Definition repr_whole (f : float) : string :=
  match Prim2SF f with
  | S754_zero s => (if s then "-" else "") +:+ "0.0"
  | S754_finite s m e =>
      let z := PyNum.trunc_mag m e in
      if PrimFloat.eqb (PyNum.of_Z z) (abs f) && (z <? 10 ^ 16)
      then (if s then "-" else "") +:+ digits_of z +:+ ".0"
      else "0.0"
  | _ => "0.0"
  end.

(** What the examples use for [repr]: [repr_whole], kept where it is a
    number. *)
Definition repr_example (f : float) : string :=
  let s := repr_whole f in
  if Json.number_literal s then s else "0.0".

(** An environment for running examples: serializers that write nothing,
    [python-docx] and [fpdf] not installed. *)
Definition no_libs : Libs.
Proof.
  refine {|
    float_repr := repr_example;
    csv_text := fun _ => EmptyString;
    docx_installed := false;
    docx_save := fun _ => EmptyString;
    fpdf_installed := false;
    pdf_output := fun _ => EmptyString
  |}.
  intros f _. unfold repr_example.
  destruct (Json.number_literal (repr_whole f)) eqn:E; [exact E | reflexivity].
Defined.

Definition nl : string := String newline EmptyString.

(** The clock fields both timestamp functions compute: hours, minutes,
    seconds and milliseconds. *)
Definition clock (secs : float) : res (Z * Z * Z * Z) :=
  td ← Timedelta.of_seconds secs;
  total_seconds ← PyNum.int_of_float (Timedelta.total_seconds td);
  ms ← PyNum.int_of_float
          ((Timedelta.total_seconds td - PyNum.of_Z total_seconds) * 1000)%float;
  Ok (total_seconds / 3600, (total_seconds mod 3600) / 60, total_seconds mod 60, ms).

Definition render (sep : string) (f : Z * Z * Z * Z) : string :=
  let '(hh, mm, ss, ms) := f in
  fmt_d 2 hh +:+ ":" +:+ fmt_d 2 mm +:+ ":" +:+ fmt_d 2 ss +:+ sep +:+ fmt_d 3 ms.

(** ** Notions used in the statements

    Predicates and example values the properties below are stated with. *)

(** A field of exactly two decimal digits. *)
Definition two_digits (s : string) : bool :=
  match s with
  | String a (String b EmptyString) => Str.is_digit a && Str.is_digit b
  | _ => false
  end.

(** The two cues of the example: [{start:0,duration:2,text:"a"}] and
    [{start:2,duration:None,text:"b"}]. *)
Definition example_cues : list Cue :=
  [ mkCue (Some "a") (Some 0%float) (Some 2%float) None None;
    mkCue (Some "b") (Some 2%float) None None None ].

(** The five keys of a cue. *)
Definition cue_keys : gset string :=
  {["text"; "start"; "duration"; "speaker"; "confidence"]}.

(** The field of a source item a cue key is read from: [it.get(key)] on a
    dictionary, [getattr(it, key, None)] on anything else. *)
Definition item_field (it : pyval) (key : string) : pyval :=
  match it with
  | PDict m => dict_get m key
  | _ => getattr_default it key
  end.

(** The dictionary after the five assignments. *)
Definition five (t s d sp c : pyval) : item_dict :=
  <["confidence" := c]>
    (<["speaker" := sp]>
       (<["duration" := d]> (<["start" := s]> (<["text" := t]> ∅)))).

(** The accessors of a value: only opaque objects have any. *)
Definition attrs_of (obj : pyval) : string -> option pyval :=
  match obj with
  | PObj _ attrs => attrs
  | _ => fun _ => None
  end.

(** An accessor is passed over when the attribute is missing, when calling
    it raises, or when what it returns cannot be normalized. *)
Definition accessor_fails (attrs : string -> option pyval) (name : string) : Prop :=
  match accessor_value attrs name with
  | None => True
  | Some r => exists e, normalize_transcript_obj r = Raise e
  end.

(** An opaque value: neither a list nor a tuple, and iteration fails or
    yields nothing. Its normalization is the accessor loop. *)
Definition opaque (obj : pyval) : Prop :=
  (forall l, obj <> PList l) /\ (forall l, obj <> PTuple l)
  /\ Spec.nonempty_sequence obj = false.

(** The items a value is normalized from. A list or a tuple gives its own
    items; any other value that can be iterated and yields at least one
    item gives the items it yields; an opaque value gives the items of the
    value of its first accessor, in the fixed order, that is not passed
    over. *)
Inductive source_items : pyval -> list pyval -> Prop :=
| items_list l : source_items (PList l) l
| items_tuple l : source_items (PTuple l) l
| items_iterable obj x xs :
    (forall l, obj <> PList l) -> (forall l, obj <> PTuple l) ->
    iterate obj = Some (x :: xs) ->
    source_items obj (x :: xs)
| items_accessor obj pre name post r l :
    opaque obj ->
    accessor_names = pre ++ name :: post ->
    Forall (accessor_fails (attrs_of obj)) pre ->
    accessor_value (attrs_of obj) name = Some r ->
    source_items r l ->
    source_items obj l.

(** What a cue holds under the key [key] for the source item [it]: the
    value of the key in a dictionary, the attribute of that name on an
    object, and null when the item has no such key or attribute. *)
Definition source_field (it : pyval) (key : string) : pyval :=
  match it with
  | PDict m => default PNone (m !! key)
  | PObj _ attrs => default PNone (attrs key)
  | _ => PNone
  end.

(** The dictionary [{"text": "hi", "start": 1.0}]. *)
Definition hi_dict : pyval :=
  PDict {[ "text" := PStr "hi"; "start" := PFloat 1 ]}.

(** An object whose [fetch()] returns an empty list and whose [list()]
    returns one dictionary. *)
Definition fetch_empty_list_full : pyval :=
  PObj None (fun name =>
    if String.eqb name "fetch" then Some (PFun (Some (PList [])))
    else if String.eqb name "list" then Some (PFun (Some (PList [hi_dict])))
    else None).

(** An object whose [fetch()] raises and whose [list] attribute is a
    one-item list. *)
Definition fetch_raises_list_full : pyval :=
  PObj None (fun name =>
    if String.eqb name "fetch" then Some (PFun None)
    else if String.eqb name "list" then Some (PList [hi_dict])
    else None).

(** The path [save_output] hands to the writer: the custom path when one
    is given and not empty, else [<vid>_transcript.<fmt>] with the format
    name as the caller spelled it. *)
Definition out_path_of (vid fmt : string) (custom_path : option string) : string :=
  match custom_path with
  | Some (String c p) => String c p
  | _ => vid +:+ "_transcript." +:+ fmt
  end.

(** The character [a] is not [c]. *)
Definition is_not (c : ascii) (a : ascii) : bool := negb (Ascii.eqb a c).


(** A character that the URL splitter neither strips nor takes for the
    start of the query or fragment. *)
Definition url_plain (c : ascii) : bool :=
  negb (Url.is_c0_or_space c) && is_not "?" c && is_not "#" c.


(** A character that [urlsplit] keeps: not a tab, a line feed or a carriage
    return. *)
Definition kept (c : ascii) : bool := negb (Url.is_unsafe c).

(** The parts [urlsplit] cuts a URL into, whether or not the network
    location then passes its checks. *)
Definition url_parts (url : string) : ParseResult :=
  let url := Str.lstrip Url.is_c0_or_space url in
  let url := Str.remove Url.is_unsafe url in
  let '(scheme, url) := Url.split_scheme url in
  let '(netloc, url) := Url.split_netloc url in
  let '(url, fragment) :=
    match Str.split_first "#" url with
    | Some (u, f) => (u, f)
    | None => (url, EmptyString)
    end in
  let '(url, query) :=
    match Str.split_first "?" url with
    | Some (u, q) => (u, q)
    | None => (url, EmptyString)
    end in
  mkParse scheme netloc url EmptyString query fragment.

(** The same, with the parameters that [urlparse] cuts off the path. *)
Definition parse_parts (url : string) : ParseResult :=
  let r := url_parts url in
  if bool_decide (scheme r ∈ Url.uses_params) && Str.contains ";" (path r) then
    let '(p, prm) := Url.splitparams (path r) in
    mkParse (scheme r) (netloc r) p prm (query r) (fragment r)
  else r.


(** Facts on one character, checked on each of the 256. *)
Ltac by_character c :=
  destruct c as [[] [] [] [] [] [] [] []]; vm_compute;
  intros; try discriminate; repeat split; reflexivity.


(** The text does not go on with a character of the class. *)
Definition stops (p : ascii -> bool) (rest : string) : Prop :=
  match rest with
  | String c _ => p c = false
  | EmptyString => True
  end.

(** A rendered time below one hundred hours: three two-digit fields, the
    separator and at least one digit. *)
Definition is_ts (sep : ascii) (ts : string) : Prop :=
  exists h1 h2 m1 m2 s1 s2 ms,
    ts = String h1 (String h2 (String ":" (String m1 (String m2 (String ":"
           (String s1 (String s2 (String sep ms))))))))
    /\ Str.is_digit h1 = true /\ Str.is_digit h2 = true
    /\ Str.is_digit m1 = true /\ Str.is_digit m2 = true
    /\ Str.is_digit s1 = true /\ Str.is_digit s2 = true
    /\ Str.forallb Str.is_digit ms = true /\ ms <> EmptyString.

(** The time is rendered with non-negative fields and two-digit hours. *)
Definition clock_ok (t : float) : bool :=
  match clock t with
  | Ok (hh, _, _, ms) => (0 <=? hh) && (hh <? 100) && (0 <=? ms)
  | Raise _ => false
  end.

(** The text starts, and ends, with a character that is not white space. *)
Definition head_ok (t : string) : bool :=
  match t with
  | String c _ => negb (Str.is_space c)
  | EmptyString => false
  end.

Fixpoint last_ok (t : string) : bool :=
  match t with
  | EmptyString => false
  | String c EmptyString => negb (Str.is_space c)
  | String _ t' => last_ok t'
  end.

(** A text that the writers put on one line and the parser reads back
    unchanged: not empty, no white space at either end, no line break. *)
Definition clean_text (t : string) : bool :=
  head_ok t && last_ok t && Str.forallb (is_not newline) t.

(** What follows a cue body in the written text, what the body group then
    captures, and where the match ends: at the end of the text after the
    last cue, or before the blank line that separates two cues. *)
Inductive body_end (x : string) : string -> string -> string -> Prop :=
| body_last : body_end x nl (x +:+ nl) EmptyString
| body_more more :
    body_end x (nl +:+ nl +:+ more) x (nl +:+ nl +:+ more).

(** The groups of a match of one block. *)
Definition block_caps (ts1 ts2 g3 : string) : captures :=
  <[3%nat := g3]> (<[2%nat := ts2]> (<[1%nat := ts1]> ∅)).

(** A cue with no speaker and a clean text without carriage return, which
    would be read as a line break. With times rendered with non-negative
    fields below 100 hours, it reads back as written. *)
Definition plain_cue (it : Cue) : bool :=
  match speaker it with
  | None | Some EmptyString => true
  | Some (String _ _) => false
  end
  && match text it with
     | Some x => clean_text x && Str.forallb (is_not cr) x
     | None => false
     end.

(** The cue at position [i] reads back as written. *)
Definition cue_ok (items : list Cue) (i : nat) (it : Cue) : bool :=
  plain_cue it
  && clock_ok (cue_times items i it).1
  && clock_ok (cue_times items i it).2.

(** ["\n".join] over the lines of one block and what follows. *)
Definition after_block (l : list string) : string :=
  match l with
  | [] => EmptyString
  | _ :: _ => nl +:+ String.concat nl l
  end.

(** The text values of parsed cues. *)
Definition texts (cues : list Cue) : list (option string) := text <$> cues.

(** The lines of the remaining cues start with a digit. *)
Definition starts_with_digit (s : string) : Prop :=
  exists c s', s = String c s' /\ Str.is_digit c = true.

(** A cue with a speaker. *)
Definition spoken_cue : list Cue :=
  [ mkCue (Some "hi") (Some 0%float) (Some 2%float) (Some "Bob") None ].

(** A cue whose text has a carriage return. *)
Definition returned_cue : list Cue :=
  [ mkCue (Some ("a" +:+ String cr "b")) (Some 0%float) (Some 2%float)
      None None ].

(** A cue with an empty text before another cue. *)
Definition empty_then_text : list Cue :=
  [ mkCue (Some "") (Some 0%float) (Some 2%float) None None;
    mkCue (Some "b") (Some 2%float) (Some 2%float) None None ].

(** ** Notions for the JSON round trip *)

(** A character that can go on a number: a digit, the dot, the letter of
    the exponent or a sign. *)
Definition number_char (c : ascii) : bool :=
  Str.is_digit c || Ascii.eqb c "." || Ascii.eqb c "e" || Ascii.eqb c "E"
  || Ascii.eqb c "+" || Ascii.eqb c "-".

(** What the reader takes for a number: a JSON number or one of the three
    names [floatstr] writes for the floats that are not finite. *)
Definition json_token (s : string) : bool :=
  Json.number_literal s || String.eqb s "NaN" || String.eqb s "Infinity"
  || String.eqb s "-Infinity".

Section Rendered.
Context {libs : Libs}.

(** The value read back for an optional string and for an optional
    float. *)
Definition str_value (o : option string) : Json.value :=
  match o with
  | Some s => Json.JStr s
  | None => Json.JNull
  end.

Definition num_value (o : option float) : Json.value :=
  match o with
  | Some f => Json.JNum (Json.floatstr float_repr f)
  | None => Json.JNull
  end.

(** The object read back for a cue. *)
Definition cue_value (it : Cue) : Json.value :=
  Json.JObj
    (<["confidence" := num_value (confidence it)]>
       (<["speaker" := str_value (speaker it)]>
          (<["duration" := num_value (duration it)]>
             (<["start" := num_value (start it)]>
                (<["text" := str_value (text it)]> ∅))))).

(** The object written for a cue. *)
Definition object_of (it : Cue) : string :=
  Json.encode_dict 1 (Json.cue_members float_repr it).

End Rendered.

(** The line [write_txt] writes for one cue, without its line break. *)
Definition txt_line (it : Cue) : string :=
  match speaker it with
  | Some (String c sp) => "[" +:+ String c sp +:+ "] " +:+ text_or_empty it
  | _ => text_or_empty it
  end.

(** A cue whose start no timestamp can render. *)
Definition endless_cue : Cue :=
  mkCue (Some "a") (Some infinity) None None None.

(** A cue at second 1. *)
Definition second_cue : Cue :=
  mkCue (Some "b") (Some 1%float) None None None.

(** A file system with one file. *)
Definition one_file : files := {[ "keep.txt" := "kept" ]}.

(** ** Retrieval: the control flow of [download_transcript]

    The retrieval library and [yt-dlp] are outside the repository. What
    [download_transcript] does with their outcomes is modelled as a function
    of them: [raw] is the outcome of the library call ([Raise e] when the
    import or the call raises; only [str(e)] is observed), and [fallback] is
    the outcome of [yt_dlp_subtitle_fallback], consulted only when the
    library gave no item. *)

(** [str(e)] of an exception raised with one message. *)
Definition exn_str (e : exn) : string :=
  match e with
  | ValueError msg | RuntimeError msg | OverflowError msg => msg
  end.

(** The dictionary the last loop of [download_transcript] builds for one
    item. *)
Definition rebuild (it : pyval) : item_dict :=
  match it with
  | PDict m =>
      <["confidence" := dict_get m "confidence"]>
        (<["speaker" := dict_get m "speaker"]>
           (<["duration" := dict_get m "duration"]>
              (<["start" := dict_get m "start"]>
                 (<["text" := dict_get m "text"]> ∅))))
  | _ =>
      <["confidence" := getattr_default it "confidence"]>
        (<["speaker" := getattr_default it "speaker"]>
           (<["duration" := getattr_default it "duration"]>
              (<["start" := getattr_default it "start"]>
                 (<["text" := getattr_default it "text"]> ∅))))
  end.

Definition download_transcript (raw : res pyval)
    (fallback : res (option (list pyval))) : res (list item_dict) :=
  let '(items, fetch_error) :=
    match raw with
    | Ok r =>
        match normalize_transcript_obj r with
        | Ok cues => (Some (PDict <$> cues), None)
        | Raise e => (None, Some e)
        end
    | Raise e => (None, Some e)
    end in
  items ← match items with
          | Some (it :: its) => Ok (Some (it :: its))
          | _ => fallback
          end;
  match items with
  | Some (it :: its) => Ok (rebuild <$> (it :: its))
  | _ =>
      Raise (RuntimeError
               ("Failed to retrieve transcript. Last error: "
                +:+ match fetch_error with
                    | Some e => exn_str e
                    | None => "None"
                    end))
  end.

(** The loop of [main] over the downloaded items: five [setdefault]
    calls on each. *)
Definition ensure_keys (it : item_dict) : item_dict :=
  let it := setdefault "text" PNone it in
  let it := setdefault "start" PNone it in
  let it := setdefault "duration" PNone it in
  let it := setdefault "speaker" PNone it in
  setdefault "confidence" PNone it.

(** The cue with five null fields. *)
Definition null_cue : item_dict := five PNone PNone PNone PNone PNone.

(** ** The last resort of the subtitle parser: splitting on blank lines *)

(** [re.split(r, s)] for a pattern without groups that matches no empty
    string: the pieces between the leftmost matches. [skip] counts the
    characters still covered by the last match. *)
Fixpoint re_split (r : regex) (s : string) (skip : nat) : list string :=
  match skip with
  | S skip' =>
      match s with
      | String _ s' => re_split r s' skip'
      | EmptyString => [EmptyString]
      end
  | O =>
      match s with
      | EmptyString => [EmptyString]
      | String c s' =>
          match Re.match_here r s with
          | Some (S len, _) => EmptyString :: re_split r s' len
          | _ =>
              match re_split r s' O with
              | p :: ps => String c p :: ps
              | [] => [String c EmptyString]
              end
          end
      end
  end.

(** [re.sub(r, repl, s)] for a pattern that matches no empty string and a
    replacement without group references. *)
Fixpoint re_sub (r : regex) (repl : string) (s : string) (skip : nat) : string :=
  match skip with
  | S skip' =>
      match s with
      | String _ s' => re_sub r repl s' skip'
      | EmptyString => EmptyString
      end
  | O =>
      match s with
      | EmptyString => EmptyString
      | String c s' =>
          match Re.match_here r s with
          | Some (S len, _) => repl +:+ re_sub r repl s' len
          | _ => String c (re_sub r repl s' O)
          end
      end
  end.

(** [\n{2,}] *)
Definition blank_re : regex := Greedy (Ascii.eqb newline) 2.

(** [\d+\n] *)
Definition index_re : regex := (Greedy Str.is_digit 1 · Chr newline)%re.

(** [[p.strip() for p in re.split(r"\n{2,}", data) if p.strip()]] *)
Definition blank_line_parts (data : string) : list string :=
  omap (fun p =>
          match Str.strip Str.is_space p with
          | EmptyString => None
          | String c q => Some (String c q)
          end)
       (re_split blank_re data O).

(** The body of the last loop: the cue appended for one part, if any. *)
Definition part_cue (p : string) : option Cue :=
  let p_clean := re_sub index_re EmptyString p O in
  let p_clean := Str.strip Str.is_space (Str.replace newline " " p_clean) in
  match p_clean with
  | EmptyString => None
  | String c q => Some (mkCue (Some (String c q)) None None None None)
  end.

Definition blank_line_cues (data : string) : list Cue :=
  omap part_cue (blank_line_parts data).

(** [yt_dlp_subtitle_fallback] from the point where the subtitle file has
    been read into [data]: the VTT cues, else the SRT cues, else the cues
    of the parts between blank lines, else [None]. *)
Definition parse_subtitles (data : string) : option (list Cue) :=
  match timed_cues data with
  | Some cues => Some cues
  | None =>
      match blank_line_cues data with
      | c :: cues => Some (c :: cues)
      | [] => None
      end
  end.

(** A cue with a start and a duration, and a cue with neither. *)
Definition timed (c : Cue) : Prop := is_Some (start c) /\ is_Some (duration c).
Definition untimed (c : Cue) : Prop := start c = None /\ duration c = None.

(** A text on one line, without white space at either end. *)
Definition trimmed_line (t : string) : Prop :=
  Str.forallb (is_not newline) t = true /\ Str.strip Str.is_space t = t.

(** ** Characters of a URL *)

(** A character that passes through the query of a URL and through
    [parse_qs] unchanged, and is no colon. *)
Definition query_plain (c : ascii) : bool :=
  url_plain c && is_not ":" c && is_not "&" c && is_not "+" c && is_not "%" c.

(** ** File names: [safe_filename], [apply_output_template] and the name
    [process_row] gives to a file ([flask_transcript_api.py]) *)

(** The class [[^A-Za-z0-9._\-\s]]. *)
Definition is_illegal (c : ascii) : bool :=
  negb (Str.is_alpha c || Str.is_digit c || Ascii.eqb c "." || Ascii.eqb c "_"
        || Ascii.eqb c "-" || Str.is_space c).

(** [name] is a string here, on which [name or ""] is [name]. *)
Definition safe_filename (name : string) : string :=
  let name := Str.strip Str.is_space name in
  let name := Str.replace backslash "_" (Str.replace "/" "_" name) in
  let name := re_sub (Class is_illegal) "_" name O in
  String.substring 0 200 name.

(** [s.endswith(suffix)]: [suffix] is [s] or ends the tail of [s]. *)
Fixpoint endswith (suffix s : string) : bool :=
  String.eqb s suffix
  || match s with
     | String _ s' => endswith suffix s'
     | EmptyString => false
     end.

(** [s.startswith(prefix)] *)
Fixpoint startswith (prefix s : string) : bool :=
  match prefix, s with
  | EmptyString, _ => true
  | String a p, String b s' => Ascii.eqb a b && startswith p s'
  | String _ _, EmptyString => false
  end.

(** [s.replace(old, new)] for a non-empty [old]: the occurrences found
    from the left, not overlapping. [skip] counts the characters still
    covered by the last occurrence. *)
Fixpoint str_replace (old new s : string) (skip : nat) : string :=
  match skip with
  | S skip' =>
      match s with
      | String _ s' => str_replace old new s' skip'
      | EmptyString => EmptyString
      end
  | O =>
      match s with
      | EmptyString => EmptyString
      | String c s' =>
          if startswith old s
          then new +:+ str_replace old new s' (pred (String.length old))
          else String c (str_replace old new s' O)
      end
  end.

(** [str(n)] for an integer. *)
Definition str_int (n : Z) : string :=
  if n <? 0 then "-" +:+ digits_of (- n) else digits_of n.

(** [if not name.lower().endswith("." + fmt): name = name + "." + fmt] *)
Definition with_extension (fmt name : string) : string :=
  if negb (endswith ("." +:+ fmt) (lower name)) then name +:+ "." +:+ fmt
  else name.

Definition apply_output_template (template : option string) (index : Z)
    (video_id title fmt : string) : string :=
  let safe_title :=
    match title with
    | String _ _ => safe_filename title
    | EmptyString => EmptyString
    end in
  match template with
  | Some (String c t) =>
      let name := str_replace "{index}" (str_int index) (String c t) O in
      let name := str_replace "{video_id}" video_id name O in
      let name := str_replace "{title}" safe_title name O in
      let name := str_replace "{ext}" fmt name O in
      safe_filename (with_extension fmt name)
  | _ => video_id +:+ "_transcript." +:+ fmt
  end.

(** The file name [process_row] and the single-transcript route compute
    for a row: the sanitized custom name when one is given, else the
    default name, with the format as extension. [fmt] is the format name
    after lower-casing and validation. *)
Definition row_filename (vid fmt : string) (outputfile : option string) : string :=
  let fname :=
    match outputfile with
    | Some (String c o) => safe_filename (String c o)
    | _ => vid +:+ "_transcript." +:+ fmt
    end in
  with_extension fmt fname.

(** The string with [f] applied to each character. *)
Fixpoint map_chars (f : ascii -> ascii) (s : string) : string :=
  match s with
  | EmptyString => EmptyString
  | String c s' => String (f c) (map_chars f s')
  end.

(** What [safe_filename] makes of one character. *)
Definition safe_char (c : ascii) : ascii := if is_illegal c then "_" else c.

(** A character allowed in a file name. *)
Definition legal (c : ascii) : bool := negb (is_illegal c).

(** A character of a lower-case extension: the dot or a lower-case
    letter. *)
Definition ext_char (c : ascii) : bool := Ascii.eqb c "." || Str.is_lower c.

(** ** Playlists and channels ([flask_transcript_api.py]) *)

(** One entry of the playlist listing that [yt-dlp] returns: the values of
    its keys [id], [title] and [fulltitle]. *)
Record Entry : Type := mkEntry {
  entry_id : option string;
  entry_title : option string;
  entry_fulltitle : option string
}.

(** One video of [extract_playlist_videos]: the dictionary with the keys
    [id], [title] and [url]. *)
Record Video : Type := mkVideo {
  v_id : string;
  v_title : string;
  v_url : string
}.

(** [a or b] on optional strings. *)
Definition str_or (a : option string) (b : string) : string :=
  match a with
  | Some (String c s) => String c s
  | _ => b
  end.

(** The body of the loop of [extract_playlist_videos] (the branch that
    uses the [yt_dlp] module): entries without an id are dropped. *)
Definition playlist_video (e : Entry) : option Video :=
  let title := str_or (entry_title e) (str_or (entry_fulltitle e) EmptyString) in
  match entry_id e with
  | Some (String c vid) =>
      Some (mkVideo (String c vid) title
              ("https://www.youtube.com/watch?v=" +:+ String c vid))
  | _ => None
  end.

Definition playlist_videos (entries : list Entry) : list Video :=
  omap playlist_video entries.

Definition channel_uploads_playlist_url (channel_id : string) : res string :=
  if negb (startswith "UC" channel_id) || (String.length channel_id <=? 2)%nat
  then Raise (ValueError "Invalid channel id (expected string starting with 'UC').")
  else
    let uploads_id :=
      "UU" +:+ String.substring 2 (String.length channel_id - 2) channel_id in
    Ok ("https://www.youtube.com/playlist?list=" +:+ uploads_id).

(** ** Whole seconds *)

(** The clock of the whole second [n] is [n] split into hours, minutes and
    seconds with no milliseconds, and its rendering converts back to
    [n]. *)
Definition reads_back (n : Z) : bool :=
  match clock (PyNum.of_Z n) with
  | Ok (hh, mm, ss, ms) =>
      (hh =? n / 3600) && (mm =? (n mod 3600) / 60) && (ss =? n mod 60)
      && (ms =? 0)
      && match to_secs (render "." (hh, mm, ss, ms)) with
         | Ok a => PrimFloat.eqb a (PyNum.of_Z n)
         | Raise _ => false
         end
  | Raise _ => false
  end.

(** [f] holds on [lo], [lo + 1], ..., [lo + k - 1]. *)
Fixpoint all_from (f : Z -> bool) (lo : Z) (k : nat) : bool :=
  match k with
  | O => true
  | S k' => f lo && all_from f (lo + 1) k'
  end.

(** The rendering of a whole second. *)
Definition whole_second (sep : string) (n : Z) : string :=
  fmt_d 2 (n / 3600) +:+ ":" +:+ fmt_d 2 ((n mod 3600) / 60) +:+ ":"
  +:+ fmt_d 2 (n mod 60) +:+ sep +:+ "000".

(* ================================================================== *)
(** * Properties *)
(* ================================================================== *)

(** ** Basic facts on strings *)

Lemma append_nil_r (s : string) : s +:+ "" = s.
Proof. induction s as [|c s IH]; simpl; [reflexivity | now rewrite IH]. Qed.

Lemma append_assoc (a b c : string) : (a +:+ b) +:+ c = a +:+ (b +:+ c).
Proof. induction a as [|x a IH]; simpl; [reflexivity | now rewrite IH]. Qed.

Lemma length_append (a b : string) :
  String.length (a +:+ b) = (String.length a + String.length b)%nat.
Proof. induction a as [|x a IH]; simpl; [reflexivity | now rewrite IH]. Qed.

Lemma forallb_append p (a b : string) :
  Str.forallb p (a +:+ b) = Str.forallb p a && Str.forallb p b.
Proof.
  induction a as [|x a IH]; simpl; [reflexivity |].
  rewrite IH. now rewrite andb_assoc.
Qed.

(** ** Timestamps: both functions render the same clock fields *)

Lemma srt_timestamp_clock secs :
  secs_to_srt_timestamp secs = (f ← clock secs; Ok (render "," f)).
Proof.
  unfold secs_to_srt_timestamp, clock.
  destruct (Timedelta.of_seconds secs) as [td|e]; [|reflexivity]. simpl.
  destruct (PyNum.int_of_float (Timedelta.total_seconds td)) as [t|e];
    [|reflexivity]. simpl.
  destruct (PyNum.int_of_float _) as [ms|e]; reflexivity.
Qed.

Lemma vtt_timestamp_clock secs :
  secs_to_vtt_timestamp secs = (f ← clock secs; Ok (render "." f)).
Proof.
  unfold secs_to_vtt_timestamp, clock.
  destruct (Timedelta.of_seconds secs) as [td|e]; [|reflexivity]. simpl.
  destruct (PyNum.int_of_float (Timedelta.total_seconds td)) as [t|e];
    [|reflexivity]. simpl.
  destruct (PyNum.int_of_float _) as [ms|e]; reflexivity.
Qed.

(** ** Decimal fields *)

Lemma uint_digits (d : Decimal.uint) :
  Str.forallb Str.is_digit (NilEmpty.string_of_uint d) = true.
Proof. induction d; simpl; auto. Qed.

Lemma digits_of_digits (z : Z) : Str.forallb Str.is_digit (digits_of z) = true.
Proof.
  unfold digits_of, NilZero.string_of_uint.
  destruct (N.to_uint (Z.to_N z)) eqn:E; try reflexivity;
    rewrite <- E; apply uint_digits.
Qed.

Lemma digits_of_nonempty (z : Z) : digits_of z <> EmptyString.
Proof.
  unfold digits_of, NilZero.string_of_uint.
  destruct (N.to_uint (Z.to_N z)); simpl; discriminate.
Qed.

Lemma zeros_digits (k : nat) : Str.forallb Str.is_digit (zeros k) = true.
Proof. induction k; simpl; auto. Qed.

Lemma length_zeros (k : nat) : String.length (zeros k) = k.
Proof. induction k; simpl; auto. Qed.

Lemma fmt_d_digits (w : nat) (z : Z) :
  0 <= z -> Str.forallb Str.is_digit (fmt_d w z) = true.
Proof.
  intros Hz. unfold fmt_d.
  destruct (z <? 0) eqn:E; [apply Z.ltb_lt in E; lia|].
  rewrite forallb_append, zeros_digits, digits_of_digits. reflexivity.
Qed.

Lemma fmt_d_length (w : nat) (z : Z) :
  0 <= z -> (w <= String.length (fmt_d w z))%nat.
Proof.
  intros Hz. unfold fmt_d.
  destruct (z <? 0) eqn:E; [apply Z.ltb_lt in E; lia|].
  rewrite length_append, length_zeros. lia.
Qed.

Lemma fmt_d_nonempty (w : nat) (z : Z) : fmt_d w z <> EmptyString.
Proof.
  unfold fmt_d. destruct (z <? 0); [discriminate|].
  destruct (zeros _); [|discriminate]. simpl. apply digits_of_nonempty.
Qed.

Lemma fmt_d2_table :
  forallb (fun n => two_digits (fmt_d 2 (Z.of_nat n))) (seq 0 100) = true.
Proof. vm_compute. reflexivity. Qed.

Lemma fmt_d2_small (z : Z) : 0 <= z < 100 -> two_digits (fmt_d 2 z) = true.
Proof.
  intros Hz. pose proof fmt_d2_table as T.
  rewrite forallb_forall in T. specialize (T (Z.to_nat z)).
  rewrite Z2Nat.id in T by lia. apply T. apply in_seq. lia.
Qed.

(** ** C6: timestamp formatting *)

(** C6, as amended. For every seconds value that [timedelta] accepts,
    [secs_to_srt_timestamp] and [secs_to_vtt_timestamp] render the same four
    fields and differ only in the separator before the milliseconds (comma,
    period). With [T] the whole seconds of the timedelta's total, the fields
    are [T // 3600], [(T % 3600) // 60], [T % 60] and the milliseconds
    [int((total - T) * 1000)], cut toward zero and not rounded. For a
    non-negative [T] the minutes and seconds are exactly two digits, the
    hours at least two, and non-negative milliseconds at least three.
    On 3725.4 the results are 01:02:05,400 and 01:02:05.400. *)
Theorem timestamp_fields_truncated :
  (forall secs td T ms,
      Timedelta.of_seconds secs = Ok td ->
      PyNum.int_of_float (Timedelta.total_seconds td) = Ok T ->
      PyNum.int_of_float
        ((Timedelta.total_seconds td - PyNum.of_Z T) * 1000)%float = Ok ms ->
      let hh := T / 3600 in
      let mm := (T mod 3600) / 60 in
      let ss := T mod 60 in
      secs_to_srt_timestamp secs =
        Ok (fmt_d 2 hh +:+ ":" +:+ fmt_d 2 mm +:+ ":" +:+ fmt_d 2 ss +:+ "," +:+ fmt_d 3 ms)
      /\ secs_to_vtt_timestamp secs =
        Ok (fmt_d 2 hh +:+ ":" +:+ fmt_d 2 mm +:+ ":" +:+ fmt_d 2 ss +:+ "." +:+ fmt_d 3 ms)
      /\ (0 <= T ->
          T = hh * 3600 + mm * 60 + ss
          /\ two_digits (fmt_d 2 mm) = true
          /\ two_digits (fmt_d 2 ss) = true
          /\ Str.forallb Str.is_digit (fmt_d 2 hh) = true
          /\ (2 <= String.length (fmt_d 2 hh))%nat)
      /\ (0 <= ms ->
          Str.forallb Str.is_digit (fmt_d 3 ms) = true
          /\ (3 <= String.length (fmt_d 3 ms))%nat))
  /\ (f ← py_float "3725.4"; secs_to_srt_timestamp f) = Ok "01:02:05,400"
  /\ (f ← py_float "3725.4"; secs_to_vtt_timestamp f) = Ok "01:02:05.400".
Proof.
  split; [|split; vm_compute; reflexivity].
  intros secs td T ms Htd HT Hms hh mm ss.
  split; [|split; [|split]].
  - unfold secs_to_srt_timestamp. rewrite Htd. simpl. rewrite HT. simpl.
    rewrite Hms. reflexivity.
  - unfold secs_to_vtt_timestamp. rewrite Htd. simpl. rewrite HT. simpl.
    rewrite Hms. reflexivity.
  - intros H0.
    assert (0 <= mm < 60).
    { subst mm. split.
      - apply Z.div_pos; [apply Z.mod_pos_bound|]; lia.
      - apply Z.div_lt_upper_bound; [lia|].
        pose proof (Z.mod_pos_bound T 3600). lia. }
    assert (0 <= ss < 60) by (subst ss; apply Z.mod_pos_bound; lia).
    assert (0 <= hh) by (subst hh; apply Z.div_pos; lia).
    split; [|split; [|split; [|split]]].
    + subst hh mm ss.
      pose proof (Z.div_mod T 3600).
      pose proof (Z.div_mod (T mod 3600) 60).
      assert ((T mod 3600) mod 60 = T mod 60).
      { apply Z.mod_mod_divide. exists 60. reflexivity. }
      lia.
    + apply fmt_d2_small. lia.
    + apply fmt_d2_small. lia.
    + apply fmt_d_digits. lia.
    + apply fmt_d_length. lia.
  - intros H0. split; [apply fmt_d_digits | apply fmt_d_length]; lia.
Qed.

(** C6, witness: the hypotheses hold at [float("3725.4")]. *)
Lemma timestamp_fields_truncated_witness :
  secs_to_srt_timestamp (PyNum.truediv 37254 10) = Ok "01:02:05,400"
  /\ secs_to_vtt_timestamp (PyNum.truediv 37254 10) = Ok "01:02:05.400".
Proof.
  destruct timestamp_fields_truncated as [H _].
  destruct (H (PyNum.truediv 37254 10) 3725400000 3725 400) as (Hs & Hv & _).
  - vm_compute. reflexivity.
  - vm_compute. reflexivity.
  - vm_compute. reflexivity.
  - split; [rewrite Hs | rewrite Hv]; vm_compute; reflexivity.
Defined.

(** C6, counterexample. The claim takes the milliseconds to be
    [round((seconds - floor(seconds)) * 1000)]. At seconds = 0.015625 (1/64,
    exact in binary64) that rule gives 16 milliseconds, and the code, which
    cuts with [int], renders 15. *)
Lemma timestamp_round_counterexample :
  Spec.timestamp "," 0.015625%float = Ok "00:00:00,016"
  /\ secs_to_srt_timestamp 0.015625%float = Ok "00:00:00,015"
  /\ Spec.timestamp "." 0.015625%float = Ok "00:00:00.016"
  /\ secs_to_vtt_timestamp 0.015625%float = Ok "00:00:00.015".
Proof. repeat split; vm_compute; reflexivity. Qed.

(** ** C1 and C2: end-time inference and the synthetic timeline *)

(** C1. With a known start, [compute_end] returns start + duration when the
    duration is known, else the next cue's start when that is known, else
    null. On the two-cue example the SRT and VTT writers render the end at
    2.0 for the first cue and at 4.0 for the second, whose null end falls
    back to its start plus the default duration 2.0. *)
Theorem compute_end_known_start :
  (forall s d n, compute_end (Some s) (Some d) n = Some (s + d)%float)
  /\ (forall s n, compute_end (Some s) None (Some n) = Some n)
  /\ (forall s, compute_end (Some s) None None = None)
  /\ imap (cue_times example_cues) example_cues = [(0, 2); (2, 4)]%float
  /\ srt_loop example_cues 0 example_cues =
       Ok ["1"; "00:00:00,000 --> 00:00:02,000"; "a"; "";
           "2"; "00:00:02,000 --> 00:00:04,000"; "b"; ""]
  /\ vtt_loop example_cues 0 example_cues =
       Ok ["00:00:00.000 --> 00:00:02.000"; "a"; "";
           "00:00:02.000 --> 00:00:04.000"; "b"; ""].
Proof.
  split; [reflexivity|]. split; [reflexivity|]. split; [reflexivity|].
  repeat split; vm_compute; reflexivity.
Qed.

(** C2, as amended. In the SRT and VTT writers a cue whose start is null
    receives the synthetic start [index * 2.0] (0-based index), and its end
    is that start plus its duration when the duration is known and not zero,
    else that start plus 2.0: the test [duration if duration else 2.0] is a
    truth test, so a zero duration is defaulted like a missing one. For
    three cues with null starts the rendered starts are 0.0, 2.0, 4.0. *)
Theorem synthetic_timeline :
  (forall items i it,
      start it = None ->
      let s := (PyNum.of_Z (Z.of_nat i) * 2)%float in
      cue_times items i it =
        (s, match duration it with
            | Some d => if PrimFloat.eqb d 0 then (s + 2)%float else (s + d)%float
            | None => (s + 2)%float
            end))
  /\ (forall a b c,
         start a = None -> start b = None -> start c = None ->
         (imap (cue_times [a; b; c]) [a; b; c]).*1 = [0; 2; 4]%float).
Proof.
  assert (G : forall items i it,
             start it = None ->
             let s := (PyNum.of_Z (Z.of_nat i) * 2)%float in
             cue_times items i it =
               (s, match duration it with
                   | Some d =>
                       if PrimFloat.eqb d 0 then (s + 2)%float else (s + d)%float
                   | None => (s + 2)%float
                   end)).
  { intros items i it Hs s. unfold cue_times. rewrite Hs.
    unfold compute_end, duration_or_default, PyNum.truthy.
    destruct (duration it) as [d|]; [|reflexivity].
    destruct (PrimFloat.eqb d 0); reflexivity. }
  split; [exact G|].
  intros a b c Ha Hb Hc. cbn [imap fmap list_fmap compose].
  rewrite (G _ 0%nat a Ha), (G _ 1%nat b Hb), (G _ 2%nat c Hc).
  vm_compute. reflexivity.
Qed.

(** C2, witness: a cue with a null start and a known duration at index 1. *)
Lemma synthetic_timeline_witness :
  let it := mkCue (Some "b") None (Some 3%float) None None in
  let items := [mkCue (Some "a") None None None None; it] in
  start it = None /\ cue_times items 1 it = (2, 5)%float.
Proof.
  intros it items. split; [reflexivity|].
  destruct synthetic_timeline as [H _].
  rewrite (H items 1%nat it); [vm_compute; reflexivity | reflexivity].
Defined.

(** C2, counterexample. The claim gives a null-start cue with a known
    duration the end [synthetic start + duration]. A cue whose duration is
    known to be 0.0 is rendered with the end [synthetic start + 2.0]. *)
Lemma synthetic_timeline_counterexample :
  let it := mkCue (Some "a") None (Some 0%float) None None in
  start it = None
  /\ duration it = Some 0%float
  /\ cue_times [it] 0 it = (0, 2)%float
  /\ (cue_times [it] 0 it).2 <> ((cue_times [it] 0 it).1 + 0)%float
  /\ vtt_loop [it] 0 [it] = Ok ["00:00:00.000 --> 00:00:02.000"; "a"; ""].
Proof.
  intros it. repeat split; try (vm_compute; reflexivity).
  intros E. apply (f_equal Prim2SF) in E. vm_compute in E. discriminate.
Qed.

(** ** The normalizer: C3, C4, C10 *)

(** Induction on a value through what its accessors can return. *)
Lemma pyval_accessor_ind (P : pyval -> Prop) :
  (forall v,
      (forall iter attrs n r,
          v = PObj iter attrs -> accessor_value attrs n = Some r -> P r) ->
      P v) ->
  forall v, P v.
Proof.
  intros step. fix IH 1. intros v. apply step.
  destruct v as [| | | | | | | |iter0 attrs0]; try discriminate.
  intros iter attrs n r E. injection E as <- <-.
  unfold accessor_value.
  pose proof
    (match attrs0 n as o
       return (match o with Some w => P w | None => True end)
     with
     | Some w => IH w
     | None => I
     end) as H1.
  pose proof
    (match attrs0 n as o
       return (match o with Some (PFun (Some w)) => P w | _ => True end)
     with
     | Some w =>
         match w as w0
           return (match w0 with PFun (Some w') => P w' | _ => True end)
         with
         | PFun (Some w') => IH w'
         | _ => I
         end
     | None => I
     end) as H2.
  clear IH.
  destruct (attrs0 n) as [[| | | | | | |[w|]|]|]; intros [= <-];
    first [exact H1 | exact H2].
Qed.

(** The accessor loop of an opaque object, on its own. *)
Lemma normalize_opaque_eq iter attrs :
  normalize_transcript_obj (PObj iter attrs) =
    match iter with
    | Some (x :: xs) => Ok (to_item_dict <$> (x :: xs))
    | _ => probe_accessors attrs accessor_names
    end.
Proof.
  cbn -[accessor_names].
  assert (E : forall names,
    (fix probe (names : list string) : res (list item_dict) :=
       match names with
       | [] => Raise NormalizationError
       | method_name :: rest =>
           match attrs method_name with
           | None => probe rest
           | Some (PFun None) => probe rest
           | Some (PFun (Some r)) =>
               match normalize_transcript_obj r with
               | Ok cues => Ok cues
               | Raise _ => probe rest
               end
           | Some r =>
               match normalize_transcript_obj r with
               | Ok cues => Ok cues
               | Raise _ => probe rest
               end
           end
       end) names = probe_accessors attrs names).
  { induction names as [|n names IH]; [reflexivity|].
    cbn [probe_accessors]. unfold accessor_value.
    destruct (attrs n) as [[| | | | | | |[r|]|]|];
      try rewrite IH; try reflexivity. }
  destruct iter as [[|x xs]|]; try reflexivity; apply E.
Qed.

(** Every successful result is the item-by-item image of some sequence. *)
Lemma normalize_shape obj cues :
  normalize_transcript_obj obj = Ok cues ->
  exists l, cues = to_item_dict <$> l.
Proof.
  revert cues. induction obj as [v IH] using pyval_accessor_ind.
  intros cues H. destruct v as [| s | z | f | d | l | l | call | iter attrs].
  - discriminate.
  - simpl in H. destruct (chars s) as [|x xs]; [discriminate|].
    injection H as <-. now exists (x :: xs).
  - discriminate.
  - discriminate.
  - simpl in H. destruct (PStr <$> _) as [|x xs]; [discriminate|].
    injection H as <-. now exists (x :: xs).
  - injection H as <-. now exists l.
  - injection H as <-. now exists l.
  - discriminate.
  - rewrite normalize_opaque_eq in H.
    assert (G : forall names,
               probe_accessors attrs names = Ok cues ->
               exists l, cues = to_item_dict <$> l).
    { induction names as [|n names IHn]; [discriminate|].
      cbn [probe_accessors].
      destruct (accessor_value attrs n) as [r|] eqn:E; [|exact IHn].
      destruct (normalize_transcript_obj r) as [c|e] eqn:N; [|exact IHn].
      intros [= <-]. exact (IH iter attrs n r eq_refl E c N). }
    destruct iter as [[|x xs]|]; eauto.
    injection H as <-. now exists (x :: xs).
Qed.

(** The five [setdefault] calls find every key already set. *)
Lemma five_setdefault t s d sp c :
  setdefault "confidence" PNone
    (setdefault "speaker" PNone
       (setdefault "duration" PNone
          (setdefault "start" PNone
             (setdefault "text" PNone (five t s d sp c)))))
  = five t s d sp c.
Proof. vm_compute. reflexivity. Qed.

Lemma to_item_dict_inserts it :
  to_item_dict it
  = five (item_field it "text") (item_field it "start")
      (item_field it "duration") (item_field it "speaker")
      (item_field it "confidence").
Proof. destruct it; apply five_setdefault. Qed.

Lemma five_dom t s d sp c : dom (five t s d sp c) = cue_keys.
Proof. vm_compute. reflexivity. Qed.

Lemma five_lookup t s d sp c :
  five t s d sp c !! "text" = Some t
  /\ five t s d sp c !! "start" = Some s
  /\ five t s d sp c !! "duration" = Some d
  /\ five t s d sp c !! "speaker" = Some sp
  /\ five t s d sp c !! "confidence" = Some c.
Proof. repeat split; vm_compute; reflexivity. Qed.

Lemma to_item_dict_dom it : dom (to_item_dict it) = cue_keys.
Proof. rewrite to_item_dict_inserts. apply five_dom. Qed.

Lemma to_item_dict_field it key :
  key ∈ cue_keys -> to_item_dict it !! key = Some (item_field it key).
Proof.
  unfold cue_keys. rewrite !elem_of_union, !elem_of_singleton.
  rewrite to_item_dict_inserts.
  intros [[[[-> | ->] | ->] | ->] | ->]; apply five_lookup.
Qed.

Lemma item_field_source it key : item_field it key = source_field it key.
Proof. now destruct it. Qed.

Lemma probe_split attrs names cues :
  probe_accessors attrs names = Ok cues ->
  exists pre name post r,
    names = pre ++ name :: post
    /\ Forall (accessor_fails attrs) pre
    /\ accessor_value attrs name = Some r
    /\ normalize_transcript_obj r = Ok cues.
Proof.
  induction names as [|n names IH]; [discriminate|].
  cbn [probe_accessors].
  destruct (accessor_value attrs n) as [r|] eqn:E.
  - destruct (normalize_transcript_obj r) as [c|e] eqn:N.
    + intros [= <-]. exists [], n, names, r. repeat split; auto.
    + intros H. destruct (IH H) as (pre & name & post & r' & -> & Hp & Hv & Hn).
      exists (n :: pre), name, post, r'. repeat split; auto.
      constructor; [|exact Hp]. unfold accessor_fails. rewrite E. now exists e.
  - intros H. destruct (IH H) as (pre & name & post & r' & -> & Hp & Hv & Hn).
    exists (n :: pre), name, post, r'. repeat split; auto.
    constructor; [|exact Hp]. unfold accessor_fails. now rewrite E.
Qed.

Lemma probe_first attrs pre name post r cues :
  Forall (accessor_fails attrs) pre ->
  accessor_value attrs name = Some r ->
  normalize_transcript_obj r = Ok cues ->
  probe_accessors attrs (pre ++ name :: post) = Ok cues.
Proof.
  intros Hpre Hv Hn. induction Hpre as [|n pre Hf _ IH]; simpl.
  - now rewrite Hv, Hn.
  - unfold accessor_fails in Hf.
    destruct (accessor_value attrs n) as [r'|]; [|exact IH].
    destruct Hf as [e ->]. exact IH.
Qed.

Lemma normalize_opaque obj :
  opaque obj ->
  normalize_transcript_obj obj = probe_accessors (attrs_of obj) accessor_names.
Proof.
  intros (HL & HT & HI). unfold Spec.nonempty_sequence in HI.
  destruct obj as [| s | z | f | d | l | l | call | iter attrs];
    try reflexivity.
  - simpl in *. now destruct (chars s).
  - simpl in *. now destruct (PStr <$> _).
  - now destruct (HL l).
  - now destruct (HT l).
  - rewrite normalize_opaque_eq. simpl in HI.
    now destruct iter as [[|x xs]|].
Qed.

Lemma normalize_iterable obj x xs :
  (forall l, obj <> PList l) -> (forall l, obj <> PTuple l) ->
  iterate obj = Some (x :: xs) ->
  normalize_transcript_obj obj = Ok (to_item_dict <$> (x :: xs)).
Proof.
  intros HL HT HI.
  destruct obj as [| s | z | f | d | l | l | call | iter attrs];
    try discriminate.
  - simpl in *. injection HI as HI. now rewrite HI.
  - simpl in *. injection HI as HI. now rewrite HI.
  - now destruct (HL l).
  - now destruct (HT l).
  - simpl in HI. subst iter. reflexivity.
Qed.

(** The cues are the images of the source items, and conversely. *)
Lemma normalize_source obj cues :
  normalize_transcript_obj obj = Ok cues ->
  exists l, source_items obj l /\ cues = to_item_dict <$> l.
Proof.
  revert cues. induction obj as [v IH] using pyval_accessor_ind.
  intros cues H.
  destruct (iterate v) as [[|x xs]|] eqn:I.
  - (* iteration yields nothing *)
    destruct v as [| s | z | f | d | l | l | call | iter attrs];
      try discriminate.
    + simpl in H, I. injection I as I. now rewrite I in H.
    + simpl in H, I. injection I as I. now rewrite I in H.
    + injection H as <-. exists l. split; [constructor | reflexivity].
    + injection H as <-. exists l. split; [constructor | reflexivity].
    + assert (O : opaque (PObj iter attrs)).
      { repeat split; try discriminate.
        unfold Spec.nonempty_sequence. now rewrite I. }
      rewrite (normalize_opaque _ O) in H. cbn [attrs_of] in H.
      destruct (probe_split _ _ _ H) as (pre & name & post & r & E & Hp & Hv & Hn).
      destruct (IH iter attrs name r eq_refl Hv cues Hn) as (l & Hl & ->).
      exists l. split; [|reflexivity].
      now apply (items_accessor _ pre name post r).
  - (* iteration yields items *)
    destruct v as [| s | z | f | d | l | l | call | iter attrs];
      try discriminate.
    + rewrite (normalize_iterable _ x xs) in H; try discriminate; auto.
      injection H as <-. exists (x :: xs). split; [|reflexivity].
      constructor; try discriminate; auto.
    + rewrite (normalize_iterable _ x xs) in H; try discriminate; auto.
      injection H as <-. exists (x :: xs). split; [|reflexivity].
      constructor; try discriminate; auto.
    + injection H as <-. exists l. split; [constructor | reflexivity].
    + injection H as <-. exists l. split; [constructor | reflexivity].
    + rewrite (normalize_iterable _ x xs) in H; try discriminate; auto.
      injection H as <-. exists (x :: xs). split; [|reflexivity].
      constructor; try discriminate; auto.
  - (* no iteration *)
    destruct v as [| s | z | f | d | l | l | call | iter attrs];
      try discriminate.
    assert (O : opaque (PObj iter attrs)).
    { repeat split; try discriminate.
      unfold Spec.nonempty_sequence. now rewrite I. }
    rewrite (normalize_opaque _ O) in H. cbn [attrs_of] in H.
    destruct (probe_split _ _ _ H) as (pre & name & post & r & E & Hp & Hv & Hn).
    destruct (IH iter attrs name r eq_refl Hv cues Hn) as (l & Hl & ->).
    exists l. split; [|reflexivity].
    now apply (items_accessor _ pre name post r).
Qed.

Lemma source_normalize obj l :
  source_items obj l -> normalize_transcript_obj obj = Ok (to_item_dict <$> l).
Proof.
  induction 1 as [l | l | obj x xs HL HT HI | obj pre name post r l O E Hp Hv _ IH].
  - reflexivity.
  - reflexivity.
  - now apply normalize_iterable.
  - rewrite (normalize_opaque _ O), E. now apply (probe_first _ pre name post r).
Qed.

(** C3. The cues [normalize_transcript_obj] returns are, in order, one cue
    for each source item: the result is [Ok cues] exactly when the input has
    source items (those of a list or tuple, of a non-empty iterable, or of
    the first accessor that is not passed over) and [cues] is the list of
    their images. The image of an item has exactly the five keys text,
    start, duration, speaker, confidence; under each key it holds the value
    of that key in a source dictionary, or the attribute of that name of a
    source object, and null when the item has no such key or attribute.
    Normalizing [[{"text":"hi","start":1.0}]] gives the one cue with text
    "hi", start 1.0 and null duration, speaker and confidence. *)
Theorem normalized_cues_have_five_keys :
  (forall obj cues,
      normalize_transcript_obj obj = Ok cues <->
      exists l, source_items obj l /\ cues = to_item_dict <$> l)
  /\ (forall obj cues l i d,
        normalize_transcript_obj obj = Ok cues -> source_items obj l ->
        cues !! i = Some d ->
        exists it,
          l !! i = Some it
          /\ dom d = cue_keys
          /\ forall key, key ∈ cue_keys -> d !! key = Some (source_field it key))
  /\ (forall it, dom (to_item_dict it) = cue_keys)
  /\ (forall it key, key ∈ cue_keys ->
        to_item_dict it !! key = Some (source_field it key))
  /\ normalize_transcript_obj
       (PList [PDict {[ "text" := PStr "hi"; "start" := PFloat 1 ]}])
     = Ok [ {[ "text" := PStr "hi"; "start" := PFloat 1; "duration" := PNone;
               "speaker" := PNone; "confidence" := PNone ]} ].
Proof.
  assert (F : forall it key, key ∈ cue_keys ->
                to_item_dict it !! key = Some (source_field it key)).
  { intros it key Hk. rewrite <- item_field_source.
    now apply to_item_dict_field. }
  split; [|split; [|split; [|split]]].
  - intros obj cues. split; [apply normalize_source|].
    intros (l & Hl & ->). now apply source_normalize.
  - intros obj cues l i d H Hl Hd.
    rewrite (source_normalize obj l Hl) in H. injection H as <-.
    rewrite list_lookup_fmap in Hd.
    destruct (l !! i) as [it|]; [|discriminate]. injection Hd as <-.
    exists it. split; [reflexivity|]. split; [apply to_item_dict_dom|].
    intros key Hk. now apply F.
  - apply to_item_dict_dom.
  - exact F.
  - vm_compute. reflexivity.
Qed.

(** C3, witness: the cue of the example comes from the one dictionary of
    the list and holds null under the key [duration], which the dictionary
    lacks. *)
Lemma normalized_cues_have_five_keys_witness :
  let d : item_dict :=
    {[ "text" := PStr "hi"; "start" := PFloat 1; "duration" := PNone;
       "speaker" := PNone; "confidence" := PNone ]} in
  exists it,
    [hi_dict] !! 0%nat = Some it
    /\ dom d = cue_keys
    /\ forall key, key ∈ cue_keys -> d !! key = Some (source_field it key).
Proof.
  intros d.
  destruct normalized_cues_have_five_keys as (_ & H & _ & _ & E).
  refine (H (PList [hi_dict]) [d] [hi_dict] 0%nat d E _ _).
  - constructor.
  - reflexivity.
Defined.

Lemma probe_raise attrs names e :
  probe_accessors attrs names = Raise e <->
  e = NormalizationError /\ Forall (accessor_fails attrs) names.
Proof.
  induction names as [|n names IH]; simpl.
  - split; [intros [= <-]; auto | intros [-> _]; reflexivity].
  - rewrite Forall_cons. unfold accessor_fails at 1.
    destruct (accessor_value attrs n) as [r|].
    + destruct (normalize_transcript_obj r) as [c|e'] eqn:N.
      * split; [discriminate|]. intros [_ [[e'' H] _]]. discriminate.
      * rewrite IH. split; [intros [-> H] | intros [-> [_ H]]]; eauto.
    + rewrite IH. split; [intros [-> H] | intros [-> [_ H]]]; eauto.
Qed.

(** C4, as amended. On an opaque object (neither list nor tuple, iteration
    failing or empty) the accessor names fetch, list, to_list, as_list,
    get_transcript are probed in that order, and the result is the
    normalization of the first accessor that is present, does not raise and
    whose value normalizes without error; accessors that are missing, that
    raise, or whose value cannot be normalized are passed over. An accessor
    that returns an empty list or tuple is not passed over: its
    normalization, the empty cue sequence, is the result. When every accessor
    is passed over the call fails with NormalizationError. *)
Theorem opaque_probes_accessors_in_order :
  accessor_names = ["fetch"; "list"; "to_list"; "as_list"; "get_transcript"]
  /\ (forall obj pre name post r cues,
        opaque obj ->
        accessor_names = pre ++ name :: post ->
        Forall (accessor_fails (attrs_of obj)) pre ->
        accessor_value (attrs_of obj) name = Some r ->
        normalize_transcript_obj r = Ok cues ->
        normalize_transcript_obj obj = Ok cues)
  /\ (forall obj pre name post r,
        opaque obj ->
        accessor_names = pre ++ name :: post ->
        Forall (accessor_fails (attrs_of obj)) pre ->
        accessor_value (attrs_of obj) name = Some r ->
        r = PList [] \/ r = PTuple [] ->
        normalize_transcript_obj obj = Ok [])
  /\ (forall obj,
        opaque obj ->
        Forall (accessor_fails (attrs_of obj)) accessor_names ->
        normalize_transcript_obj obj = Raise NormalizationError).
Proof.
  split; [reflexivity|].
  assert (G : forall obj pre name post r cues,
             opaque obj ->
             accessor_names = pre ++ name :: post ->
             Forall (accessor_fails (attrs_of obj)) pre ->
             accessor_value (attrs_of obj) name = Some r ->
             normalize_transcript_obj r = Ok cues ->
             normalize_transcript_obj obj = Ok cues).
  { intros obj pre name post r cues Ho Hn Hpre Hv Hr.
    rewrite (normalize_opaque obj Ho), Hn.
    now apply probe_first with (r := r). }
  split; [exact G|]. split.
  - intros obj pre name post r Ho Hn Hpre Hv Hr.
    apply (G obj pre name post r []); auto.
    now destruct Hr as [-> | ->].
  - intros obj Ho Hall. rewrite (normalize_opaque obj Ho).
    now apply probe_raise.
Qed.

(** C4, witness: [fetch()] raises, so the [list] attribute is used. *)
Lemma opaque_probes_accessors_in_order_witness :
  normalize_transcript_obj fetch_raises_list_full = Ok [to_item_dict hi_dict].
Proof.
  destruct opaque_probes_accessors_in_order as (_ & H & _).
  apply (H fetch_raises_list_full ["fetch"] "list"
           ["to_list"; "as_list"; "get_transcript"] (PList [hi_dict])).
  - repeat split; [discriminate | discriminate].
  - reflexivity.
  - constructor; [exact I | constructor].
  - reflexivity.
  - reflexivity.
Defined.

(** C4, counterexample. The claim passes over an accessor that yields an
    empty sequence and normalizes the first one that yields a non-empty
    sequence. Here [fetch()] returns the empty list and [list()] a one-item
    list: by the claim's rule the result is the cue of that item, and the
    code returns the empty sequence of [fetch()]. *)
Lemma empty_accessor_counterexample :
  opaque fetch_empty_list_full
  /\ accessor_value (attrs_of fetch_empty_list_full) "fetch" = Some (PList [])
  /\ Spec.nonempty_sequence (PList []) = false
  /\ accessor_value (attrs_of fetch_empty_list_full) "list" = Some (PList [hi_dict])
  /\ Spec.nonempty_sequence (PList [hi_dict]) = true
  /\ Spec.first_accessor (attrs_of fetch_empty_list_full) accessor_names
     = Ok [to_item_dict hi_dict]
  /\ normalize_transcript_obj fetch_empty_list_full = Ok []
  /\ normalize_transcript_obj fetch_empty_list_full
     <> Spec.first_accessor (attrs_of fetch_empty_list_full) accessor_names.
Proof.
  repeat split; try reflexivity; discriminate.
Qed.

(** C10. An empty list or tuple normalizes to the empty cue sequence; a
    list or tuple never fails, whatever its items. When the normalizer does
    fail, the error is NormalizationError, the input is neither a list nor a
    tuple, and every accessor was missing, raised, or returned something that
    could not be normalized. *)
Theorem sequences_never_fail :
  normalize_transcript_obj (PList []) = Ok []
  /\ normalize_transcript_obj (PTuple []) = Ok []
  /\ (forall l, normalize_transcript_obj (PList l) = Ok (to_item_dict <$> l))
  /\ (forall l, normalize_transcript_obj (PTuple l) = Ok (to_item_dict <$> l))
  /\ (forall obj e,
        normalize_transcript_obj obj = Raise e ->
        e = NormalizationError
        /\ opaque obj
        /\ Forall (accessor_fails (attrs_of obj)) accessor_names).
Proof.
  split; [reflexivity|]. split; [reflexivity|].
  split; [reflexivity|]. split; [reflexivity|].
  intros obj e H.
  assert (Ho : opaque obj).
  { unfold opaque, Spec.nonempty_sequence.
    destruct obj as [| s | z | f | d | l | l | call | iter attrs];
      repeat split; try discriminate; try reflexivity.
    - simpl in *. now destruct (chars s).
    - simpl in *. now destruct (PStr <$> _).
    - rewrite normalize_opaque_eq in H. simpl.
      now destruct iter as [[|x xs]|]. }
  rewrite (normalize_opaque obj Ho) in H.
  apply probe_raise in H as [-> H]. auto.
Qed.

(** C10, witness: [None] is not a sequence and has no accessor. *)
Lemma sequences_never_fail_witness :
  normalize_transcript_obj PNone = Raise NormalizationError
  /\ opaque PNone
  /\ Forall (accessor_fails (attrs_of PNone)) accessor_names.
Proof.
  split; [reflexivity|].
  destruct sequences_never_fail as (_ & _ & _ & _ & H).
  exact (proj2 (H PNone NormalizationError eq_refl)).
Defined.

(** ** C9: the dispatch on the format name *)

Lemma emit_ok content path fs fs' p :
  emit content path fs = (fs', Ok p) -> p = path /\ is_Some (fs' !! p).
Proof.
  unfold emit, write_file. destruct content as [c|e]; intros [= <- <-].
  split; [reflexivity|]. rewrite lookup_insert_eq. eauto.
Qed.

Lemma emit_raise content path fs fs' e :
  emit content path fs = (fs', Raise e) -> fs' = fs.
Proof. unfold emit. destruct content as [c|e']; now intros [= <-]. Qed.

(** C9, as amended. The format name is compared after lower-casing. When
    the lower-cased name is outside txt, json, srt, vtt, csv, docx, pdf,
    [save_output] fails with UnsupportedFormat and leaves the file system as
    it was; when it is one of the seven, [save_output] is the call of the
    corresponding writer on the output path, and a path it returns is that
    output path, which then exists. *)
Theorem save_output_dispatch :
  forall (libs : Libs) vid items fmt custom_path fs,
    let out_path := out_path_of vid fmt custom_path in
    let run := save_output vid items fmt custom_path fs in
    (lower fmt ∉ supported_formats ->
       run = (fs, Raise (UnsupportedFormat (lower fmt))))
    /\ (lower fmt = "txt" -> run = write_txt items out_path fs)
    /\ (lower fmt = "json" -> run = write_json items out_path fs)
    /\ (lower fmt = "srt" -> run = write_srt items out_path fs)
    /\ (lower fmt = "vtt" -> run = write_vtt items out_path fs)
    /\ (lower fmt = "csv" -> run = write_csv items out_path fs)
    /\ (lower fmt = "docx" -> run = write_docx items out_path fs)
    /\ (lower fmt = "pdf" -> run = write_pdf items out_path fs)
    /\ (forall fs' p, run = (fs', Ok p) ->
          lower fmt ∈ supported_formats /\ p = out_path /\ is_Some (fs' !! p)).
Proof.
  intros libs vid items fmt custom_path fs out_path run.
  subst run out_path. unfold save_output, out_path_of, supported_formats.
  set (o := match custom_path with
            | Some (String c p) => String c p
            | _ => vid +:+ "_transcript." +:+ fmt
            end).
  split.
  { intros Hn. rewrite !not_elem_of_cons in Hn.
    destruct Hn as (H1 & H2 & H3 & H4 & H5 & H6 & H7 & _).
    repeat match goal with
           | H : ?a <> ?b |- _ => apply String.eqb_neq in H; rewrite H; clear H
           end.
    reflexivity. }
  repeat (split; [intros ->; reflexivity|]).
  intros fs' p.
  repeat match goal with
         | |- context [String.eqb (lower fmt) ?s] =>
             destruct (String.eqb_spec (lower fmt) s) as [->|?]
         end.
  - intros [= <- <-]. split; [set_solver|]. split; [reflexivity|].
    unfold write_file. rewrite lookup_insert_eq. eauto.
  - intros [= <- <-]. split; [set_solver|]. split; [reflexivity|].
    unfold write_file. rewrite lookup_insert_eq. eauto.
  - intros H. split; [set_solver|]. now apply emit_ok in H.
  - intros H. split; [set_solver|]. now apply emit_ok in H.
  - unfold write_csv. destruct (csv_loop items []) as [rows [e|]];
      intros [= <- <-]. split; [set_solver|]. split; [reflexivity|].
    unfold write_file. rewrite lookup_insert_eq. eauto.
  - unfold write_docx. destruct docx_installed; [|discriminate].
    intros H. split; [set_solver|]. now apply emit_ok in H.
  - unfold write_pdf. destruct fpdf_installed; [|discriminate].
    intros H. split; [set_solver|]. now apply emit_ok in H.
  - discriminate.
Qed.

(** C9, witness: the name xml is unsupported and nothing is written. *)
Lemma save_output_dispatch_witness :
  save_output (libs := no_libs) "abc123" [] "xml" None ∅
  = (∅, Raise (UnsupportedFormat "xml")).
Proof.
  apply (save_output_dispatch no_libs "abc123" [] "xml" None ∅).
  cbn. unfold supported_formats. rewrite !not_elem_of_cons.
  repeat split; try discriminate. apply not_elem_of_nil.
Defined.

(** C9, counterexample. The claim makes every name outside the seven fail.
    The name TXT is none of the seven, and [save_output] lower-cases it,
    calls the text writer and leaves a file behind. *)
Lemma uppercase_format_counterexample :
  ("TXT" ∉ ["txt"; "json"; "srt"; "vtt"; "csv"; "docx"; "pdf"])
  /\ save_output (libs := no_libs) "abc123" [] "TXT" None ∅
     = ({[ "abc123_transcript.TXT" := "" ]}, Ok "abc123_transcript.TXT").
Proof.
  split.
  - rewrite !not_elem_of_cons. repeat split; try discriminate.
    apply not_elem_of_nil.
  - reflexivity.
Qed.

(** ** C8: extraction of the video id *)

(** *** Splitting and stripping *)

Lemma forallb_impl (p q : ascii -> bool) (s : string) :
  (forall c, p c = true -> q c = true) ->
  Str.forallb p s = true -> Str.forallb q s = true.
Proof.
  intros H. induction s as [|c s IH]; simpl; [reflexivity|].
  rewrite !andb_true_iff. intros [Hc Hs]. auto.
Qed.

Lemma split_first_none c s :
  Str.forallb (is_not c) s = true -> Str.split_first c s = None.
Proof.
  induction s as [|a s IH]; simpl; [reflexivity|].
  unfold is_not at 1. rewrite andb_true_iff, negb_true_iff.
  intros [-> Hs]. now rewrite IH.
Qed.

Lemma split_first_some c s l r :
  Str.split_first c s = Some (l, r) -> s = l +:+ String c r.
Proof.
  revert l. induction s as [|a s IH]; simpl; intros l; [discriminate|].
  destruct (Ascii.eqb_spec a c) as [->|Hne].
  - now intros [= <- <-].
  - destruct (Str.split_first c s) as [[l' r']|]; [|discriminate].
    intros [= <- <-]. simpl. now rewrite <- (IH l').
Qed.

Lemma split_first_app c x y :
  Str.split_first c (x +:+ y) =
    match Str.split_first c x with
    | Some (l, r) => Some (l, r +:+ y)
    | None =>
        match Str.split_first c y with
        | Some (l, r) => Some (x +:+ l, r)
        | None => None
        end
    end.
Proof.
  induction x as [|a x IH]; simpl.
  - now destruct (Str.split_first c y) as [[l r]|].
  - destruct (Ascii.eqb a c); [reflexivity|]. rewrite IH.
    destruct (Str.split_first c x) as [[l r]|]; [reflexivity|].
    now destruct (Str.split_first c y) as [[l r]|].
Qed.

Lemma split_first_at c x y :
  Str.forallb (is_not c) x = true ->
  Str.split_first c (x +:+ String c y) = Some (x, y).
Proof.
  intros Hx. rewrite split_first_app, (split_first_none c x Hx). simpl.
  rewrite Ascii.eqb_refl. now rewrite append_nil_r.
Qed.

Lemma split_nonempty c s : Str.split c s <> [].
Proof.
  destruct s as [|a s]; simpl; [discriminate|].
  destruct (Ascii.eqb a c); [discriminate|].
  destruct (Str.split c s); discriminate.
Qed.

Lemma split_single c s :
  Str.forallb (is_not c) s = true -> Str.split c s = [s].
Proof.
  induction s as [|a s IH]; simpl; [reflexivity|].
  unfold is_not at 1. rewrite andb_true_iff, negb_true_iff.
  intros [-> Hs]. now rewrite IH.
Qed.

Lemma split_app c x y :
  Str.split c (x +:+ String c y) = Str.split c x ++ Str.split c y.
Proof.
  induction x as [|a x IH]; simpl.
  - now rewrite Ascii.eqb_refl.
  - destruct (Ascii.eqb a c); rewrite IH; [reflexivity|].
    pose proof (split_nonempty c x).
    destruct (Str.split c x) as [|p ps]; [contradiction | reflexivity].
Qed.

Lemma lstrip_keep p s :
  match s with String c _ => p c = false | EmptyString => True end ->
  Str.lstrip p s = s.
Proof. destruct s as [|c s]; simpl; [reflexivity|]. now intros ->. Qed.

Lemma remove_none p s :
  Str.forallb (fun c => negb (p c)) s = true -> Str.remove p s = s.
Proof.
  induction s as [|a s IH]; simpl; [reflexivity|].
  rewrite andb_true_iff, negb_true_iff. intros [-> Hs]. now rewrite IH.
Qed.

Lemma replace_none a b s :
  Str.forallb (is_not a) s = true -> Str.replace a b s = s.
Proof.
  induction s as [|c s IH]; simpl; [reflexivity|].
  unfold is_not at 1. rewrite andb_true_iff, negb_true_iff.
  intros [-> Hs]. now rewrite IH.
Qed.

Lemma contains_none c s :
  Str.forallb (is_not c) s = true -> Str.contains c s = false.
Proof.
  induction s as [|a s IH]; simpl; [reflexivity|].
  unfold is_not at 1. rewrite andb_true_iff, negb_true_iff.
  intros [-> Hs]. now rewrite IH.
Qed.

Lemma rstrip_keep p s :
  Str.forallb (fun c => negb (p c)) s = true -> Str.rstrip p s = s.
Proof.
  induction s as [|a s IH]; simpl; [reflexivity|].
  rewrite andb_true_iff, negb_true_iff. intros [Ha Hs]. rewrite (IH Hs).
  destruct s; [now rewrite Ha | reflexivity].
Qed.

Lemma rstrip_app_keep p x y :
  y <> EmptyString -> Str.rstrip p y = y -> Str.rstrip p (x +:+ y) = x +:+ y.
Proof.
  intros Hy Hr. induction x as [|a x IH]; simpl; [exact Hr|].
  rewrite IH. destruct (x +:+ y) eqn:E; [|reflexivity].
  destruct x; simpl in E; [contradiction | discriminate].
Qed.

(** *** The candidate is the last non-empty path segment *)







(** *** URLs of the two shapes *)


Lemma plain_char_facts c :
  url_plain c = true ->
  negb (Url.is_c0_or_space c) = true /\ negb (Url.is_unsafe c) = true
  /\ is_not "?" c = true /\ is_not "#" c = true.
Proof. by_character c. Qed.



Lemma urlsplit_clean url :
  Str.forallb url_plain url = true
  \/ (exists b t, url = b +:+ String "?" t /\ Str.forallb url_plain b = true
                  /\ Str.forallb url_plain t = true) ->
  Str.remove Url.is_unsafe (Str.lstrip Url.is_c0_or_space url) = url.
Proof.
  intros H.
  assert (Hc : Str.forallb (fun c => negb (Url.is_c0_or_space c)) url = true
               /\ Str.forallb (fun c => negb (Url.is_unsafe c)) url = true).
  { destruct H as [H | (b & t & -> & Hb & Ht)].
    - split; revert H; apply forallb_impl; intros c Hc;
        now apply plain_char_facts in Hc.
    - rewrite !forallb_append. simpl.
      split; apply andb_true_iff; split;
        try (revert Hb; apply forallb_impl; intros c Hc;
             now apply plain_char_facts in Hc);
        try (revert Ht; apply forallb_impl; intros c Hc;
             now apply plain_char_facts in Hc). }
  destruct Hc as [H0 H1].
  rewrite lstrip_keep.
  - now apply remove_none.
  - destruct url as [|c u]; [exact I|]. simpl in H0.
    apply andb_true_iff in H0 as [H0 _]. now apply negb_true_iff in H0.
Qed.

Lemma split_scheme_tail base t :
  Str.forallb (is_not ":") t = true ->
  exists sch pre b1,
    Url.split_scheme (base +:+ t) = (sch, b1 +:+ t) /\ base = pre +:+ b1.
Proof.
  intros Ht. unfold Url.split_scheme.
  destruct base as [|c b].
  - exists EmptyString, EmptyString, EmptyString. split; [|reflexivity].
    simpl. rewrite (split_first_none ":" t Ht).
    destruct t as [|c t']; [reflexivity|]. now destruct (Str.is_alpha c).
  - change (String c b +:+ t) with (String c (b +:+ t)). cbv beta iota.
    destruct (Str.is_alpha c);
      [|exists EmptyString, EmptyString, (String c b); now split].
    change (String c (b +:+ t)) with (String c b +:+ t).
    rewrite split_first_app, (split_first_none ":" t Ht).
    destruct (Str.split_first ":" (String c b)) as [[l r]|] eqn:E;
      [|exists EmptyString, EmptyString, (String c b); now split].
    apply split_first_some in E.
    destruct (Str.forallb Url.is_scheme_char l);
      [|exists EmptyString, EmptyString, (String c b); now split].
    exists (lower l), (l +:+ String ":" EmptyString), r. split; [reflexivity|].
    now rewrite append_assoc.
Qed.

Lemma splitnetloc_tail b d t :
  Url.is_netloc_delim d = true ->
  exists n b',
    Url.splitnetloc (b +:+ String d t) = (n, b' +:+ String d t)
    /\ b = n +:+ b'.
Proof.
  intros Hd. induction b as [|c b (n & b' & IH & E)]; simpl.
  - rewrite Hd. now exists EmptyString, EmptyString.
  - destruct (Url.is_netloc_delim c).
    + now exists EmptyString, (String c b).
    + rewrite IH. exists (String c n), b'. split; [reflexivity|].
      simpl. now rewrite <- E.
Qed.

Lemma split_netloc_query b t :
  exists n pre b',
    Url.split_netloc (b +:+ String "?" t) = (n, b' +:+ String "?" t)
    /\ b = pre +:+ b'.
Proof.
  unfold Url.split_netloc.
  destruct b as [|a [|c b]].
  - exists EmptyString, EmptyString, EmptyString. split; [|reflexivity].
    simpl. now destruct t.
  - exists EmptyString, EmptyString, (String a EmptyString).
    split; [|reflexivity]. simpl. now rewrite andb_false_r.
  - change (String a (String c b) +:+ String "?" t)
      with (String a (String c (b +:+ String "?" t))).
    cbv beta iota.
    destruct (Ascii.eqb a "/" && Ascii.eqb c "/").
    + destruct (splitnetloc_tail b "?" t eq_refl) as (n & b' & -> & E).
      exists n, (String a (String c n)), b'. split; [reflexivity|].
      simpl. now rewrite <- E.
    + now exists EmptyString, EmptyString, (String a (String c b)).
Qed.

Lemma forallb_suffix p pre s :
  Str.forallb p (pre +:+ s) = true -> Str.forallb p s = true.
Proof. rewrite forallb_append, andb_true_iff. tauto. Qed.

Lemma plain_not_query s :
  Str.forallb url_plain s = true -> Str.forallb (is_not "?") s = true.
Proof. apply forallb_impl. intros c Hc. now apply plain_char_facts in Hc. Qed.

Lemma plain_not_fragment s :
  Str.forallb url_plain s = true -> Str.forallb (is_not "#") s = true.
Proof. apply forallb_impl. intros c Hc. now apply plain_char_facts in Hc. Qed.


Lemma urlparse_query url : query (parse_parts url) = query (url_parts url).
Proof.
  unfold parse_parts.
  destruct (bool_decide _ && _); [|reflexivity].
  now destruct (Url.splitparams _).
Qed.












(** *** What the parser keeps *)

Lemma lstrip_forallb q p s :
  Str.forallb q s = true -> Str.forallb q (Str.lstrip p s) = true.
Proof.
  induction s as [|c s IH]; [reflexivity|]. cbn [Str.lstrip].
  destruct (p c); [|auto]. cbn [Str.forallb]. rewrite andb_true_iff.
  intros [_ H]. auto.
Qed.

Lemma rstrip_forallb q p s :
  Str.forallb q s = true -> Str.forallb q (Str.rstrip p s) = true.
Proof.
  induction s as [|c s IH]; [reflexivity|]. cbn [Str.rstrip Str.forallb].
  rewrite andb_true_iff. intros [Hc Hs]. specialize (IH Hs).
  destruct (Str.rstrip p s).
  - destruct (p c); [reflexivity|]. simpl. now rewrite Hc.
  - cbn [Str.forallb] in *. now rewrite Hc, IH.
Qed.

Lemma strip_forallb q p s :
  Str.forallb q s = true -> Str.forallb q (Str.strip p s) = true.
Proof. intros H. now apply rstrip_forallb, lstrip_forallb. Qed.

Lemma remove_kept s : Str.forallb kept (Str.remove Url.is_unsafe s) = true.
Proof.
  induction s as [|c s IH]; [reflexivity|]. cbn [Str.remove].
  destruct (Url.is_unsafe c) eqn:E; [exact IH|].
  cbn [Str.forallb]. unfold kept at 1. now rewrite E, IH.
Qed.

Lemma forallb_prefix p pre s :
  Str.forallb p (pre +:+ s) = true -> Str.forallb p pre = true.
Proof. rewrite forallb_append, andb_true_iff. tauto. Qed.

Lemma forallb_tail p c s :
  Str.forallb p (String c s) = true -> Str.forallb p s = true.
Proof. cbn [Str.forallb]. rewrite andb_true_iff. tauto. Qed.

Lemma split_first_parts p c s l r :
  Str.forallb p s = true -> Str.split_first c s = Some (l, r) ->
  Str.forallb p l = true /\ Str.forallb p r = true.
Proof.
  intros Hs E. apply split_first_some in E. subst s. split.
  - now apply forallb_prefix in Hs.
  - now apply forallb_suffix, forallb_tail in Hs.
Qed.

Lemma split_scheme_rest p url :
  Str.forallb p url = true -> Str.forallb p (Url.split_scheme url).2 = true.
Proof.
  intros H. unfold Url.split_scheme. destruct url as [|c u]; [reflexivity|].
  destruct (Str.is_alpha c); [|exact H].
  destruct (Str.split_first ":" (String c u)) as [[s rest]|] eqn:E; [|exact H].
  destruct (Str.forallb Url.is_scheme_char s); [|exact H].
  exact (proj2 (split_first_parts _ _ _ _ _ H E)).
Qed.

Lemma splitnetloc_rest p s :
  Str.forallb p s = true -> Str.forallb p (Url.splitnetloc s).2 = true.
Proof.
  induction s as [|c s IH]; [reflexivity|]. cbn [Url.splitnetloc].
  destruct (Url.is_netloc_delim c); [trivial|].
  intros H. apply forallb_tail in H. specialize (IH H).
  now destruct (Url.splitnetloc s).
Qed.

Lemma split_netloc_rest p url :
  Str.forallb p url = true -> Str.forallb p (Url.split_netloc url).2 = true.
Proof.
  intros H. unfold Url.split_netloc. destruct url as [|a [|b rest]]; try exact H.
  destruct (Ascii.eqb a "/" && Ascii.eqb b "/"); [|exact H].
  apply splitnetloc_rest. now apply forallb_tail, forallb_tail in H.
Qed.

Lemma url_parts_path_kept url : Str.forallb kept (path (url_parts url)) = true.
Proof.
  unfold url_parts.
  pose proof (remove_kept (Str.lstrip Url.is_c0_or_space url)) as H.
  apply (split_scheme_rest kept) in H.
  destruct (Url.split_scheme _) as [sch r1]. cbn [snd] in H.
  apply (split_netloc_rest kept) in H.
  destruct (Url.split_netloc r1) as [n r2]. cbn [snd] in H.
  assert (H3 : Str.forallb kept
                 (match Str.split_first "#" r2 with
                  | Some (u, f) => (u, f)
                  | None => (r2, EmptyString)
                  end).1 = true).
  { destruct (Str.split_first "#" r2) as [[u f]|] eqn:E; [|exact H].
    exact (proj1 (split_first_parts _ _ _ _ _ H E)). }
  destruct (match Str.split_first "#" r2 with
            | Some (u, f) => (u, f)
            | None => (r2, EmptyString)
            end) as [r3 frag]. cbn [fst] in H3.
  destruct (Str.split_first "?" r3) as [[u q]|] eqn:E; cbn [path].
  - exact (proj1 (split_first_parts _ _ _ _ _ H3 E)).
  - exact H3.
Qed.

Lemma rsplit_slash_parts s :
  s = (Url.rsplit_slash s).1 +:+ (Url.rsplit_slash s).2.
Proof.
  induction s as [|c s IH]; [reflexivity|]. cbn [Url.rsplit_slash].
  destruct (Url.rsplit_slash s) as [pre lst]. cbn [fst snd] in IH.
  destruct (Str.contains "/" (String c s)); cbn [fst snd].
  - simpl. now rewrite <- IH.
  - reflexivity.
Qed.

Lemma splitparams_kept p url :
  Str.forallb p url = true -> Str.forallb p (Url.splitparams url).1 = true.
Proof.
  intros H. unfold Url.splitparams.
  pose proof (rsplit_slash_parts url) as E.
  destruct (Url.rsplit_slash url) as [pre lst]. cbn [fst snd] in E.
  destruct (Str.split_first ";" lst) as [[l prm]|] eqn:S; [|exact H].
  cbn [fst]. rewrite E in H. rewrite forallb_append in *.
  apply andb_true_iff in H as [Hp Hl]. rewrite Hp.
  exact (proj1 (split_first_parts _ _ _ _ _ Hl S)).
Qed.

Lemma parse_parts_path_kept url : Str.forallb kept (path (parse_parts url)) = true.
Proof.
  unfold parse_parts. pose proof (url_parts_path_kept url) as H.
  destruct (bool_decide _ && _); [|exact H].
  apply (splitparams_kept kept) in H.
  now destruct (Url.splitparams _).
Qed.

Lemma split_forallb p c s :
  Str.forallb p s = true ->
  Forall (fun seg => Str.forallb p seg = true) (Str.split c s).
Proof.
  induction s as [|a s IH]; [repeat constructor|]. cbn [Str.split Str.forallb].
  rewrite andb_true_iff. intros [Ha Hs]. specialize (IH Hs).
  destruct (Ascii.eqb a c); [now constructor|].
  destruct (Str.split c s) as [|q qs]; [repeat constructor; simpl; now rewrite Ha|].
  apply Forall_cons in IH as [Hq Hqs]. constructor; [|exact Hqs].
  simpl. now rewrite Ha, Hq.
Qed.

Lemma path_candidate_kept `{UrlLib} parsed c :
  Str.forallb kept (path parsed) = true ->
  path_candidate parsed = Some c -> Str.forallb kept c = true.
Proof.
  intros Hp. unfold path_candidate, Str.last_part. intros Hl.
  apply last_Some in Hl as [l' E].
  pose proof (split_forallb kept "/" _ (strip_forallb kept Str.is_slash _ Hp)) as F.
  rewrite E in F. apply Forall_app in F as [_ F].
  now apply Forall_cons in F as [F _].
Qed.

Lemma id_run_parts s :
  exists ID,
    s = ID +:+ (id_run s).2 /\ Str.forallb is_id_char ID = true
    /\ String.length ID = (id_run s).1.
Proof.
  induction s as [|c s (ID & E & HI & Hl)]; [now exists EmptyString|].
  cbn [id_run]. destruct (is_id_char c) eqn:Hc.
  - destruct (id_run s) as [n r]. cbn [fst snd] in *.
    exists (String c ID). simpl. rewrite Hc, HI, Hl. now rewrite <- E.
  - now exists EmptyString.
Qed.

Lemma match_video_id_kept c :
  Str.forallb kept c = true -> match_video_id c = true ->
  Str.forallb is_id_char c = true /\ (6 <= String.length c)%nat.
Proof.
  intros Hk. unfold match_video_id.
  destruct (id_run_parts c) as (ID & E & HI & Hl).
  destruct (id_run c) as [n r]. cbn [fst snd] in *.
  rewrite andb_true_iff, orb_true_iff, Nat.leb_le, !String.eqb_eq.
  intros [Hn [-> | ->]].
  - rewrite append_nil_r in E. subst c. split; [exact HI | lia].
  - rewrite E in Hk. apply forallb_suffix in Hk. discriminate.
Qed.





(** *** The checks of the network location *)

Lemma urlsplit_parts `{UrlLib} url :
  Url.urlsplit url
  = (Url.check_netloc (netloc (url_parts url)) ;; Ok (url_parts url)).
Proof.
  unfold Url.urlsplit, url_parts.
  destruct (Url.split_scheme _) as [sch r1].
  destruct (Url.split_netloc r1) as [n r2].
  destruct (Str.split_first "#" r2) as [[u f]|];
    destruct (Str.split_first "?" _) as [[u' q]|]; cbn [netloc];
    now destruct (Url.check_netloc n).
Qed.

Lemma urlparse_parts `{UrlLib} url :
  Url.urlparse url
  = (Url.check_netloc (netloc (url_parts url)) ;; Ok (parse_parts url)).
Proof.
  unfold Url.urlparse, parse_parts. rewrite urlsplit_parts.
  destruct (Url.check_netloc _); cbn [mbind res_bind]; [|reflexivity].
  destruct (bool_decide _ && _); [|reflexivity].
  now destruct (Url.splitparams _).
Qed.

Lemma urlparse_ok `{UrlLib} url parsed :
  Url.urlparse url = Ok parsed -> parsed = parse_parts url.
Proof.
  rewrite urlparse_parts. destruct (Url.check_netloc _); [|discriminate].
  now intros [= <-].
Qed.



(** *** The pattern on a segment of the path *)





(** *** The instance used to run examples *)

Lemma decode_plain s : Str.contains "%" s = false -> Unquote.decode s = s.
Proof.
  induction s as [|c s IH]; [reflexivity|].
  cbn [Str.contains]. rewrite orb_false_iff. intros [Hc Hs].
  cbn [Unquote.decode]. rewrite Hc, (IH Hs).
  now destruct s as [|a [|b rest]].
Qed.

(** The examples have no host in brackets, so that the check of such a
    host is never consulted; this instance lets it reject every host. *)
#[local] Instance decode_lib : UrlLib :=
  {| unquote := Unquote.decode; unquote_plain := decode_plain;
     check_bracketed_host := fun _ => Raise Url.invalid_ipv6 |}.




(** ** C5: timing of parsed cue blocks *)

Lemma to_secs_fields h m s :
  Str.forallb (is_not ":") h = true ->
  Str.forallb (is_not ":") m = true ->
  Str.forallb (is_not ":") s = true ->
  to_secs (h +:+ ":" +:+ m +:+ ":" +:+ s)
  = (hh ← py_int h; mm ← py_int m; ss ← py_float s;
     Ok (PyNum.of_Z (hh * 3600 + mm * 60) + ss)%float).
Proof.
  intros Hh Hm Hs. unfold to_secs.
  change (h +:+ ":" +:+ m +:+ ":" +:+ s)
    with (h +:+ String ":" (m +:+ String ":" s)).
  rewrite !split_app, (split_single ":" h Hh), (split_single ":" m Hm),
    (split_single ":" s Hs).
  reflexivity.
Qed.

(** C5, as amended. For every cue block matched in VTT or SRT text, the
    start is the timing-line start converted as [h*3600 + m*60 + s], and
    the duration is end minus start rounded to 3 decimal places, whatever
    its sign: a block whose end precedes its start gets a negative
    duration, not null. When either timestamp cannot be converted, start and
    duration both become null and nothing is raised. Speaker and confidence
    are null. *)
Theorem parsed_cue_timing :
  (forall h m s,
      Str.forallb (is_not ":") h = true ->
      Str.forallb (is_not ":") m = true ->
      Str.forallb (is_not ":") s = true ->
      to_secs (h +:+ ":" +:+ m +:+ ":" +:+ s)
      = (hh ← py_int h; mm ← py_int m; ss ← py_float s;
         Ok (PyNum.of_Z (hh * 3600 + mm * 60) + ss)%float))
  /\ (forall start_ts end_ts s e,
        to_secs start_ts = Ok s -> to_secs end_ts = Ok e ->
        cue_timing start_ts end_ts = (Some s, Some (PyNum.round3 (e - s)%float)))
  /\ (forall start_ts end_ts x,
        to_secs start_ts = Raise x \/ to_secs end_ts = Raise x ->
        cue_timing start_ts end_ts = (None, None))
  /\ (forall mm,
        (start (vtt_cue mm), duration (vtt_cue mm))
        = cue_timing (Str.strip Str.is_space (Re.group 1 mm))
                     (Str.strip Str.is_space (Re.group 2 mm))
        /\ speaker (vtt_cue mm) = None /\ confidence (vtt_cue mm) = None)
  /\ (forall mm,
        (start (srt_cue mm), duration (srt_cue mm))
        = cue_timing
            (Str.replace "," "." (Str.strip Str.is_space (Re.group 1 mm)))
            (Str.replace "," "." (Str.strip Str.is_space (Re.group 2 mm)))
        /\ speaker (srt_cue mm) = None /\ confidence (srt_cue mm) = None)
  /\ vtt_cues ("00:01:01.500 --> 00:01:04.000" +:+ nl +:+ "hi")
     = [mkCue (Some "hi") (Some 61.5%float) (Some 2.5%float) None None].
Proof.
  split; [exact to_secs_fields|]. split; [|split; [|split; [|split]]].
  - intros start_ts end_ts s e Hs He. unfold cue_timing.
    now rewrite Hs, He.
  - intros start_ts end_ts x [H | H]; unfold cue_timing.
    + now rewrite H.
    + rewrite H. now destruct (to_secs start_ts).
  - intros mm. unfold vtt_cue. now destruct (cue_timing _ _).
  - intros mm. unfold srt_cue. now destruct (cue_timing _ _).
  - vm_compute. reflexivity.
Qed.

(** C5, witness: a well-formed pair of timestamps. *)
Lemma parsed_cue_timing_witness :
  cue_timing "00:01:01.500" "00:01:04.000" = (Some 61.5%float, Some 2.5%float).
Proof.
  destruct parsed_cue_timing as (_ & H & _).
  rewrite (H "00:01:01.500" "00:01:04.000" 61.5%float 64%float);
    vm_compute; reflexivity.
Defined.

(** C5, counterexample. The claim turns a negative duration into null. A
    block whose end timestamp precedes its start timestamp is parsed, by the
    VTT loop and by the SRT loop, into a cue with duration -2.0. *)
Lemma negative_duration_counterexample :
  vtt_cues ("00:00:05.000 --> 00:00:03.000" +:+ nl +:+ "hi")
    = [mkCue (Some "hi") (Some 5%float) (Some (-2)%float) None None]
  /\ srt_cues ("1" +:+ nl +:+ "00:00:05,000 --> 00:00:03,000" +:+ nl +:+ "hi")
    = [mkCue (Some "hi") (Some 5%float) (Some (-2)%float) None None]
  /\ duration (mkCue (Some "hi") (Some 5%float) (Some (-2)%float) None None)
     <> None.
Proof. repeat split; try (vm_compute; reflexivity). discriminate. Qed.

(** ** C7: writing, then parsing *)

(** *** The matcher on runs of characters *)

Lemma take_app a b : Re.take (String.length a) (a +:+ b) = a.
Proof. induction a as [|c a IH]; simpl; [now destruct b | now rewrite IH]. Qed.

Lemma taken_app a b : Re.taken (a +:+ b) b = a.
Proof.
  unfold Re.taken. rewrite length_append.
  replace (String.length a + String.length b - String.length b)%nat
    with (String.length a) by lia.
  apply take_app.
Qed.

Lemma greedy_run {A} p min run rest (k : string -> option A) x :
  Str.forallb p run = true ->
  stops p rest ->
  (min <= String.length run)%nat ->
  k rest = Some x ->
  Re.greedy p min (run +:+ rest) k = Some x.
Proof.
  intros Hrun Hstop. revert min.
  induction run as [|c run IH]; intros min Hmin Hk.
  - simpl in Hmin. assert (min = O) by lia. subst min.
    destruct rest as [|c rest]; simpl; [exact Hk|].
    simpl in Hstop. now rewrite Hstop.
  - simpl in Hrun. apply andb_true_iff in Hrun as [Hc Hrun].
    simpl. rewrite Hc. rewrite (IH Hrun (pred min)); [reflexivity| |exact Hk].
    simpl in Hmin. lia.
Qed.

Lemma greedy_always {A} p s (x : A) :
  Re.greedy p 0 s (fun _ => Some x) = Some x.
Proof.
  induction s as [|c s IH]; simpl; [reflexivity|].
  destruct (p c); [now rewrite IH | reflexivity].
Qed.

Lemma lazy_skip {A} x rest (k : string -> option A) :
  (forall c s, Ascii.eqb c newline = false -> k (String c s) = None) ->
  Str.forallb (is_not newline) x = true ->
  Re.lazy (fun _ => true) (x +:+ rest) k = Re.lazy (fun _ => true) rest k.
Proof.
  intros Hk. induction x as [|c x IH]; [reflexivity|].
  simpl. unfold is_not at 1. rewrite andb_true_iff, negb_true_iff.
  intros [Hc Hx]. rewrite (Hk c _ Hc). exact (IH Hx).
Qed.

(** [finditer] resumes after a match. *)
Lemma scan_skip r a b : Re.scan r (a +:+ b) (String.length a) = Re.scan r b 0.
Proof. induction a as [|c a IH]; [reflexivity | exact IH]. Qed.

Lemma scan_match r m rest caps :
  m <> EmptyString ->
  Re.match_here r (m +:+ rest) = Some (String.length m, caps) ->
  Re.scan r (m +:+ rest) 0 = caps :: Re.scan r rest 0.
Proof.
  intros Hm H. destruct m as [|c m]; [contradiction|].
  change (String c m +:+ rest) with (String c (m +:+ rest)) in *.
  cbn [Re.scan]. rewrite H. cbn [String.length pred]. now rewrite scan_skip.
Qed.

Lemma scan_miss r c s :
  Re.match_here r (String c s) = None ->
  Re.scan r (String c s) 0 = Re.scan r s 0.
Proof. intros H. cbn [Re.scan]. now rewrite H. Qed.

(** *** Timestamps the patterns accept *)

Lemma two_digits_inv s :
  two_digits s = true ->
  exists a b, s = String a (String b EmptyString)
              /\ Str.is_digit a = true /\ Str.is_digit b = true.
Proof.
  destruct s as [|a [|b [|c s]]]; try discriminate.
  simpl. rewrite andb_true_iff. intros [Ha Hb]. now exists a, b.
Qed.

Lemma clock_minutes_seconds t hh mm ss ms :
  clock t = Ok (hh, mm, ss, ms) -> 0 <= mm < 60 /\ 0 <= ss < 60.
Proof.
  unfold clock.
  destruct (Timedelta.of_seconds t) as [td|e]; [|discriminate]. simpl.
  destruct (PyNum.int_of_float (Timedelta.total_seconds td)) as [T|e];
    [|discriminate]. simpl.
  destruct (PyNum.int_of_float _) as [ms'|e]; [|discriminate]. simpl.
  intros [= <- <- <- <-].
  pose proof (Z.mod_pos_bound T 3600). pose proof (Z.mod_pos_bound T 60).
  split; [split|]; try lia.
  - apply Z.div_pos; lia.
  - apply Z.div_lt_upper_bound; lia.
Qed.

Lemma render_is_ts sep hh mm ss ms :
  0 <= hh < 100 -> 0 <= mm < 60 -> 0 <= ss < 60 -> 0 <= ms ->
  is_ts sep (render (String sep EmptyString) (hh, mm, ss, ms)).
Proof.
  intros Hh Hm Hs Hms. unfold render.
  destruct (two_digits_inv _ (fmt_d2_small hh Hh)) as (h1 & h2 & -> & ? & ?).
  destruct (two_digits_inv _ (fmt_d2_small mm ltac:(lia)))
    as (m1 & m2 & -> & ? & ?).
  destruct (two_digits_inv _ (fmt_d2_small ss ltac:(lia)))
    as (s1 & s2 & -> & ? & ?).
  exists h1, h2, m1, m2, s1, s2, (fmt_d 3 ms).
  repeat split; auto.
  - now apply fmt_d_digits.
  - apply fmt_d_nonempty.
Qed.

Lemma clock_ok_fields t :
  clock_ok t = true ->
  exists f, clock t = Ok f /\ is_ts "." (render "." f) /\ is_ts "," (render "," f).
Proof.
  unfold clock_ok. destruct (clock t) as [[[[hh mm] ss] ms]|e] eqn:E;
    [|discriminate].
  rewrite !andb_true_iff, !Z.leb_le, Z.ltb_lt. intros [[H0 H1] H2].
  destruct (clock_minutes_seconds t hh mm ss ms E) as [Hm Hs].
  exists (hh, mm, ss, ms). split; [reflexivity|].
  split; apply render_is_ts; lia.
Qed.

Lemma vtt_timestamp_ok t :
  clock_ok t = true ->
  exists ts, secs_to_vtt_timestamp t = Ok ts /\ is_ts "." ts.
Proof.
  intros H. destruct (clock_ok_fields t H) as (f & E & Hv & _).
  exists (render "." f). rewrite vtt_timestamp_clock, E. now split.
Qed.

Lemma srt_timestamp_ok t :
  clock_ok t = true ->
  exists ts, secs_to_srt_timestamp t = Ok ts /\ is_ts "," ts.
Proof.
  intros H. destruct (clock_ok_fields t H) as (f & E & _ & Hs).
  exists (render "," f). rewrite srt_timestamp_clock, E. now split.
Qed.

Lemma digit_not_space c : Str.is_digit c = true -> Str.is_space c = false.
Proof. by_character c. Qed.

Lemma not_space_not_newline c :
  Str.is_space c = false -> Ascii.eqb c newline = false.
Proof. by_character c. Qed.

Lemma exec_timestamp {A} sep ts rest caps (k : string -> captures -> option A) x :
  is_ts sep ts ->
  stops Str.is_digit rest ->
  k rest caps = Some x ->
  Re.exec (timestamp_re sep) (ts +:+ rest) caps k = Some x.
Proof.
  intros (h1 & h2 & m1 & m2 & s1 & s2 & ms & -> & H1 & H2 & H3 & H4 & H5
          & H6 & Hms & Hne) Hstop Hk.
  unfold timestamp_re, digit. cbn [Re.exec String.append].
  rewrite H1, H2, H3, H4, H5, H6, !Ascii.eqb_refl.
  apply greedy_run; auto.
  destruct ms; [contradiction | simpl; lia].
Qed.

Lemma exec_group_timestamp {A} n sep ts rest caps
    (k : string -> captures -> option A) x :
  is_ts sep ts ->
  stops Str.is_digit rest ->
  k rest (<[n := ts]> caps) = Some x ->
  Re.exec (Group n (timestamp_re sep)) (ts +:+ rest) caps k = Some x.
Proof.
  intros Hts Hstop Hk. cbn [Re.exec].
  apply exec_timestamp; auto. now rewrite taken_app.
Qed.

Lemma exec_spaces_newline {A} r c s caps (k : string -> captures -> option A) :
  Str.is_space c = false ->
  Re.exec (spaces · Chr newline · r)%re (String newline (String c s)) caps k
  = Re.exec r (String c s) caps k.
Proof.
  intros Hc. unfold spaces. cbn [Re.exec Re.greedy].
  change (Str.is_space newline) with true. cbv iota.
  rewrite Hc, (not_space_not_newline c Hc). cbn [pred].
  now rewrite Ascii.eqb_refl.
Qed.

(** *** Cue bodies *)

Lemma rstrip_last_ok t : last_ok t = true -> Str.rstrip Str.is_space t = t.
Proof.
  induction t as [|c t IH]; [discriminate|].
  destruct t as [|d t].
  - simpl. rewrite negb_true_iff. now intros ->.
  - intros H. change (last_ok (String d t) = true) in H.
    cbn [Str.rstrip]. cbn [Str.rstrip] in IH. now rewrite (IH H).
Qed.

Lemma rstrip_snoc p t c :
  p c = true -> Str.rstrip p (t +:+ String c EmptyString) = Str.rstrip p t.
Proof.
  intros Hc. induction t as [|a t IH]; simpl.
  - now rewrite Hc.
  - now rewrite IH.
Qed.

Lemma cue_text_clean t : clean_text t = true -> cue_text t = t.
Proof.
  unfold clean_text. rewrite !andb_true_iff. intros [[Hh Hl] Hn].
  unfold cue_text, Str.strip.
  rewrite lstrip_keep.
  2:{ destruct t; [exact I|]. simpl in Hh. now apply negb_true_iff. }
  rewrite (rstrip_last_ok t Hl). now apply replace_none.
Qed.

Lemma cue_text_clean_line t : clean_text t = true -> cue_text (t +:+ nl) = t.
Proof.
  unfold clean_text. rewrite !andb_true_iff. intros [[Hh Hl] Hn].
  unfold cue_text, Str.strip, nl.
  rewrite lstrip_keep.
  2:{ destruct t; [discriminate|]. simpl in Hh. now apply negb_true_iff. }
  rewrite rstrip_snoc by reflexivity.
  rewrite (rstrip_last_ok t Hl). now apply replace_none.
Qed.

Lemma ahead_fails {A} c s caps (k : string -> captures -> option A) :
  Ascii.eqb c newline = false ->
  Re.exec (Ahead (Alt (Greedy (Ascii.eqb newline) 2) EndZ)) (String c s) caps k
  = None.
Proof.
  intros Hc. cbn [Re.exec Re.greedy].
  rewrite Ascii.eqb_sym in Hc. now rewrite Hc.
Qed.

Lemma exec_body {A} x tail g3 rem caps (k : string -> captures -> option A) R :
  clean_text x = true ->
  body_end x tail g3 rem ->
  k rem (<[3%nat := g3]> caps) = Some R ->
  Re.exec body_re (x +:+ tail) caps k = Some R.
Proof.
  unfold clean_text. rewrite !andb_true_iff. intros [[Hh Hl] Hn] Hend Hk.
  unfold body_re. cbn [Re.exec].
  rewrite lazy_skip; [| |exact Hn].
  2:{ intros c s Hc.
      exact (ahead_fails c s _ k Hc). }
  destruct Hend as [|more].
  - unfold nl at 1. cbn [Re.lazy]. cbn [Re.exec Re.greedy].
    rewrite Ascii.eqb_refl. cbn [pred].
    replace (Re.taken (x +:+ nl) EmptyString) with (x +:+ nl).
    + now rewrite Hk.
    + rewrite <- (append_nil_r (x +:+ nl)) at 2. now rewrite taken_app.
  - unfold nl at 1 2. cbn [String.append Re.lazy].
    cbn [Re.exec Re.greedy]. rewrite Ascii.eqb_refl. cbn [pred].
    rewrite greedy_always.
    change (String newline (String newline more)) with (nl +:+ nl +:+ more).
    rewrite taken_app. now rewrite Hk.
Qed.

(** *** One block *)

Lemma exec_seq {A} r1 r2 s caps (k : string -> captures -> option A) :
  Re.exec (r1 · r2)%re s caps k
  = Re.exec r1 s caps (fun s' caps' => Re.exec r2 s' caps' k).
Proof. reflexivity. Qed.

Lemma is_ts_head sep ts rest :
  is_ts sep ts -> stops Str.is_space (ts +:+ rest).
Proof.
  intros (h1 & h2 & m1 & m2 & s1 & s2 & ms & -> & H1 & _). simpl.
  now apply digit_not_space.
Qed.

Lemma is_ts_head_digit sep ts rest :
  is_ts sep ts ->
  exists c s, ts +:+ rest = String c s /\ Str.is_digit c = true.
Proof.
  intros (h1 & h2 & m1 & m2 & s1 & s2 & ms & -> & H1 & _). simpl. eauto.
Qed.

Lemma clean_text_head x rest :
  clean_text x = true ->
  exists c s, x +:+ rest = String c s /\ Str.is_space c = false.
Proof.
  unfold clean_text. rewrite !andb_true_iff. intros [[Hh _] _].
  destruct x as [|c x]; [discriminate|]. simpl in Hh.
  apply negb_true_iff in Hh. simpl. eauto.
Qed.

Lemma exec_chr {A} c r s caps (k : string -> captures -> option A) :
  Re.exec (Chr c · r)%re (String c s) caps k = Re.exec r s caps k.
Proof. cbn [Re.exec]. now rewrite Ascii.eqb_refl. Qed.

Lemma exec_one_space {A} r rest caps (k : string -> captures -> option A) R :
  stops Str.is_space rest ->
  Re.exec r rest caps k = Some R ->
  Re.exec (spaces · r)%re (String " " rest) caps k = Some R.
Proof.
  intros Hstop Hk. rewrite exec_seq. unfold spaces. cbn [Re.exec].
  apply (greedy_run Str.is_space 0 " " rest); auto. simpl. lia.
Qed.

Lemma exec_greedy_run {A} p min r run rest caps
    (k : string -> captures -> option A) R :
  Str.forallb p run = true ->
  stops p rest ->
  (min <= String.length run)%nat ->
  Re.exec r rest caps k = Some R ->
  Re.exec (Greedy p min · r)%re (run +:+ rest) caps k = Some R.
Proof.
  intros Hrun Hstop Hmin Hk. rewrite exec_seq. cbn [Re.exec].
  now apply greedy_run.
Qed.

Lemma exec_timing {A} sep ts1 ts2 x tail g3 rem caps
    (k : string -> captures -> option A) R :
  is_ts sep ts1 -> is_ts sep ts2 ->
  clean_text x = true ->
  body_end x tail g3 rem ->
  k rem (<[3%nat := g3]> (<[2%nat := ts2]> (<[1%nat := ts1]> caps))) = Some R ->
  Re.exec (timing_re sep)
    (ts1 +:+ " --> " +:+ ts2 +:+ nl +:+ x +:+ tail) caps k = Some R.
Proof.
  intros H1 H2 Hx Hend Hk. unfold timing_re.
  rewrite exec_seq. apply exec_group_timestamp; [exact H1 | exact eq_refl |].
  cbv beta.
  change (" --> " +:+ ts2 +:+ nl +:+ x +:+ tail)
    with (String " " (String "-" (String "-" (String ">"
            (String " " (ts2 +:+ nl +:+ x +:+ tail)))))).
  apply exec_one_space; [reflexivity|].
  rewrite !exec_chr.
  apply exec_one_space; [now apply (is_ts_head sep)|].
  rewrite exec_seq. apply exec_group_timestamp; [exact H2 | exact eq_refl |].
  cbv beta.
  destruct (clean_text_head x tail Hx) as (c & s & E & Hc).
  unfold nl at 1. cbn [String.append]. rewrite E.
  rewrite exec_spaces_newline by exact Hc. rewrite <- E.
  now apply (exec_body x tail g3 rem).
Qed.

Lemma match_length a b :
  (String.length (a +:+ b) - String.length b)%nat = String.length a.
Proof. rewrite length_append. lia. Qed.

Lemma vtt_block_match ts1 ts2 x tail g3 rem m :
  is_ts "." ts1 -> is_ts "." ts2 ->
  clean_text x = true ->
  body_end x tail g3 rem ->
  ts1 +:+ " --> " +:+ ts2 +:+ nl +:+ x +:+ tail = m +:+ rem ->
  Re.match_here vtt_pattern (m +:+ rem)
  = Some (String.length m, block_caps ts1 ts2 g3).
Proof.
  intros H1 H2 Hx Hend E. unfold Re.match_here, vtt_pattern. rewrite <- E.
  apply (exec_timing "." ts1 ts2 x tail g3 rem); auto.
  rewrite E, match_length. reflexivity.
Qed.

Lemma srt_block_match idx ts1 ts2 x tail g3 rem m :
  Str.forallb Str.is_digit idx = true -> idx <> EmptyString ->
  is_ts "," ts1 -> is_ts "," ts2 ->
  clean_text x = true ->
  body_end x tail g3 rem ->
  idx +:+ nl +:+ ts1 +:+ " --> " +:+ ts2 +:+ nl +:+ x +:+ tail = m +:+ rem ->
  Re.match_here srt_pattern (m +:+ rem)
  = Some (String.length m, block_caps ts1 ts2 g3).
Proof.
  intros Hd Hne H1 H2 Hx Hend E. unfold Re.match_here, srt_pattern.
  rewrite <- E.
  match goal with |- Re.exec _ _ _ ?k = _ => set (K := k) end.
  apply exec_greedy_run;
    [exact Hd | reflexivity | destruct idx; [contradiction | simpl; lia] |].
  destruct (is_ts_head_digit "," ts1
              (" --> " +:+ ts2 +:+ nl +:+ x +:+ tail) H1) as (c & s & E1 & Hc).
  change (nl +:+ ts1 +:+ " --> " +:+ ts2 +:+ nl +:+ x +:+ tail)
    with (String newline (ts1 +:+ " --> " +:+ ts2 +:+ nl +:+ x +:+ tail)).
  rewrite E1.
  rewrite exec_spaces_newline by now apply digit_not_space.
  rewrite <- E1.
  apply (exec_timing "," ts1 ts2 x tail g3 rem); auto.
  subst K. cbv beta. rewrite E, match_length. reflexivity.
Qed.

(** *** The written text, block by block *)

Lemma plain_cue_line it :
  plain_cue it = true ->
  exists x, text it = Some x /\ cue_line it = x /\ clean_text x = true.
Proof.
  unfold plain_cue, cue_line, text_or_empty. rewrite andb_true_iff.
  intros [Hs Ht]. destruct (text it) as [x|]; [|discriminate].
  apply andb_true_iff in Ht as [Ht _].
  exists x. now destruct (speaker it) as [[|c sp]|].
Qed.

Lemma plain_text_no_cr it x :
  plain_cue it = true -> text it = Some x ->
  Str.forallb (is_not cr) x = true.
Proof.
  unfold plain_cue. rewrite andb_true_iff. intros [_ Ht] E. rewrite E in Ht.
  now apply andb_true_iff in Ht as [_ Ht].
Qed.

Lemma vtt_block_ok items i it :
  cue_ok items i it = true ->
  exists ts1 ts2 x,
    vtt_block items i it = Ok [ts1 +:+ " --> " +:+ ts2; x; EmptyString]
    /\ is_ts "." ts1 /\ is_ts "." ts2
    /\ clean_text x = true /\ text it = Some x.
Proof.
  unfold cue_ok, vtt_block. rewrite !andb_true_iff. intros [[Hp Hs] He].
  destruct (cue_times items i it) as [s e]. simpl in Hs, He.
  destruct (vtt_timestamp_ok s Hs) as (ts1 & -> & H1).
  destruct (vtt_timestamp_ok e He) as (ts2 & -> & H2).
  destruct (plain_cue_line it Hp) as (x & Hx & -> & Hc).
  exists ts1, ts2, x. repeat split; auto.
Qed.

Lemma srt_block_ok items i it :
  cue_ok items i it = true ->
  exists ts1 ts2 x,
    srt_block items i it
    = Ok [digits_of (Z.of_nat i + 1); ts1 +:+ " --> " +:+ ts2; x; EmptyString]
    /\ is_ts "," ts1 /\ is_ts "," ts2
    /\ clean_text x = true /\ text it = Some x.
Proof.
  unfold cue_ok, srt_block. rewrite !andb_true_iff. intros [[Hp Hs] He].
  destruct (cue_times items i it) as [s e]. simpl in Hs, He.
  destruct (srt_timestamp_ok s Hs) as (ts1 & -> & H1).
  destruct (srt_timestamp_ok e He) as (ts2 & -> & H2).
  destruct (plain_cue_line it Hp) as (x & Hx & -> & Hc).
  exists ts1, ts2, x. repeat split; auto.
Qed.

Lemma concat_block (t x : string) (l : list string) :
  String.concat nl (t :: x :: EmptyString :: l)
  = t +:+ nl +:+ x +:+ nl +:+ after_block l.
Proof. now destruct l. Qed.

Lemma vtt_miss c s :
  Str.is_digit c = false -> Re.match_here vtt_pattern (String c s) = None.
Proof.
  intros Hc. unfold Re.match_here, vtt_pattern, timing_re, timestamp_re, digit.
  cbn [Re.exec]. now rewrite Hc.
Qed.

Lemma srt_miss c s :
  Str.is_digit c = false -> Re.match_here srt_pattern (String c s) = None.
Proof.
  intros Hc. unfold Re.match_here, srt_pattern.
  cbn [Re.exec Re.greedy]. now rewrite Hc.
Qed.

Lemma vtt_cue_text ts1 ts2 g3 :
  text (vtt_cue (block_caps ts1 ts2 g3)) = Some (cue_text g3).
Proof.
  unfold vtt_cue, block_caps, Re.group. rewrite lookup_insert_eq.
  now destruct (cue_timing _ _).
Qed.

Lemma srt_cue_text ts1 ts2 g3 :
  text (srt_cue (block_caps ts1 ts2 g3)) = Some (cue_text g3).
Proof.
  unfold srt_cue, block_caps, Re.group. rewrite lookup_insert_eq.
  now destruct (cue_timing _ _).
Qed.

Lemma body_end_text x tail g3 rem :
  clean_text x = true -> body_end x tail g3 rem -> cue_text g3 = x.
Proof.
  intros Hx [|more]; [now apply cue_text_clean_line | now apply cue_text_clean].
Qed.

Lemma vtt_loop_roundtrip items rest :
  forall i,
    (forall j it, rest !! j = Some it -> cue_ok items (i + j) it = true) ->
    exists lines,
      vtt_loop items i rest = Ok lines
      /\ texts (vtt_cue <$> Re.scan vtt_pattern (String.concat nl lines) 0)
         = texts rest
      /\ match rest with
         | [] => lines = []
         | _ :: _ => starts_with_digit (String.concat nl lines)
         end.
Proof.
  induction rest as [|it rest IH]; intros i H.
  - exists []. repeat split; reflexivity.
  - destruct (vtt_block_ok items i it) as (ts1 & ts2 & x & Hb & H1 & H2 & Hx & Ht).
    { rewrite <- (Nat.add_0_r i). now apply (H 0%nat). }
    destruct (IH (S i)) as (lines & Hl & Hscan & Hhead).
    { intros j it' Hj. rewrite Nat.add_succ_comm. now apply (H (S j)). }
    exists ([ts1 +:+ " --> " +:+ ts2; x; EmptyString] ++ lines).
    split; [cbn [vtt_loop]; now rewrite Hb, Hl|].
    cbn [app]. rewrite concat_block.
    split.
    2:{ destruct (is_ts_head_digit "." ts1
                    (" --> " +:+ ts2 +:+ nl +:+ x +:+ nl +:+ after_block lines) H1)
          as (c & s & E & Hc).
        exists c, s. split; [|exact Hc]. rewrite <- E.
        now rewrite !append_assoc. }
    rewrite !append_assoc.
    destruct rest as [|it' rest].
    + subst lines. cbn [after_block].
      pose proof (vtt_block_match ts1 ts2 x nl (x +:+ nl) EmptyString
                    (ts1 +:+ " --> " +:+ ts2 +:+ nl +:+ x +:+ nl)
                    H1 H2 Hx (body_last x)) as M.
      rewrite !append_nil_r in M. specialize (M eq_refl).
      rewrite (append_nil_r nl).
      rewrite <- (append_nil_r (ts1 +:+ " --> " +:+ ts2 +:+ nl +:+ x +:+ nl)).
      rewrite (scan_match vtt_pattern
                 (ts1 +:+ " --> " +:+ ts2 +:+ nl +:+ x +:+ nl)
                 EmptyString (block_caps ts1 ts2 (x +:+ nl))).
      * cbn. rewrite vtt_cue_text, cue_text_clean_line by exact Hx.
        now rewrite Ht.
      * destruct H1 as (h1 & ? & ? & ? & ? & ? & ? & -> & _). discriminate.
      * rewrite append_nil_r. exact M.
    + destruct Hhead as (c & s & Ec & Hc).
      assert (Ea : after_block lines = nl +:+ String.concat nl lines).
      { destruct lines; [discriminate Ec | reflexivity]. }
      rewrite Ea. set (more := String.concat nl lines) in *.
      pose proof (vtt_block_match ts1 ts2 x (nl +:+ nl +:+ more) x
                    (nl +:+ nl +:+ more)
                    (ts1 +:+ " --> " +:+ ts2 +:+ nl +:+ x)
                    H1 H2 Hx (body_more x _)) as M.
      rewrite !append_assoc in M. specialize (M eq_refl).
      replace (ts1 +:+ " --> " +:+ ts2 +:+ nl +:+ x +:+ nl +:+ nl +:+ more)
        with ((ts1 +:+ " --> " +:+ ts2 +:+ nl +:+ x) +:+ nl +:+ nl +:+ more)
        by now rewrite !append_assoc.
      rewrite (scan_match vtt_pattern (ts1 +:+ " --> " +:+ ts2 +:+ nl +:+ x)
                 (nl +:+ nl +:+ more) (block_caps ts1 ts2 x)).
      * unfold nl at 1 2. cbn [String.append].
        rewrite !scan_miss by (apply vtt_miss; reflexivity).
        unfold texts in *. cbn [fmap list_fmap].
        rewrite vtt_cue_text, cue_text_clean by exact Hx.
        rewrite Ht. f_equal. exact Hscan.
      * destruct H1 as (h1 & ? & ? & ? & ? & ? & ? & -> & _). discriminate.
      * rewrite <- M. now rewrite !append_assoc.
Qed.

Lemma concat_srt_block (a t x : string) (l : list string) :
  String.concat nl (a :: t :: x :: EmptyString :: l)
  = a +:+ nl +:+ t +:+ nl +:+ x +:+ nl +:+ after_block l.
Proof. now destruct l. Qed.

Lemma digits_of_head z rest :
  starts_with_digit (digits_of z +:+ rest).
Proof.
  pose proof (digits_of_digits z) as Hd. pose proof (digits_of_nonempty z) as Hn.
  destruct (digits_of z) as [|c s]; [contradiction|].
  simpl in Hd. apply andb_true_iff in Hd as [Hc _].
  now exists c, (s +:+ rest).
Qed.

Lemma srt_loop_roundtrip items rest :
  forall i,
    (forall j it, rest !! j = Some it -> cue_ok items (i + j) it = true) ->
    exists lines,
      srt_loop items i rest = Ok lines
      /\ texts (srt_cue <$> Re.scan srt_pattern (String.concat nl lines) 0)
         = texts rest
      /\ match rest with
         | [] => lines = []
         | _ :: _ => starts_with_digit (String.concat nl lines)
         end.
Proof.
  induction rest as [|it rest IH]; intros i H.
  - exists []. repeat split; reflexivity.
  - destruct (srt_block_ok items i it) as (ts1 & ts2 & x & Hb & H1 & H2 & Hx & Ht).
    { rewrite <- (Nat.add_0_r i). now apply (H 0%nat). }
    destruct (IH (S i)) as (lines & Hl & Hscan & Hhead).
    { intros j it' Hj. rewrite Nat.add_succ_comm. now apply (H (S j)). }
    set (idx := digits_of (Z.of_nat i + 1)) in *.
    assert (Hd : Str.forallb Str.is_digit idx = true) by apply digits_of_digits.
    assert (Hn : idx <> EmptyString) by apply digits_of_nonempty.
    exists ([idx; ts1 +:+ " --> " +:+ ts2; x; EmptyString] ++ lines).
    split; [cbn [srt_loop]; now rewrite Hb, Hl|].
    cbn [app]. rewrite concat_srt_block.
    split; [|apply digits_of_head].
    rewrite !append_assoc.
    assert (Hm : idx +:+ nl +:+ ts1 +:+ " --> " +:+ ts2 +:+ nl +:+ x
                 <> EmptyString).
    { destruct idx; [contradiction | discriminate]. }
    destruct rest as [|it' rest].
    + subst lines. cbn [after_block].
      pose proof (srt_block_match idx ts1 ts2 x nl (x +:+ nl) EmptyString
                    (idx +:+ nl +:+ ts1 +:+ " --> " +:+ ts2 +:+ nl +:+ x +:+ nl)
                    Hd Hn H1 H2 Hx (body_last x)) as M.
      rewrite !append_nil_r in M. specialize (M eq_refl).
      rewrite (append_nil_r nl).
      rewrite <- (append_nil_r
                    (idx +:+ nl +:+ ts1 +:+ " --> " +:+ ts2 +:+ nl +:+ x +:+ nl)).
      rewrite (scan_match srt_pattern
                 (idx +:+ nl +:+ ts1 +:+ " --> " +:+ ts2 +:+ nl +:+ x +:+ nl)
                 EmptyString (block_caps ts1 ts2 (x +:+ nl))).
      * cbn. rewrite srt_cue_text, cue_text_clean_line by exact Hx.
        now rewrite Ht.
      * destruct idx; [contradiction | discriminate].
      * rewrite append_nil_r. exact M.
    + destruct Hhead as (c & s & Ec & Hc).
      assert (Ea : after_block lines = nl +:+ String.concat nl lines).
      { destruct lines; [discriminate Ec | reflexivity]. }
      rewrite Ea. set (more := String.concat nl lines) in *.
      pose proof (srt_block_match idx ts1 ts2 x (nl +:+ nl +:+ more) x
                    (nl +:+ nl +:+ more)
                    (idx +:+ nl +:+ ts1 +:+ " --> " +:+ ts2 +:+ nl +:+ x)
                    Hd Hn H1 H2 Hx (body_more x _)) as M.
      rewrite !append_assoc in M. specialize (M eq_refl).
      replace (idx +:+ nl +:+ ts1 +:+ " --> " +:+ ts2 +:+ nl +:+ x +:+ nl
               +:+ nl +:+ more)
        with ((idx +:+ nl +:+ ts1 +:+ " --> " +:+ ts2 +:+ nl +:+ x)
              +:+ nl +:+ nl +:+ more)
        by now rewrite !append_assoc.
      rewrite (scan_match srt_pattern
                 (idx +:+ nl +:+ ts1 +:+ " --> " +:+ ts2 +:+ nl +:+ x)
                 (nl +:+ nl +:+ more) (block_caps ts1 ts2 x)).
      * unfold nl at 1 2. cbn [String.append].
        rewrite !scan_miss by (apply srt_miss; reflexivity).
        unfold texts in *. cbn [fmap list_fmap].
        rewrite srt_cue_text, cue_text_clean by exact Hx.
        rewrite Ht. f_equal. exact Hscan.
      * exact Hm.
      * rewrite <- M. now rewrite !append_assoc.
Qed.

(** *** The written text has no carriage return *)

Lemma digit_not_cr c : Str.is_digit c = true -> is_not cr c = true.
Proof. by_character c. Qed.

Lemma is_ts_no_cr sep ts :
  is_ts sep ts -> is_not cr sep = true -> Str.forallb (is_not cr) ts = true.
Proof.
  intros (h1 & h2 & m1 & m2 & s1 & s2 & ms & -> & H1 & H2 & H3 & H4 & H5 & H6
          & Hms & _) Hsep.
  cbn [Str.forallb].
  rewrite (digit_not_cr h1 H1), (digit_not_cr h2 H2), (digit_not_cr m1 H3),
    (digit_not_cr m2 H4), (digit_not_cr s1 H5), (digit_not_cr s2 H6), Hsep.
  change (is_not cr ":") with true. cbn [andb].
  revert Hms. apply forallb_impl, digit_not_cr.
Qed.

Lemma timing_line_no_cr sep ts1 ts2 :
  is_ts sep ts1 -> is_ts sep ts2 -> is_not cr sep = true ->
  Str.forallb (is_not cr) (ts1 +:+ " --> " +:+ ts2) = true.
Proof.
  intros H1 H2 Hs. rewrite !forallb_append.
  now rewrite (is_ts_no_cr sep ts1 H1 Hs), (is_ts_no_cr sep ts2 H2 Hs).
Qed.

Lemma vtt_loop_no_cr items rest :
  forall i lines,
    (forall j it, rest !! j = Some it -> cue_ok items (i + j) it = true) ->
    vtt_loop items i rest = Ok lines ->
    Forall (fun l => Str.forallb (is_not cr) l = true) lines.
Proof.
  induction rest as [|it rest IH]; intros i lines H; cbn [vtt_loop].
  - intros [= <-]. constructor.
  - assert (Hit : cue_ok items i it = true).
    { rewrite <- (Nat.add_0_r i). now apply (H 0%nat). }
    destruct (vtt_block_ok items i it Hit)
      as (ts1 & ts2 & x & -> & H1 & H2 & Hx & Ht).
    cbn [mbind res_bind].
    destruct (vtt_loop items (S i) rest) as [l|] eqn:L; [|discriminate].
    intros [= <-].
    assert (Hl : Forall (fun l => Str.forallb (is_not cr) l = true) l).
    { apply (IH (S i)); [|exact L].
      intros j it' Hj. rewrite Nat.add_succ_comm. now apply (H (S j)). }
    unfold cue_ok in Hit. rewrite !andb_true_iff in Hit.
    destruct Hit as [[Hp _] _].
    repeat constructor; try exact Hl.
    + now apply (timing_line_no_cr ".").
    + exact (plain_text_no_cr it x Hp Ht).
Qed.

Lemma srt_loop_no_cr items rest :
  forall i lines,
    (forall j it, rest !! j = Some it -> cue_ok items (i + j) it = true) ->
    srt_loop items i rest = Ok lines ->
    Forall (fun l => Str.forallb (is_not cr) l = true) lines.
Proof.
  induction rest as [|it rest IH]; intros i lines H; cbn [srt_loop].
  - intros [= <-]. constructor.
  - assert (Hit : cue_ok items i it = true).
    { rewrite <- (Nat.add_0_r i). now apply (H 0%nat). }
    destruct (srt_block_ok items i it Hit)
      as (ts1 & ts2 & x & -> & H1 & H2 & Hx & Ht).
    cbn [mbind res_bind].
    destruct (srt_loop items (S i) rest) as [l|] eqn:L; [|discriminate].
    intros [= <-].
    assert (Hl : Forall (fun l => Str.forallb (is_not cr) l = true) l).
    { apply (IH (S i)); [|exact L].
      intros j it' Hj. rewrite Nat.add_succ_comm. now apply (H (S j)). }
    unfold cue_ok in Hit. rewrite !andb_true_iff in Hit.
    destruct Hit as [[Hp _] _].
    repeat constructor; try exact Hl.
    + generalize (digits_of_digits (Z.of_nat i + 1)).
      apply forallb_impl, digit_not_cr.
    + now apply (timing_line_no_cr ",").
    + exact (plain_text_no_cr it x Hp Ht).
Qed.

(** ** C7: the JSON writer and the JSON reader *)

(** *** Reading what was written without carriage return *)

Lemma read_text_plain s :
  Str.forallb (is_not cr) s = true -> read_text s = s.
Proof.
  induction s as [|c s IH]; [reflexivity|]. cbn [Str.forallb read_text].
  unfold is_not at 1. rewrite andb_true_iff, negb_true_iff.
  intros [-> Hs]. now rewrite (IH Hs).
Qed.

Lemma concat_forallb p sep (l : list string) :
  Str.forallb p sep = true ->
  Forall (fun x => Str.forallb p x = true) l ->
  Str.forallb p (String.concat sep l) = true.
Proof.
  intros Hsep. induction 1 as [|x l Hx Hl IH]; [reflexivity|].
  cbn [String.concat]. destruct l as [|y l]; [exact Hx|].
  rewrite !forallb_append, Hx, Hsep. exact IH.
Qed.

(** *** Strings *)

Lemma escape_char_facts c :
  Str.forallb (is_not cr) (Json.escape_char c) = true
  /\ forall d t,
       Json.scanstring (Json.escape_char c +:+ String d t)
       = ('(u, r) ← Json.scanstring (String d t); Ok (String c u, r)).
Proof.
  destruct c as [[] [] [] [] [] [] [] []]; split; try reflexivity;
    intros d t; reflexivity.
Qed.

Lemma escape_no_cr s : Str.forallb (is_not cr) (Json.escape s) = true.
Proof.
  induction s as [|c s IH]; [reflexivity|]. cbn [Json.escape].
  rewrite forallb_append, IH. now destruct (escape_char_facts c) as [-> _].
Qed.

Lemma escape_quote_head s rest :
  exists d t, Json.escape s +:+ String dquote rest = String d t.
Proof.
  destruct s as [|c s]; [now exists dquote, rest|].
  cbn [Json.escape]. rewrite append_assoc.
  destruct (Json.escape_char c) as [|d t] eqn:E.
  - exfalso. revert E. destruct c as [[] [] [] [] [] [] [] []]; discriminate.
  - now exists d, (t +:+ Json.escape s +:+ String dquote rest).
Qed.

Lemma scanstring_escape s rest :
  Json.scanstring (Json.escape s +:+ String dquote rest) = Ok (s, rest).
Proof.
  induction s as [|c s IH].
  - cbn. reflexivity.
  - cbn [Json.escape]. rewrite append_assoc.
    destruct (escape_quote_head s rest) as (d & t & E). rewrite E in *.
    destruct (escape_char_facts c) as [_ ->]. now rewrite IH.
Qed.

Lemma basestring_app s rest :
  Json.encode_basestring s +:+ rest
  = String dquote (Json.escape s +:+ String dquote rest).
Proof.
  unfold Json.encode_basestring. cbn [String.append].
  now rewrite append_assoc.
Qed.

Lemma basestring_no_cr s :
  Str.forallb (is_not cr) (Json.encode_basestring s) = true.
Proof.
  unfold Json.encode_basestring. cbn [Str.forallb].
  rewrite forallb_append, escape_no_cr. reflexivity.
Qed.

(** *** Numbers *)

Lemma stops_impl (p q : ascii -> bool) s :
  (forall c, q c = true -> p c = true) -> stops p s -> stops q s.
Proof.
  intros H. destruct s as [|c s]; [trivial|]. cbn. intros Hp.
  destruct (q c) eqn:E; [|reflexivity]. now rewrite (H c E) in Hp.
Qed.

Lemma number_char_facts c :
  number_char c = false ->
  Str.is_digit c = false /\ Ascii.eqb c "." = false
  /\ Ascii.eqb c "e" = false /\ Ascii.eqb c "E" = false
  /\ Ascii.eqb c "+" = false /\ Ascii.eqb c "-" = false.
Proof.
  unfold number_char. rewrite !orb_false_iff. tauto.
Qed.

Lemma span_app p a b x r :
  stops p b -> Json.span p a = (x, r) -> Json.span p (a +:+ b) = (x, r +:+ b).
Proof.
  intros Hb. revert x r. induction a as [|c a IH]; intros x r.
  - cbn. intros [= <- <-]. destruct b as [|d b]; [reflexivity|].
    cbn in *. now rewrite Hb.
  - cbn [Json.span String.append]. destruct (p c); [|now intros [= <- <-]].
    destruct (Json.span p a) as [x' r']. intros [= <- <-].
    now rewrite (IH x' r' eq_refl).
Qed.

Lemma span_parts p s x r :
  Json.span p s = (x, r) -> s = x +:+ r /\ Str.forallb p x = true.
Proof.
  revert x r. induction s as [|c s IH]; intros x r.
  - now intros [= <- <-].
  - cbn [Json.span]. destruct (p c) eqn:Hc; [|now intros [= <- <-]].
    destruct (Json.span p s) as [x' r']. intros [= <- <-].
    destruct (IH x' r' eq_refl) as [-> Hx]. cbn. now rewrite Hc, Hx.
Qed.

Lemma int_part_app a b x r :
  stops number_char b ->
  Json.int_part a = Some (x, r) -> Json.int_part (a +:+ b) = Some (x, r +:+ b).
Proof.
  intros Hb. destruct a as [|c a]; [discriminate|].
  cbn [Json.int_part String.append].
  destruct (Ascii.eqb c "0"); [now intros [= <- <-]|].
  destruct (Str.is_digit c); [|discriminate].
  destruct (Json.span Str.is_digit a) as [x' r'] eqn:E. intros [= <- <-].
  rewrite (span_app Str.is_digit a b x' r'); [reflexivity| |exact E].
  revert Hb. apply stops_impl. intros d Hd. unfold number_char. now rewrite Hd.
Qed.

Lemma frac_part_app a b x r :
  stops number_char b ->
  Json.frac_part a = (x, r) -> Json.frac_part (a +:+ b) = (x, r +:+ b).
Proof.
  intros Hb.
  assert (Hd : stops Str.is_digit b).
  { revert Hb. apply stops_impl. intros d Hd. unfold number_char.
    now rewrite Hd. }
  destruct a as [|c [|d a]].
  - cbn. intros [= <- <-]. destruct b as [|c [|d b]]; try reflexivity.
    cbn in Hb. apply number_char_facts in Hb as (_ & Hc & _).
    cbn [Json.frac_part]. now rewrite Hc.
  - cbn. intros [= <- <-]. destruct b as [|d b]; [reflexivity|].
    cbn in Hd. cbn [String.append Json.frac_part].
    now rewrite Hd, andb_false_r.
  - cbn [Json.frac_part String.append].
    destruct (Ascii.eqb c "." && Str.is_digit d); [|now intros [= <- <-]].
    destruct (Json.span Str.is_digit a) as [x' r'] eqn:E. intros [= <- <-].
    now rewrite (span_app Str.is_digit a b x' r' Hd E).
Qed.

Lemma exp_part_app a b x r :
  stops number_char b ->
  Json.exp_part a = (x, r) -> Json.exp_part (a +:+ b) = (x, r +:+ b).
Proof.
  intros Hb.
  assert (Hd : stops Str.is_digit b).
  { revert Hb. apply stops_impl. intros d Hd. unfold number_char.
    now rewrite Hd. }
  destruct a as [|e a].
  - cbn. intros [= <- <-]. destruct b as [|c b]; [reflexivity|].
    cbn in Hb. apply number_char_facts in Hb as (_ & _ & He & HE & _).
    cbn [Json.exp_part]. now rewrite He, HE.
  - cbn [Json.exp_part String.append].
    destruct (Ascii.eqb e "e" || Ascii.eqb e "E"); [|now intros [= <- <-]].
    destruct a as [|g a].
    + cbn. intros [= <- <-]. destruct b as [|g b]; [reflexivity|].
      cbn in Hb, Hd. apply number_char_facts in Hb as (_ & _ & _ & _ & Hp & Hm).
      cbn [String.append]. rewrite Hp, Hm. cbn [orb Json.span].
      now rewrite Hd.
    + cbn [String.append].
      destruct (Ascii.eqb g "+" || Ascii.eqb g "-").
      * destruct (Json.span Str.is_digit a) as [x' r'] eqn:E.
        rewrite (span_app Str.is_digit a b x' r' Hd E).
        destruct x' as [|d ds]; now intros [= <- <-].
      * destruct (Json.span Str.is_digit (String g a)) as [x' r'] eqn:E.
        change (String g (a +:+ b)) with (String g a +:+ b).
        rewrite (span_app Str.is_digit (String g a) b x' r' Hd E).
        destruct x' as [|d ds]; now intros [= <- <-].
Qed.

Lemma match_number_app a b x r :
  stops number_char b ->
  Json.match_number a = Some (x, r) ->
  Json.match_number (a +:+ b) = Some (x, r +:+ b).
Proof.
  intros Hb. unfold Json.match_number.
  assert (G : forall sign a1,
             match Json.int_part a1 with
             | Some (ip, s2) =>
                 let '(fp, s3) := Json.frac_part s2 in
                 let '(ep, s4) := Json.exp_part s3 in
                 Some (sign +:+ ip +:+ fp +:+ ep, s4)
             | None => None
             end = Some (x, r) ->
             match Json.int_part (a1 +:+ b) with
             | Some (ip, s2) =>
                 let '(fp, s3) := Json.frac_part s2 in
                 let '(ep, s4) := Json.exp_part s3 in
                 Some (sign +:+ ip +:+ fp +:+ ep, s4)
             | None => None
             end = Some (x, r +:+ b)).
  { intros sign a1.
    destruct (Json.int_part a1) as [[ip s2]|] eqn:I; [|discriminate].
    rewrite (int_part_app a1 b ip s2 Hb I).
    destruct (Json.frac_part s2) as [fp s3] eqn:F.
    rewrite (frac_part_app s2 b fp s3 Hb F).
    destruct (Json.exp_part s3) as [ep s4] eqn:E.
    rewrite (exp_part_app s3 b ep s4 Hb E).
    now intros [= <- <-]. }
  destruct a as [|c a].
  - discriminate.
  - cbn [String.append]. destruct (Ascii.eqb c "-").
    + apply G.
    + change (String c (a +:+ b)) with (String c a +:+ b). apply G.
Qed.

Lemma digit_number_char c : Str.is_digit c = true -> number_char c = true.
Proof. intros H. unfold number_char. now rewrite H. Qed.

Lemma int_part_parts s x r :
  Json.int_part s = Some (x, r) ->
  s = x +:+ r /\ Str.forallb number_char x = true
  /\ exists d t, x = String d t /\ Str.is_digit d = true.
Proof.
  destruct s as [|c s]; [discriminate|]. cbn [Json.int_part].
  destruct (Ascii.eqb_spec c "0") as [->|_].
  - intros [= <- <-]. repeat split. now exists "0"%char, EmptyString.
  - destruct (Str.is_digit c) eqn:Hc; [|discriminate].
    destruct (Json.span Str.is_digit s) as [x' r'] eqn:E. intros [= <- <-].
    destruct (span_parts _ _ _ _ E) as [-> Hx]. split; [reflexivity|].
    split; [|now exists c, x'].
    cbn. rewrite (digit_number_char c Hc). revert Hx.
    apply forallb_impl, digit_number_char.
Qed.

Lemma frac_part_parts s x r :
  Json.frac_part s = (x, r) ->
  s = x +:+ r /\ Str.forallb number_char x = true.
Proof.
  destruct s as [|c [|d s]]; try (now intros [= <- <-]).
  cbn [Json.frac_part].
  destruct (Ascii.eqb_spec c ".") as [->|_]; [|now intros [= <- <-]].
  destruct (Str.is_digit d) eqn:Hd; [|now intros [= <- <-]].
  cbn [andb]. destruct (Json.span Str.is_digit s) as [x' r'] eqn:E.
  intros [= <- <-]. destruct (span_parts _ _ _ _ E) as [-> Hx].
  split; [reflexivity|]. cbn. rewrite (digit_number_char d Hd).
  revert Hx. apply forallb_impl, digit_number_char.
Qed.

Lemma exp_part_parts s x r :
  Json.exp_part s = (x, r) ->
  s = x +:+ r /\ Str.forallb number_char x = true.
Proof.
  destruct s as [|e s]; [now intros [= <- <-]|]. cbn [Json.exp_part].
  destruct (Ascii.eqb e "e" || Ascii.eqb e "E") eqn:He;
    [|now intros [= <- <-]].
  assert (Hec : number_char e = true).
  { unfold number_char. apply orb_true_iff in He as [-> | ->];
      now rewrite ?orb_true_r. }
  destruct s as [|g s].
  - cbn. now intros [= <- <-].
  - destruct (Ascii.eqb g "+" || Ascii.eqb g "-") eqn:Hg.
    + assert (Hgc : number_char g = true).
      { unfold number_char. apply orb_true_iff in Hg as [-> | ->];
          now rewrite ?orb_true_r. }
      destruct (Json.span Str.is_digit s) as [x' r'] eqn:E.
      destruct (span_parts _ _ _ _ E) as [-> Hx].
      destruct x' as [|d ds]; intros [= <- <-]; [now split|].
      split; [reflexivity|]. cbn [String.append Str.forallb].
      rewrite Hec, Hgc. cbn [andb].
      change (Str.forallb number_char (String d ds) = true).
      revert Hx. apply forallb_impl, digit_number_char.
    + destruct (Json.span Str.is_digit (String g s)) as [x' r'] eqn:E.
      destruct (span_parts _ _ _ _ E) as [E' Hx].
      destruct x' as [|d ds]; intros [= <- <-]; [now split|].
      rewrite E'. split; [reflexivity|]. cbn [String.append Str.forallb].
      rewrite Hec. cbn [andb].
      change (Str.forallb number_char (String d ds) = true).
      revert Hx. apply forallb_impl, digit_number_char.
Qed.

(** What the number match consumes is made of number characters, and it
    starts with a digit, or with the sign and a digit. *)
Lemma match_number_parts s x r :
  Json.match_number s = Some (x, r) ->
  s = x +:+ r /\ Str.forallb number_char x = true
  /\ exists c t,
       x = String c t
       /\ (Str.is_digit c = true
           \/ c = "-"%char /\ exists d u, t = String d u /\ Str.is_digit d = true).
Proof.
  unfold Json.match_number.
  assert (G : forall a1 x1,
             match Json.int_part a1 with
             | Some (ip, s2) =>
                 let '(fp, s3) := Json.frac_part s2 in
                 let '(ep, s4) := Json.exp_part s3 in
                 Some (ip +:+ fp +:+ ep, s4)
             | None => None
             end = Some (x1, r) ->
             a1 = x1 +:+ r /\ Str.forallb number_char x1 = true
             /\ exists d t, x1 = String d t /\ Str.is_digit d = true).
  { intros a1 x1.
    destruct (Json.int_part a1) as [[ip s2]|] eqn:I; [|discriminate].
    destruct (int_part_parts _ _ _ I) as (-> & Hip & d & t & -> & Hd).
    destruct (Json.frac_part s2) as [fp s3] eqn:F.
    destruct (frac_part_parts _ _ _ F) as (-> & Hfp).
    destruct (Json.exp_part s3) as [ep s4] eqn:E.
    destruct (exp_part_parts _ _ _ E) as (-> & Hep).
    intros [= <- <-].
    change (String d (t +:+ fp +:+ ep)) with (String d t +:+ fp +:+ ep).
    split; [now rewrite !append_assoc|].
    rewrite !forallb_append, Hip, Hfp, Hep. split; [reflexivity|].
    now exists d, (t +:+ fp +:+ ep). }
  destruct s as [|c s].
  - discriminate.
  - destruct (Ascii.eqb_spec c "-") as [->|_].
    + destruct (Json.int_part s) as [[ip s2]|] eqn:I; [|discriminate].
      destruct (Json.frac_part s2) as [fp s3] eqn:F.
      destruct (Json.exp_part s3) as [ep s4] eqn:E.
      intros [= <- <-].
      destruct (G s (ip +:+ fp +:+ ep)) as (-> & Hx & d & t & Ex & Hd).
      { now rewrite I, F, E. }
      split; [reflexivity|]. split; [cbn; exact Hx|].
      exists "-"%char, (ip +:+ fp +:+ ep). split; [reflexivity|].
      right. split; [reflexivity|]. now exists d, t.
    + intros H.
      destruct (Json.int_part (String c s)) as [[ip s2]|] eqn:I;
        [|discriminate].
      destruct (Json.frac_part s2) as [fp s3] eqn:F.
      destruct (Json.exp_part s3) as [ep s4] eqn:E.
      injection H as <- <-.
      destruct (G (String c s) (ip +:+ fp +:+ ep)) as (-> & Hx & d & t & Ex & Hd).
      { now rewrite I, F, E. }
      split; [reflexivity|]. split; [exact Hx|].
      exists d, t. split; [exact Ex | now left].
Qed.

Lemma number_literal_spec s :
  Json.number_literal s = true -> Json.match_number s = Some (s, EmptyString).
Proof.
  unfold Json.number_literal.
  destruct (Json.match_number s) as [[x [|c r]]|] eqn:E; try discriminate.
  intros _. destruct (match_number_parts _ _ _ E) as (-> & _).
  now rewrite append_nil_r.
Qed.

Lemma number_no_cr s :
  Str.forallb number_char s = true -> Str.forallb (is_not cr) s = true.
Proof. apply forallb_impl. intros c. by_character c. Qed.

Lemma token_no_cr s : json_token s = true -> Str.forallb (is_not cr) s = true.
Proof.
  unfold json_token. rewrite !orb_true_iff, !String.eqb_eq.
  intros [[[H | ->] | ->] | ->]; try reflexivity.
  apply number_literal_spec, match_number_parts in H as (_ & H & _).
  now apply number_no_cr.
Qed.

(** *** Values *)

Lemma scan_once_eq fuel c s' :
  Json.scan_once (S fuel) (String c s')
  = if Ascii.eqb c dquote then
      '(t, r) ← Json.scanstring s'; Ok (Json.JStr t, r)
    else if Ascii.eqb c "{" then
      match Json.skip_ws s' with
      | String d r =>
          if Ascii.eqb d "}" then Ok (Json.JObj ∅, r)
          else Json.members fuel ∅ (String d r)
      | EmptyString => Json.members fuel ∅ EmptyString
      end
    else if Ascii.eqb c "[" then
      match Json.skip_ws s' with
      | String d r =>
          if Ascii.eqb d "]" then Ok (Json.JArr [], r)
          else Json.elements fuel [] (String d r)
      | EmptyString => Json.elements fuel [] EmptyString
      end
    else
      match Json.after_prefix "null" (String c s') with
      | Some r => Ok (Json.JNull, r)
      | None =>
      match Json.after_prefix "true" (String c s') with
      | Some r => Ok (Json.JBool true, r)
      | None =>
      match Json.after_prefix "false" (String c s') with
      | Some r => Ok (Json.JBool false, r)
      | None =>
      match Json.after_prefix "NaN" (String c s') with
      | Some r => Ok (Json.JNum "NaN", r)
      | None =>
      match Json.after_prefix "Infinity" (String c s') with
      | Some r => Ok (Json.JNum "Infinity", r)
      | None =>
      match Json.after_prefix "-Infinity" (String c s') with
      | Some r => Ok (Json.JNum "-Infinity", r)
      | None =>
      match Json.match_number (String c s') with
      | Some (literal, r) => Ok (Json.JNum literal, r)
      | None => Raise Json.expecting_value
      end end end end end end end.
Proof. reflexivity. Qed.

Lemma digit_head_facts c :
  Str.is_digit c = true ->
  Ascii.eqb c dquote = false /\ Ascii.eqb c "{" = false
  /\ Ascii.eqb c "[" = false /\ Ascii.eqb "n" c = false
  /\ Ascii.eqb "t" c = false /\ Ascii.eqb "f" c = false
  /\ Ascii.eqb "N" c = false /\ Ascii.eqb "I" c = false
  /\ Ascii.eqb "-" c = false /\ Json.is_ws c = false.
Proof. by_character c. Qed.

Lemma scan_once_number fuel s rest :
  Json.number_literal s = true -> stops number_char rest ->
  Json.scan_once (S fuel) (s +:+ rest) = Ok (Json.JNum s, rest)
  /\ Json.skip_ws (s +:+ rest) = s +:+ rest.
Proof.
  intros Hs Hr. apply number_literal_spec in Hs.
  pose proof (match_number_app s rest s EmptyString Hr Hs) as M.
  destruct (match_number_parts _ _ _ Hs) as (_ & _ & c & t & -> & Hc).
  cbn [String.append] in *. rewrite scan_once_eq, M.
  destruct Hc as [Hc | (-> & d & u & -> & Hd)].
  - destruct (digit_head_facts c Hc)
      as (H1 & H2 & H3 & H4 & H5 & H6 & H7 & H8 & H9 & H10).
    unfold Json.skip_ws. cbn [Json.after_prefix Str.lstrip].
    now rewrite H1, H2, H3, H4, H5, H6, H7, H8, H9, H10.
  - destruct (digit_head_facts d Hd) as (_ & _ & _ & _ & _ & _ & _ & H8 & _).
    unfold Json.skip_ws. cbn [Json.after_prefix Str.lstrip String.append].
    change (Ascii.eqb "-" dquote) with false.
    change (Ascii.eqb "-" "{") with false.
    change (Ascii.eqb "-" "[") with false.
    change (Ascii.eqb "n" "-") with false.
    change (Ascii.eqb "t" "-") with false.
    change (Ascii.eqb "f" "-") with false.
    change (Ascii.eqb "N" "-") with false.
    change (Ascii.eqb "I" "-") with false.
    change (Ascii.eqb "-" "-") with true.
    change (Json.is_ws "-") with false.
    cbv iota. now rewrite H8.
Qed.

Lemma scan_once_token fuel s rest :
  json_token s = true -> stops number_char rest ->
  Json.scan_once (S fuel) (s +:+ rest) = Ok (Json.JNum s, rest)
  /\ Json.skip_ws (s +:+ rest) = s +:+ rest.
Proof.
  unfold json_token. rewrite !orb_true_iff, !String.eqb_eq.
  intros [[[H | ->] | ->] | ->] Hr; [now apply scan_once_number| | |];
    split; reflexivity.
Qed.

Section Values.
Context {libs : Libs}.

Lemma scan_str fuel o rest :
  Json.scan_once (S fuel) (Json.encode_str o +:+ rest) = Ok (str_value o, rest)
  /\ Json.skip_ws (Json.encode_str o +:+ rest) = Json.encode_str o +:+ rest.
Proof.
  destruct o as [s|]; [|split; reflexivity]. cbn [Json.encode_str str_value].
  rewrite basestring_app. split; [|reflexivity].
  rewrite scan_once_eq. change (Ascii.eqb dquote dquote) with true. cbv iota.
  now rewrite scanstring_escape.
Qed.

(** What [floatstr] writes is a number or one of the three names. *)
Lemma floatstr_token f : json_token (Json.floatstr float_repr f) = true.
Proof.
  pose proof (float_repr_number f) as N.
  unfold Json.floatstr, Json.finite in *.
  destruct (PrimFloat.eqb f f); [|reflexivity].
  destruct (PrimFloat.eqb f infinity); [reflexivity|].
  destruct (PrimFloat.eqb f neg_infinity); [reflexivity|].
  cbn [negb andb] in *. unfold json_token. now rewrite (N eq_refl).
Qed.

Lemma scan_float fuel o rest :
  stops number_char rest ->
  Json.scan_once (S fuel) (Json.encode_float float_repr o +:+ rest)
  = Ok (num_value o, rest)
  /\ Json.skip_ws (Json.encode_float float_repr o +:+ rest)
     = Json.encode_float float_repr o +:+ rest.
Proof.
  destruct o as [f|]; [|split; reflexivity].
  cbn [Json.encode_float num_value]. apply scan_once_token, floatstr_token.
Qed.

End Values.

(** *** Objects *)

Lemma members_eq fuel m s1 :
  Json.members (S fuel) m (String dquote s1)
  = ('(key, r1) ← Json.scanstring s1;
     match Json.skip_ws r1 with
     | String d r2 =>
         if Ascii.eqb d ":" then
           '(val, r3) ← Json.scan_once fuel (Json.skip_ws r2);
           match Json.skip_ws r3 with
           | String e r4 =>
               if Ascii.eqb e "}" then Ok (Json.JObj (<[key := val]> m), r4)
               else if Ascii.eqb e ","
               then Json.members fuel (<[key := val]> m) (Json.skip_ws r4)
               else Raise Json.expecting_comma
           | EmptyString => Raise Json.expecting_comma
           end
         else Raise Json.expecting_colon
     | EmptyString => Raise Json.expecting_colon
     end).
Proof. reflexivity. Qed.

(** One member, when its encoded value [venc] is read as [v]. *)
Lemma member_read fuel m key venc v rest :
  Json.scan_once (S fuel) (venc +:+ rest) = Ok (v, rest) ->
  Json.skip_ws (venc +:+ rest) = venc +:+ rest ->
  Json.members (S (S fuel)) m (Json.encode_member (key, venc) +:+ rest)
  = match Json.skip_ws rest with
    | String e r4 =>
        if Ascii.eqb e "}" then Ok (Json.JObj (<[key := v]> m), r4)
        else if Ascii.eqb e ","
        then Json.members (S fuel) (<[key := v]> m) (Json.skip_ws r4)
        else Raise Json.expecting_comma
    | EmptyString => Raise Json.expecting_comma
    end.
Proof.
  intros Hv Hw. unfold Json.encode_member. cbn [fst snd].
  rewrite !append_assoc, basestring_app, members_eq, scanstring_escape.
  cbn [mbind res_bind String.append]. unfold Json.skip_ws at 1 2.
  cbn [Str.lstrip]. change (Json.is_ws ":") with false.
  change (Json.is_ws " ") with true. cbv iota.
  change (Ascii.eqb ":" ":") with true. cbv iota.
  change (Json.skip_ws (String " " (venc +:+ rest)))
    with (Json.skip_ws (venc +:+ rest)).
  rewrite Hw, Hv. reflexivity.
Qed.

Lemma skip_indent level s :
  stops Json.is_ws s -> Json.skip_ws (Json.newline_indent level +:+ s) = s.
Proof.
  intros Hs. unfold Json.newline_indent, Json.skip_ws.
  cbn [String.append Str.lstrip]. change (Json.is_ws newline) with true.
  cbv iota. induction (2 * level)%nat as [|k IH].
  - now apply lstrip_keep.
  - cbn [Json.blanks String.append Str.lstrip].
    change (Json.is_ws " ") with true. exact IH.
Qed.

Lemma indent_stops level s : stops number_char (Json.newline_indent level +:+ s).
Proof. reflexivity. Qed.

(** A member followed by another one. *)
Lemma member_more fuel m key venc v kv rest :
  (forall rest',
      stops number_char rest' ->
      Json.scan_once (S fuel) (venc +:+ rest') = Ok (v, rest')
      /\ Json.skip_ws (venc +:+ rest') = venc +:+ rest') ->
  Json.members (S (S fuel)) m
    (Json.encode_member (key, venc)
     +:+ String "," (Json.newline_indent 2 +:+ Json.encode_member kv +:+ rest))
  = Json.members (S fuel) (<[key := v]> m) (Json.encode_member kv +:+ rest).
Proof.
  intros Hval.
  destruct (Hval (String "," (Json.newline_indent 2 +:+ Json.encode_member kv
                              +:+ rest)) eq_refl) as [Hv Hw].
  rewrite (member_read fuel m key venc v _ Hv Hw).
  unfold Json.skip_ws at 1. cbn [Str.lstrip].
  change (Json.is_ws ",") with false. cbv iota.
  change (Ascii.eqb "," "}") with false. change (Ascii.eqb "," ",") with true.
  cbv iota. rewrite skip_indent; [reflexivity|].
  unfold Json.encode_member. rewrite !append_assoc, basestring_app. reflexivity.
Qed.

(** The last member of an object. *)
Lemma member_last fuel m key venc v rest :
  (forall rest',
      stops number_char rest' ->
      Json.scan_once (S fuel) (venc +:+ rest') = Ok (v, rest')
      /\ Json.skip_ws (venc +:+ rest') = venc +:+ rest') ->
  Json.members (S (S fuel)) m
    (Json.encode_member (key, venc) +:+ Json.newline_indent 1 +:+ String "}" rest)
  = Ok (Json.JObj (<[key := v]> m), rest).
Proof.
  intros Hval.
  destruct (Hval (Json.newline_indent 1 +:+ String "}" rest) eq_refl)
    as [Hv Hw].
  rewrite (member_read fuel m key venc v _ Hv Hw).
  rewrite skip_indent by reflexivity. reflexivity.
Qed.

Section Objects.
Context {libs : Libs}.

(** The object written for a cue is read as the cue's value. *)
Lemma cue_object fuel it rest :
  Json.scan_once (7 + fuel)
    (Json.encode_dict 1 (Json.cue_members float_repr it) +:+ rest)
  = Ok (cue_value it, rest).
Proof.
  unfold Json.encode_dict, Json.cue_members.
  cbn [fmap list_fmap String.concat Nat.add].
  rewrite !append_assoc. cbn [String.append].
  rewrite scan_once_eq.
  change (Ascii.eqb "{" dquote) with false.
  change (Ascii.eqb "{" "{") with true. cbv iota.
  rewrite skip_indent.
  2:{ unfold Json.encode_member. rewrite !append_assoc, basestring_app.
      reflexivity. }
  assert (E : forall kv r,
             Json.encode_member kv +:+ r
             = String dquote (Json.escape kv.1
                              +:+ String dquote (": " +:+ kv.2 +:+ r))).
  { intros kv r. unfold Json.encode_member.
    now rewrite !append_assoc, basestring_app. }
  rewrite (E ("text", _)). cbn [fst snd].
  change (Ascii.eqb dquote "}") with false. cbv iota.
  rewrite <- (E ("text", Json.encode_str (text it))).
  rewrite (member_more _ _ "text" _ (str_value (text it)))
    by (intros r _; apply scan_str).
  rewrite (member_more _ _ "start" _ (num_value (start it)))
    by (intros r Hr'; now apply scan_float).
  rewrite (member_more _ _ "duration" _ (num_value (duration it)))
    by (intros r Hr'; now apply scan_float).
  rewrite (member_more _ _ "speaker" _ (str_value (speaker it)))
    by (intros r _; apply scan_str).
  rewrite (member_last _ _ "confidence" _ (num_value (confidence it)))
    by (intros r Hr'; now apply scan_float).
  reflexivity.
Qed.

End Objects.

(** *** Arrays *)

Lemma elements_eq fuel acc s :
  Json.elements (S fuel) acc s
  = ('(val, r1) ← Json.scan_once fuel s;
     match Json.skip_ws r1 with
     | String e r2 =>
         if Ascii.eqb e "]" then Ok (Json.JArr (acc ++ [val]), r2)
         else if Ascii.eqb e ","
         then Json.elements fuel (acc ++ [val]) (Json.skip_ws r2)
         else Raise Json.expecting_comma
     | EmptyString => Raise Json.expecting_comma
     end).
Proof. reflexivity. Qed.

Lemma concat_length sep (l : list string) :
  Forall (fun x => (2 <= String.length x)%nat) l ->
  (2 * length l <= String.length (String.concat sep l))%nat.
Proof.
  induction 1 as [|x l Hx Hl IH]; [cbn; lia|].
  cbn beta in Hx. cbn [String.concat length]. destruct l as [|y l].
  - cbn [length]. lia.
  - rewrite !length_append. cbn [length] in IH |- *. lia.
Qed.

Section Arrays.
Context {libs : Libs}.

Lemma object_head it r :
  exists t, object_of it +:+ r = String "{" t.
Proof.
  unfold object_of, Json.encode_dict, Json.cue_members.
  cbn [fmap list_fmap]. now eexists.
Qed.

Lemma object_length it : (2 <= String.length (object_of it))%nat.
Proof.
  unfold object_of, Json.encode_dict, Json.cue_members.
  cbn [fmap list_fmap String.append String.length].
  rewrite !length_append. cbn [String.length]. lia.
Qed.

Lemma concat_cons sep (x : string) (l : list string) :
  l <> [] -> String.concat sep (x :: l) = x +:+ sep +:+ String.concat sep l.
Proof. destruct l; [contradiction | reflexivity]. Qed.

Lemma objects_head sep items rest :
  items <> [] ->
  exists t,
    String.concat sep (object_of <$> items) +:+ rest = String "{" t.
Proof.
  destruct items as [|it items]; [contradiction|]. intros _.
  cbn [fmap list_fmap String.concat].
  destruct (object_of <$> items) as [|o os].
  - apply object_head.
  - rewrite append_assoc. apply object_head.
Qed.

(** The elements of a written array, from the first object to the
    closing bracket. *)
Lemma elements_read items :
  forall fuel acc rest,
    items <> [] ->
    Json.elements (length items + 7 + fuel) acc
      (String.concat ("," +:+ Json.newline_indent 1) (object_of <$> items)
       +:+ Json.newline_indent 0 +:+ String "]" rest)
    = Ok (Json.JArr (acc ++ (cue_value <$> items)), rest).
Proof.
  induction items as [|it items IH]; intros fuel acc rest Hne;
    [contradiction|].
  cbn [length Nat.add]. rewrite elements_eq.
  replace (length items + 7 + fuel)%nat with (7 + (length items + fuel))%nat
    by lia.
  destruct items as [|it' items].
  - cbn [fmap list_fmap String.concat]. fold (object_of it).
    unfold object_of at 1. rewrite (cue_object _ it _).
    cbn [mbind res_bind]. rewrite skip_indent by reflexivity.
    reflexivity.
  - set (tail := it' :: items) in *.
    change (object_of <$> it :: tail)
      with (object_of it :: (object_of <$> tail)).
    rewrite concat_cons by discriminate.
    rewrite !append_assoc. unfold object_of at 1.
    rewrite (cue_object _ it _). cbn [mbind res_bind String.append].
    unfold Json.skip_ws at 1. cbn [Str.lstrip].
    change (Json.is_ws ",") with false. cbv iota.
    change (Ascii.eqb "," "]") with false. change (Ascii.eqb "," ",") with true.
    cbv iota.
    rewrite skip_indent.
    2:{ destruct (objects_head (String "," (Json.newline_indent 1)) tail
                    (Json.newline_indent 0 +:+ String "]" rest)
                    ltac:(discriminate)) as [t E].
        now rewrite E. }
    specialize (IH fuel (acc ++ [cue_value it]) rest ltac:(discriminate)).
    replace (7 + (length tail + fuel))%nat with (length tail + 7 + fuel)%nat
      by lia.
    cbn [String.append] in IH. rewrite IH. now rewrite <- app_assoc.
Qed.

End Arrays.

(** *** The whole text *)

Section Dumps.
Context {libs : Libs}.

Lemma dumps_eq it items :
  Json.dumps float_repr (it :: items)
  = String "["
      (Json.newline_indent 1
       +:+ String.concat (String "," (Json.newline_indent 1))
             (object_of <$> it :: items)
       +:+ Json.newline_indent 0 +:+ String "]" EmptyString).
Proof. reflexivity. Qed.

Lemma dumps_length items :
  items <> [] ->
  (length items + 7 <= String.length (Json.dumps float_repr items))%nat.
Proof.
  destruct items as [|it items]; [contradiction|]. intros _.
  rewrite dumps_eq. cbn [String.length]. rewrite !length_append.
  pose proof (concat_length (String "," (Json.newline_indent 1))
                (object_of <$> it :: items)) as L.
  rewrite length_fmap in L.
  assert (F : Forall (fun x => (2 <= String.length x)%nat)
                (object_of <$> it :: items)).
  { apply Forall_fmap, Forall_forall. intros x _. apply object_length. }
  specialize (L F).
  cbn [String.length Json.newline_indent Json.blanks Nat.mul Nat.add length]
    in *.
  lia.
Qed.

(** Reading what [json.dump] wrote gives back one object per cue, in
    order. *)
Lemma loads_dumps items :
  Json.loads (Json.dumps float_repr items)
  = Ok (Json.JArr (cue_value <$> items)).
Proof.
  destruct items as [|it items]; [reflexivity|].
  pose proof (dumps_length (it :: items) ltac:(discriminate)) as L.
  unfold Json.loads. rewrite dumps_eq in *.
  set (body := String.concat _ _) in *.
  set (n := String.length _) in *.
  match goal with
  | |- context [Json.skip_ws (String "[" ?x)] =>
      change (Json.skip_ws (String "[" x)) with (String "[" x)
  end.
  rewrite scan_once_eq.
  change (Ascii.eqb "[" dquote) with false.
  change (Ascii.eqb "[" "{") with false.
  change (Ascii.eqb "[" "[") with true. cbv iota.
  destruct (objects_head (String "," (Json.newline_indent 1)) (it :: items)
              (Json.newline_indent 0 +:+ String "]" EmptyString)
              ltac:(discriminate)) as [t E].
  fold body in E.
  rewrite skip_indent by now rewrite E.
  pose proof (elements_read (it :: items) (n - (length (it :: items) + 7)) []
                EmptyString ltac:(discriminate)) as R.
  replace (length (it :: items) + 7 + (n - (length (it :: items) + 7)))%nat
    with n in R by lia.
  cbn [String.append] in R. fold body in R.
  rewrite E in *. change (Ascii.eqb "{" "]") with false. cbv iota.
  rewrite R. reflexivity.
Qed.

Lemma encode_str_no_cr o : Str.forallb (is_not cr) (Json.encode_str o) = true.
Proof. destruct o; [apply basestring_no_cr | reflexivity]. Qed.

Lemma encode_float_no_cr o :
  Str.forallb (is_not cr) (Json.encode_float float_repr o) = true.
Proof. destruct o; [apply token_no_cr, floatstr_token | reflexivity]. Qed.

Lemma object_no_cr it : Str.forallb (is_not cr) (object_of it) = true.
Proof.
  unfold object_of, Json.encode_dict, Json.cue_members, Json.encode_member.
  cbn [fmap list_fmap String.concat fst snd].
  rewrite !forallb_append, !basestring_no_cr, !encode_str_no_cr.
  rewrite !encode_float_no_cr. reflexivity.
Qed.

Lemma dumps_no_cr items :
  Str.forallb (is_not cr) (Json.dumps float_repr items) = true.
Proof.
  destruct items as [|it items]; [reflexivity|].
  rewrite dumps_eq. cbn [Str.forallb]. rewrite !forallb_append.
  rewrite concat_forallb; [reflexivity | reflexivity |].
  apply Forall_fmap, Forall_forall. intros x _. apply object_no_cr.
Qed.

Lemma column_text items :
  Json.column "text" (Json.JArr (cue_value <$> items))
  = Some ((fun it => str_value (text it)) <$> items).
Proof.
  cbn [Json.column]. induction items as [|it items IH]; [reflexivity|].
  cbn [fmap list_fmap mapM]. rewrite IH. reflexivity.
Qed.

End Dumps.

(** *** The round trip *)

Lemma concat_header (lines : list string) :
  String.concat nl ("WEBVTT" :: EmptyString :: lines)
  = "WEBVTT" +:+ nl +:+ after_block lines.
Proof. now destruct lines. Qed.

Lemma vtt_roundtrip items :
  (forall i it, items !! i = Some it -> cue_ok items i it = true) ->
  exists out,
    vtt_text items = Ok out /\ texts (vtt_cues (read_text out)) = texts items.
Proof.
  intros H.
  destruct (vtt_loop_roundtrip items items 0%nat H) as (lines & Hl & Hs & Hh).
  exists (String.concat nl ("WEBVTT" :: EmptyString :: lines)).
  split; [unfold vtt_text; now rewrite Hl|].
  rewrite read_text_plain.
  2:{ apply concat_forallb; [reflexivity|].
      repeat constructor. exact (vtt_loop_no_cr items items 0%nat lines H Hl). }
  unfold vtt_cues, Re.finditer. rewrite concat_header.
  unfold nl at 1. cbn [String.append].
  rewrite !scan_miss by (apply vtt_miss; reflexivity).
  destruct items as [|it items].
  - now subst lines.
  - destruct Hh as (c & s & Ec & Hc).
    assert (Ea : after_block lines = nl +:+ String.concat nl lines).
    { destruct lines; [discriminate Ec | reflexivity]. }
    rewrite Ea. unfold nl at 1. cbn [String.append].
    rewrite scan_miss by (apply vtt_miss; reflexivity).
    exact Hs.
Qed.

Lemma srt_roundtrip items :
  (forall i it, items !! i = Some it -> cue_ok items i it = true) ->
  exists out,
    srt_text items = Ok out /\ texts (srt_cues (read_text out)) = texts items.
Proof.
  intros H.
  destruct (srt_loop_roundtrip items items 0%nat H) as (lines & Hl & Hs & _).
  exists (String.concat nl lines).
  split; [unfold srt_text; now rewrite Hl|].
  rewrite read_text_plain; [exact Hs|].
  apply concat_forallb; [reflexivity|].
  exact (srt_loop_no_cr items items 0%nat lines H Hl).
Qed.

(** C7, as amended. The parser reads its file in text mode, where a
    carriage return is read as a line feed. Take a cue sequence in which
    every cue has no speaker, a text that is not empty, has no white space
    at either end, no line feed and no carriage return, and start and end
    times that render with non-negative fields below 100 hours. Then the
    VTT writer's text, read and parsed by the VTT loop, and the SRT writer's
    text, read and parsed by the SRT loop, give the same text values in the
    same order. For every cue sequence whatever, with or without speakers
    and whatever the texts, the file the JSON writer writes, read and
    decoded by the JSON reader, is a list with one object per cue, in order,
    whose member [text] is the text of the cue (null for a null text). *)
Theorem written_texts_read_back :
  forall (libs : Libs) (items : list Cue),
    ((forall i it, items !! i = Some it -> cue_ok items i it = true) ->
     (exists out,
         vtt_text items = Ok out
         /\ texts (vtt_cues (read_text out)) = texts items)
     /\ (exists out,
           srt_text items = Ok out
           /\ texts (srt_cues (read_text out)) = texts items))
    /\ (forall path fs,
          exists out,
            write_json items path fs = (<[path := out]> fs, Ok path)
            /\ exists v,
                 Json.loads (read_text out) = Ok v
                 /\ Json.column "text" v
                    = Some ((fun it => str_value (text it)) <$> items)).
Proof.
  intros libs items. split.
  - intros H. split; [now apply vtt_roundtrip | now apply srt_roundtrip].
  - intros path fs. exists (Json.dumps float_repr items).
    split; [reflexivity|].
    exists (Json.JArr (cue_value <$> items)).
    rewrite (read_text_plain _ (dumps_no_cr items)).
    split; [apply loads_dumps | apply column_text].
Qed.

(** C7, witness: the two cues of the timing example, through the VTT
    writer and through the JSON writer. *)
Lemma written_texts_read_back_witness :
  (exists out,
      vtt_text example_cues = Ok out
      /\ texts (vtt_cues (read_text out)) = [Some "a"; Some "b"])
  /\ (exists out,
        write_json (libs := no_libs) example_cues "out.json" ∅
        = (<["out.json" := out]> ∅, Ok "out.json")
        /\ exists v,
             Json.loads (read_text out) = Ok v
             /\ Json.column "text" v = Some [Json.JStr "a"; Json.JStr "b"]).
Proof.
  destruct (written_texts_read_back no_libs example_cues) as [T J].
  split.
  - refine (proj1 (T _)).
    intros [|[|i]] it; simpl; intros E; try discriminate E;
      injection E as <-; vm_compute; reflexivity.
  - exact (J "out.json" ∅).
Defined.

(** C7, counterexample. A cue with a speaker is written as [Bob: hi] and
    read back with that text, in both formats. A cue with an empty text
    makes the parser take the next cue's timing line for its body: two cues
    are written and one is read. A carriage return in a text is read as a
    line break, which the parser turns into a space. *)
Lemma speaker_and_empty_text_counterexample :
  (exists out,
      vtt_text spoken_cue = Ok out
      /\ texts (vtt_cues (read_text out)) = [Some "Bob: hi"]
      /\ texts (vtt_cues (read_text out)) <> texts spoken_cue)
  /\ (exists out,
        srt_text spoken_cue = Ok out
        /\ texts (srt_cues (read_text out)) = [Some "Bob: hi"]
        /\ texts (srt_cues (read_text out)) <> texts spoken_cue)
  /\ (exists out,
        vtt_text empty_then_text = Ok out
        /\ texts (vtt_cues (read_text out))
           = [Some "00:00:02.000 --> 00:00:04.000 b"]
        /\ texts (vtt_cues (read_text out)) <> texts empty_then_text)
  /\ (exists out,
        vtt_text returned_cue = Ok out
        /\ texts (vtt_cues (read_text out)) = [Some "a b"]
        /\ texts (vtt_cues (read_text out)) <> texts returned_cue).
Proof.
  split; [|split; [|split]].
  - eexists. split; [vm_compute; reflexivity|].
    split; [vm_compute; reflexivity | vm_compute; discriminate].
  - eexists. split; [vm_compute; reflexivity|].
    split; [vm_compute; reflexivity | vm_compute; discriminate].
  - eexists. split; [vm_compute; reflexivity|].
    split; [vm_compute; reflexivity | vm_compute; discriminate].
  - eexists. split; [vm_compute; reflexivity|].
    split; [vm_compute; reflexivity | vm_compute; discriminate].
Qed.

(* ================================================================== *)
(** * Further properties of the code *)
(* ================================================================== *)

(** ** The writers and the file system *)

Lemma write_file_other path content (fs : files) q :
  q <> path -> write_file path content fs !! q = fs !! q.
Proof. intros H. unfold write_file. now rewrite lookup_insert_ne. Qed.

Lemma emit_other content path (fs : files) q :
  q <> path -> (emit content path fs).1 !! q = fs !! q.
Proof.
  intros H. unfold emit. destruct content; cbn [fst]; [|reflexivity].
  now apply write_file_other.
Qed.

(** X1. [save_output] changes at most the file at the output path: every
    other path holds after the call what it held before, whether the writer
    returns or raises. *)
Theorem save_output_only_writes_out_path :
  forall (libs : Libs) vid items fmt custom_path (fs : files) q,
    q <> out_path_of vid fmt custom_path ->
    (save_output vid items fmt custom_path fs).1 !! q = fs !! q.
Proof.
  intros libs vid items fmt custom_path fs q. unfold out_path_of, save_output.
  set (o := match custom_path with
            | Some (String c p) => String c p
            | _ => vid +:+ "_transcript." +:+ fmt
            end).
  intros Hq.
  repeat match goal with
         | |- context [String.eqb (lower fmt) ?s] =>
             destruct (String.eqb (lower fmt) s)
         end; cbn [fst]; try reflexivity.
  - now apply write_file_other.
  - now apply write_file_other.
  - now apply emit_other.
  - now apply emit_other.
  - unfold write_csv. destruct (csv_loop items []) as [rows [e|]]; cbn [fst];
      now apply write_file_other.
  - unfold write_docx. destruct docx_installed; [|reflexivity].
    now apply emit_other.
  - unfold write_pdf. destruct fpdf_installed; [|reflexivity].
    now apply emit_other.
Qed.

(** X1, witness: writing the text file of an empty transcript leaves the
    file [keep.txt] as it was. *)
Lemma save_output_only_writes_out_path_witness :
  (save_output (libs := no_libs) "abc123" [] "txt" None one_file).1 !! "keep.txt"
  = one_file !! "keep.txt".
Proof.
  apply (save_output_only_writes_out_path no_libs "abc123" [] "txt" None
           one_file "keep.txt").
  vm_compute. discriminate.
Defined.

(** X2. The SRT, VTT, DOCX and PDF writers build their whole output before
    they open the file: when one of them raises, the file system is what it
    was before the call, and no file is left at the path. *)
Theorem failed_writer_leaves_no_file :
  forall (libs : Libs) items path (fs fs' : files) e,
    write_srt items path fs = (fs', Raise e)
    \/ write_vtt items path fs = (fs', Raise e)
    \/ write_docx items path fs = (fs', Raise e)
    \/ write_pdf items path fs = (fs', Raise e) ->
    fs' = fs.
Proof.
  intros libs items path fs fs' e [H | [H | [H | H]]].
  - now apply emit_raise in H.
  - now apply emit_raise in H.
  - unfold write_docx in H. destruct docx_installed.
    + now apply emit_raise in H.
    + now injection H.
  - unfold write_pdf in H. destruct fpdf_installed.
    + now apply emit_raise in H.
    + now injection H.
Qed.

(** X2, witness: the SRT writer raises on a cue that starts at infinity,
    after a cue it could render, and the file system is unchanged. *)
Lemma failed_writer_leaves_no_file_witness :
  (write_srt [second_cue; endless_cue] "out.srt" one_file).1 = one_file.
Proof.
  apply (failed_writer_leaves_no_file no_libs [second_cue; endless_cue]
           "out.srt" one_file _
           (OverflowError "cannot convert float infinity to integer")).
  left. vm_compute. reflexivity.
Defined.

Lemma csv_loop_rows `{Libs} items acc rows err :
  csv_loop items acc = (rows, err) ->
  exists done new,
    rows = acc ++ new
    /\ Forall2 (fun it r => csv_row_of it = Ok r) done new
    /\ match err with
       | None => items = done
       | Some e => exists it rest,
                     items = done ++ it :: rest /\ csv_row_of it = Raise e
       end.
Proof.
  revert acc. induction items as [|it items IH]; intros acc; cbn [csv_loop].
  - intros [= <- <-]. exists [], []. rewrite app_nil_r. auto.
  - destruct (csv_row_of it) as [r|e] eqn:E.
    + intros Hl. destruct (IH _ Hl) as (done & new & -> & Hf & Herr).
      exists (it :: done), (r :: new). rewrite <- app_assoc. split; [reflexivity|].
      split; [now constructor|].
      destruct err as [e|].
      * destruct Herr as (it' & rest & -> & He). now exists it', rest.
      * now subst.
    + intros [= <- <-]. exists [], []. rewrite app_nil_r.
      split; [reflexivity|]. split; [constructor|]. now exists it, items.
Qed.

(** X3. The CSV writer opens the file before it computes the first row.
    When a timestamp of some cue raises, the error is the one of the first
    such cue, and the file is left on disk with one row for each cue before
    it, in order. When the writer returns, the file holds one row for every
    cue, in order. *)
Theorem failed_csv_leaves_partial_file :
  forall (libs : Libs) items path (fs fs' : files),
    (forall e,
        write_csv items path fs = (fs', Raise e) ->
        exists done it rest rows,
          items = done ++ it :: rest
          /\ Forall2 (fun it r => csv_row_of it = Ok r) done rows
          /\ csv_row_of it = Raise e
          /\ fs' = write_file path (csv_text rows) fs)
    /\ (forall p,
          write_csv items path fs = (fs', Ok p) ->
          exists rows,
            Forall2 (fun it r => csv_row_of it = Ok r) items rows
            /\ fs' = write_file path (csv_text rows) fs
            /\ p = path).
Proof.
  intros libs items path fs fs'. unfold write_csv.
  destruct (csv_loop items []) as [rows err] eqn:L.
  apply csv_loop_rows in L as (done & new & -> & Hf & Herr).
  cbn [app] in *. split.
  - intros e. destruct err as [e'|]; [|discriminate].
    intros [= <- <-]. destruct Herr as (it & rest & -> & He).
    now exists done, it, rest, new.
  - intros p. destruct err as [e'|]; [discriminate|].
    intros [= <- <-]. subst. now exists new.
Qed.

(** X3, witness: on the same two cues the CSV writer raises at the second
    cue and leaves a file with the row of the first. *)
Lemma failed_csv_leaves_partial_file_witness :
  exists done it rest rows,
    [second_cue; endless_cue] = done ++ it :: rest
    /\ Forall2 (fun it r => csv_row_of it = Ok r) done rows
    /\ csv_row_of it
       = Raise (OverflowError "cannot convert float infinity to integer")
    /\ (write_csv (libs := no_libs) [second_cue; endless_cue] "out.csv" ∅).1
       = write_file "out.csv" (csv_text (Libs := no_libs) rows) ∅.
Proof.
  apply (proj1 (failed_csv_leaves_partial_file no_libs
                  [second_cue; endless_cue] "out.csv" ∅ _)).
  vm_compute. reflexivity.
Defined.

Lemma txt_text_cons it items :
  txt_text (it :: items) = txt_line it +:+ String newline (txt_text items).
Proof.
  cbn [txt_text]. unfold txt_line.
  destruct (speaker it) as [[|c sp]|]; try reflexivity.
  now rewrite !append_assoc.
Qed.

(** X4. The text writer puts each cue on one line, in order, and ends the
    file with a line break: when no rendered cue contains a line break,
    splitting the written file at line breaks gives back the rendered cues,
    followed by the empty string after the last break. *)
Theorem write_txt_one_line_per_cue :
  forall items path (fs : files),
    Forall (fun it => Str.forallb (is_not newline) (txt_line it) = true) items ->
    exists content,
      (write_txt items path fs).1 !! path = Some content
      /\ Str.split newline content = (txt_line <$> items) ++ [""].
Proof.
  intros items path fs Hl. exists (txt_text items). split.
  - unfold write_txt, write_file. cbn [fst]. now rewrite lookup_insert_eq.
  - induction Hl as [|it items Hit _ IH]; [reflexivity|].
    rewrite txt_text_cons, split_app, IH, (split_single _ _ Hit).
    reflexivity.
Qed.

(** X4, witness: a cue with a speaker, written and split into lines. *)
Lemma write_txt_one_line_per_cue_witness :
  exists content,
    (write_txt spoken_cue "out.txt" ∅).1 !! "out.txt"
      = Some content
    /\ Str.split newline content = (txt_line <$> spoken_cue) ++ [""].
Proof.
  apply (write_txt_one_line_per_cue spoken_cue "out.txt" ∅).
  repeat constructor.
Defined.

(** The timing line of the SRT writer for the cue [it] at position [i]:
    both times of [cue_times] rendered, with the arrow between them. *)
Lemma srt_loop_layout items i rest lines :
  srt_loop items i rest = Ok lines ->
  length lines = (4 * length rest)%nat
  /\ forall j it, rest !! j = Some it ->
       lines !! (4 * j)%nat = Some (digits_of (Z.of_nat (i + j) + 1))
       /\ (exists s e,
             secs_to_srt_timestamp (cue_times items (i + j) it).1 = Ok s
             /\ secs_to_srt_timestamp (cue_times items (i + j) it).2 = Ok e
             /\ lines !! (4 * j + 1)%nat = Some (s +:+ " --> " +:+ e))
       /\ lines !! (4 * j + 2)%nat = Some (cue_line it)
       /\ lines !! (4 * j + 3)%nat = Some EmptyString.
Proof.
  revert i lines. induction rest as [|it rest IH]; intros i lines; cbn [srt_loop].
  - intros [= <-]. split; [reflexivity|]. intros j it H. discriminate.
  - unfold srt_block. destruct (cue_times items i it) as [s e] eqn:T.
    destruct (secs_to_srt_timestamp s) as [ts|] eqn:Es; [|discriminate].
    destruct (secs_to_srt_timestamp e) as [te|] eqn:Ee; [|discriminate].
    cbn [mbind res_bind]. destruct (srt_loop items (S i) rest) as [l|] eqn:L;
      [|discriminate].
    intros [= <-]. destruct (IH _ _ L) as [Hlen Hj]. split.
    + cbn [app length]. rewrite Hlen. lia.
    + intros [|j] it' Hit.
      * injection Hit as <-. cbn [Nat.mul Nat.add app lookup list_lookup].
        rewrite Nat.add_0_r, T. cbn [fst snd].
        repeat split; try reflexivity. now exists ts, te.
      * cbn [lookup list_lookup] in Hit.
        destruct (Hj j it' Hit) as (A & B & C & D).
        replace (4 * S j)%nat with (4 + 4 * j)%nat by lia.
        replace (4 + 4 * j + 1)%nat with (4 + (4 * j + 1))%nat by lia.
        replace (4 + 4 * j + 2)%nat with (4 + (4 * j + 2))%nat by lia.
        replace (4 + 4 * j + 3)%nat with (4 + (4 * j + 3))%nat by lia.
        cbn [app Nat.add lookup list_lookup].
        replace (i + S j)%nat with (S i + j)%nat by lia. auto.
Qed.

(** X5. When the SRT writer's loop succeeds it produces exactly four lines
    per cue, in cue order: the 1-based position of the cue in decimal; the
    timing line, which is the SRT timestamp of the cue's start time, the
    arrow [ --> ] and the SRT timestamp of its end time, both times being
    those the loop computes for the cue ([cue_times]); the body line
    (speaker: text, or text); and an empty line. *)
Theorem srt_blocks_numbered :
  forall items lines,
    srt_loop items 0 items = Ok lines ->
    length lines = (4 * length items)%nat
    /\ forall i it, items !! i = Some it ->
         lines !! (4 * i)%nat = Some (digits_of (Z.of_nat i + 1))
         /\ (exists s e,
               secs_to_srt_timestamp (cue_times items i it).1 = Ok s
               /\ secs_to_srt_timestamp (cue_times items i it).2 = Ok e
               /\ lines !! (4 * i + 1)%nat = Some (s +:+ " --> " +:+ e))
         /\ lines !! (4 * i + 2)%nat = Some (cue_line it)
         /\ lines !! (4 * i + 3)%nat = Some EmptyString.
Proof. intros items lines H. exact (srt_loop_layout items 0 items lines H). Qed.

(** X5, witness: the two cues of the example give eight lines; the fifth
    line is the index 2 and the sixth the timing line from second 2 to
    second 4. *)
Lemma srt_blocks_numbered_witness :
  exists lines,
    srt_loop example_cues 0 example_cues = Ok lines
    /\ length lines = (4 * length example_cues)%nat
    /\ lines !! 4%nat = Some "2"
    /\ lines !! 5%nat = Some "00:00:02,000 --> 00:00:04,000".
Proof.
  eexists. split; [vm_compute; reflexivity|].
  pose proof (srt_blocks_numbered example_cues _ ltac:(vm_compute; reflexivity))
    as [Hlen Hi].
  split; [exact Hlen|].
  destruct (Hi 1%nat _ eq_refl) as (A & _ & _ & _).
  split; [exact A | vm_compute; reflexivity].
Defined.

(** ** The normalizer, once more *)

Lemma to_item_dict_again it :
  to_item_dict (PDict (to_item_dict it)) = to_item_dict it.
Proof.
  rewrite (to_item_dict_inserts (PDict _)). cbn [item_field]. unfold dict_get.
  rewrite (to_item_dict_inserts it).
  destruct (five_lookup (item_field it "text") (item_field it "start")
              (item_field it "duration") (item_field it "speaker")
              (item_field it "confidence")) as (-> & -> & -> & -> & ->).
  reflexivity.
Qed.

Lemma normalize_again_list (l : list pyval) :
  to_item_dict <$> (PDict <$> (to_item_dict <$> l)) = to_item_dict <$> l.
Proof.
  induction l as [|it l IH]; [reflexivity|].
  cbn [fmap list_fmap] in *. now rewrite to_item_dict_again, IH.
Qed.

(** X6. Normalizing is idempotent: the cues [normalize_transcript_obj]
    returns, handed back to it as a list of dictionaries, are returned
    unchanged. *)
Theorem normalize_idempotent :
  forall obj cues,
    normalize_transcript_obj obj = Ok cues ->
    normalize_transcript_obj (PList (PDict <$> cues)) = Ok cues.
Proof.
  intros obj cues H. destruct (normalize_shape obj cues H) as [l ->].
  cbn [normalize_transcript_obj]. now rewrite normalize_again_list.
Qed.

(** X6, witness: the cue of [[{text: hi, start: 1.0}]] is normalized to
    itself. *)
Lemma normalize_idempotent_witness :
  normalize_transcript_obj
    (PList (PDict <$> [five (PStr "hi") (PFloat 1) PNone PNone PNone]))
  = Ok [five (PStr "hi") (PFloat 1) PNone PNone PNone].
Proof.
  apply (normalize_idempotent (PList [hi_dict])).
  vm_compute. reflexivity.
Defined.

Lemma null_cues (l : list string) :
  to_item_dict <$> (PStr <$> l) = replicate (length l) null_cue.
Proof.
  induction l as [|k l IH]; [reflexivity|].
  cbn [fmap list_fmap length replicate] in *. rewrite IH.
  f_equal; now rewrite to_item_dict_inserts.
Qed.

Lemma chars_null (s : string) :
  to_item_dict <$> chars s = replicate (String.length s) null_cue.
Proof.
  induction s as [|c s IH]; [reflexivity|].
  cbn [chars fmap list_fmap String.length replicate] in *. rewrite IH.
  f_equal; now rewrite to_item_dict_inserts.
Qed.

(** X7. A dictionary or a string handed to the normalizer is iterated like
    any other iterable: a dictionary gives one cue per key and a string one
    cue per character, each with five null fields, so that a single cue
    dictionary passed on its own loses its content. The empty dictionary
    and the empty string fail with NormalizationError. *)
Theorem bare_dict_or_string_gives_null_cues :
  (forall d,
      normalize_transcript_obj (PDict d)
      = match size d with
        | O => Raise NormalizationError
        | n => Ok (replicate n null_cue)
        end)
  /\ (forall s,
        normalize_transcript_obj (PStr s)
        = match String.length s with
          | O => Raise NormalizationError
          | n => Ok (replicate n null_cue)
          end).
Proof.
  split.
  - intros d. cbn [normalize_transcript_obj iterate].
    rewrite <- length_map_to_list.
    rewrite <- (length_fmap fst (map_to_list d)).
    destruct ((map_to_list d).*1) as [|k ks] eqn:E; [reflexivity|].
    change (PStr <$> k :: ks) with (PStr k :: (PStr <$> ks)).
    cbv iota. f_equal. exact (null_cues (k :: ks)).
  - intros s. cbn [normalize_transcript_obj iterate].
    destruct s as [|c s]; [reflexivity|].
    cbn [chars]. cbv iota. f_equal. exact (chars_null (String c s)).
Qed.

(** ** Retrieval *)

Lemma rebuild_five it :
  rebuild it
  = five (item_field it "text") (item_field it "start")
      (item_field it "duration") (item_field it "speaker")
      (item_field it "confidence").
Proof. now destruct it. Qed.

Lemma rebuild_normalized it : rebuild (PDict (to_item_dict it)) = to_item_dict it.
Proof.
  rewrite rebuild_five. rewrite <- (to_item_dict_inserts (PDict _)).
  apply to_item_dict_again.
Qed.

Lemma rebuild_normalized_list (l : list pyval) :
  rebuild <$> (PDict <$> (to_item_dict <$> l)) = to_item_dict <$> l.
Proof.
  induction l as [|it l IH]; [reflexivity|].
  cbn [fmap list_fmap] in *. now rewrite rebuild_normalized, IH.
Qed.

Lemma download_transcript_rebuilt raw fallback items :
  download_transcript raw fallback = Ok items ->
  exists it its, items = rebuild <$> (it :: its).
Proof.
  unfold download_transcript.
  destruct (match raw with
            | Ok r => _
            | Raise e => _
            end) as [its err].
  destruct (match its with
            | Some (it :: l) => Ok (Some (it :: l))
            | _ => fallback
            end) as [[[|it l]|]|e]; cbn [mbind res_bind]; try discriminate.
  intros [= <-]. now exists it, l.
Qed.

(** X8. [download_transcript] never returns an empty transcript: when it
    returns, there is at least one item, and every item is a dictionary
    with exactly the five keys text, start, duration, speaker and
    confidence, whether the items came from the library or from the
    subtitle fallback. *)
Theorem download_transcript_result :
  forall raw fallback items,
    download_transcript raw fallback = Ok items ->
    items <> [] /\ Forall (fun d => dom d = cue_keys) items.
Proof.
  intros raw fallback items H.
  apply download_transcript_rebuilt in H as (it & its & ->).
  split; [discriminate|].
  apply Forall_fmap, Forall_forall. intros x _. cbn.
  rewrite rebuild_five. apply five_dom.
Qed.

(** X8, witness: the library fails and the fallback gives one cue. *)
Lemma download_transcript_result_witness :
  [five (PStr "hi") (PFloat 1) PNone PNone PNone] <> []
  /\ Forall (fun d => dom d = cue_keys)
       [five (PStr "hi") (PFloat 1) PNone PNone PNone].
Proof.
  apply (download_transcript_result (Raise NormalizationError)
           (Ok (Some [hi_dict]))).
  vm_compute. reflexivity.
Defined.

(** X9. When the library's result normalizes to at least one cue,
    [download_transcript] returns exactly these cues: the subtitle fallback
    is not consulted, and the last loop, which rebuilds every item from its
    five fields, changes nothing. *)
Theorem library_transcript_returned_as_normalized :
  forall r c cues fallback,
    normalize_transcript_obj r = Ok (c :: cues) ->
    download_transcript (Ok r) fallback = Ok (c :: cues).
Proof.
  intros r c cues fallback H. unfold download_transcript. rewrite H.
  destruct (normalize_shape r _ H) as [l E]. rewrite E.
  destruct l as [|x l]; [discriminate|].
  change (PDict <$> (to_item_dict <$> x :: l))
    with (PDict (to_item_dict x) :: (PDict <$> (to_item_dict <$> l))).
  cbn [mbind res_bind]. f_equal.
  exact (rebuild_normalized_list (x :: l)).
Qed.

(** X9, witness: the library gives one cue and the fallback would raise. *)
Lemma library_transcript_returned_as_normalized_witness :
  download_transcript (Ok (PList [hi_dict])) (Raise NormalizationError)
  = Ok [five (PStr "hi") (PFloat 1) PNone PNone PNone].
Proof.
  apply (library_transcript_returned_as_normalized (PList [hi_dict])).
  vm_compute. reflexivity.
Defined.

(** X10. The loop of [main] that calls [setdefault] for the five keys on
    every downloaded item never changes an item: what
    [download_transcript] returns has the five keys already. *)
Theorem main_setdefault_loop_is_identity :
  forall raw fallback items,
    download_transcript raw fallback = Ok items ->
    ensure_keys <$> items = items.
Proof.
  intros raw fallback items H.
  apply download_transcript_rebuilt in H as (it & its & ->).
  generalize (it :: its). intros l.
  induction l as [|x l IH]; [reflexivity|].
  cbn [fmap list_fmap] in *. rewrite IH. f_equal.
  rewrite rebuild_five. apply five_setdefault.
Qed.

(** X10, witness: the cue obtained from the fallback is left as it is. *)
Lemma main_setdefault_loop_is_identity_witness :
  ensure_keys <$> [five (PStr "hi") (PFloat 1) PNone PNone PNone]
  = [five (PStr "hi") (PFloat 1) PNone PNone PNone].
Proof.
  apply (main_setdefault_loop_is_identity (Raise NormalizationError)
           (Ok (Some [hi_dict]))).
  vm_compute. reflexivity.
Defined.

(** ** The subtitle parser on arbitrary text *)

(** *** What a match of the patterns captures *)

Lemma greedy_inv {A} p min s (k : string -> option A) x :
  Re.greedy p min s k = Some x ->
  exists run rest,
    s = run +:+ rest /\ Str.forallb p run = true
    /\ (min <= String.length run)%nat /\ k rest = Some x.
Proof.
  revert min. induction s as [|c s IH]; intros min; cbn [Re.greedy].
  - destruct min; [|discriminate]. intros H.
    exists EmptyString, EmptyString. repeat split; auto.
  - destruct (p c) eqn:Hc.
    + destruct (Re.greedy p (pred min) s k) as [y|] eqn:G.
      * intros [= <-]. destruct (IH _ G) as (run & rest & -> & Hr & Hm & Hk).
        exists (String c run), rest. simpl. rewrite Hc, Hr.
        repeat split; auto. lia.
      * destruct min; [|discriminate]. intros H.
        exists EmptyString, (String c s). repeat split; auto.
    + destruct min; [|discriminate]. intros H.
      exists EmptyString, (String c s). repeat split; auto.
Qed.

Lemma lazy_inv {A} p s (k : string -> option A) x :
  Re.lazy p s k = Some x -> exists rest, k rest = Some x.
Proof.
  induction s as [|c s IH]; cbn [Re.lazy].
  - destruct (k EmptyString) eqn:K; [|discriminate]. intros [= <-]. eauto.
  - destruct (k (String c s)) eqn:K.
    + intros [= <-]. eauto.
    + destruct (p c); [exact IH | discriminate].
Qed.

Lemma exec_class_inv {A} p r s caps (k : string -> captures -> option A) x :
  Re.exec (Class p · r)%re s caps k = Some x ->
  exists c s', s = String c s' /\ p c = true /\ Re.exec r s' caps k = Some x.
Proof.
  cbn [Re.exec]. destruct s as [|c s]; [discriminate|].
  destruct (p c) eqn:E; [|discriminate]. intros H. now exists c, s.
Qed.

Lemma exec_chr_inv {A} a r s caps (k : string -> captures -> option A) x :
  Re.exec (Chr a · r)%re s caps k = Some x ->
  exists s', s = String a s' /\ Re.exec r s' caps k = Some x.
Proof.
  cbn [Re.exec]. destruct s as [|c s]; [discriminate|].
  destruct (Ascii.eqb_spec c a) as [->|]; [|discriminate]. intros H.
  now exists s.
Qed.

Lemma exec_timestamp_inv {A} sep s caps (k : string -> captures -> option A) x :
  Re.exec (timestamp_re sep) s caps k = Some x ->
  exists ts rest, s = ts +:+ rest /\ is_ts sep ts /\ k rest caps = Some x.
Proof.
  unfold timestamp_re, digit. intros H.
  apply exec_class_inv in H as (h1 & s1 & -> & H1 & H).
  apply exec_class_inv in H as (h2 & s2 & -> & H2 & H).
  apply exec_chr_inv in H as (s3 & -> & H).
  apply exec_class_inv in H as (m1 & s4 & -> & H3 & H).
  apply exec_class_inv in H as (m2 & s5 & -> & H4 & H).
  apply exec_chr_inv in H as (s6 & -> & H).
  apply exec_class_inv in H as (d1 & s7 & -> & H5 & H).
  apply exec_class_inv in H as (d2 & s8 & -> & H6 & H).
  apply exec_chr_inv in H as (s9 & -> & H).
  cbn [Re.exec] in H.
  apply greedy_inv in H as (ms & rest & -> & Hms & Hlen & Hk).
  exists (String h1 (String h2 (String ":" (String m1 (String m2 (String ":"
            (String d1 (String d2 (String sep ms))))))))), rest.
  split; [reflexivity|]. split; [|exact Hk].
  exists h1, h2, m1, m2, d1, d2, ms. repeat split; auto.
  intros ->. simpl in Hlen. lia.
Qed.

Lemma exec_group_timestamp_inv {A} n sep r s caps
    (k : string -> captures -> option A) x :
  Re.exec (Group n (timestamp_re sep) · r)%re s caps k = Some x ->
  exists ts rest,
    is_ts sep ts /\ Re.exec r rest (<[n := ts]> caps) k = Some x.
Proof.
  rewrite exec_seq. cbn [Re.exec]. intros H.
  apply exec_timestamp_inv in H as (ts & rest & -> & Hts & H).
  rewrite taken_app in H. now exists ts, rest.
Qed.

Lemma exec_greedy_inv {A} p min r s caps (k : string -> captures -> option A) x :
  Re.exec (Greedy p min · r)%re s caps k = Some x ->
  exists rest, Re.exec r rest caps k = Some x.
Proof.
  rewrite exec_seq. cbn [Re.exec]. intros H.
  apply greedy_inv in H as (run & rest & _ & _ & _ & H). now exists rest.
Qed.

Lemma ahead_keeps s caps caps' :
  Re.exec (Alt (Greedy (Ascii.eqb newline) 2) EndZ) s caps
    (fun _ c => Some c) = Some caps' ->
  caps' = caps.
Proof.
  cbn [Re.exec].
  destruct (Re.greedy (Ascii.eqb newline) 2 s (fun _ => Some caps)) as [c|] eqn:G.
  - intros [= <-]. apply greedy_inv in G as (_ & _ & _ & _ & _ & G).
    now injection G.
  - destruct s; [|discriminate]. now intros [= <-].
Qed.

Lemma exec_body_inv {A} s caps (k : string -> captures -> option A) x :
  Re.exec body_re s caps k = Some x ->
  exists g3 rest, k rest (<[3%nat := g3]> caps) = Some x.
Proof.
  unfold body_re. rewrite exec_seq. cbn [Re.exec]. intros H.
  apply lazy_inv in H as (rest & H).
  destruct (Re.greedy _ _ _ _) as [c|] eqn:G.
  - apply greedy_inv in G as (_ & _ & _ & _ & _ & G). injection G as <-.
    now exists (Re.taken s rest), rest.
  - destruct rest; [|discriminate]. now exists (Re.taken s EmptyString), EmptyString.
Qed.

Lemma exec_timing_inv {A} sep s caps (k : string -> captures -> option A) x :
  Re.exec (timing_re sep) s caps k = Some x ->
  exists ts1 ts2 g3 rest,
    is_ts sep ts1 /\ is_ts sep ts2
    /\ k rest (<[3%nat := g3]> (<[2%nat := ts2]> (<[1%nat := ts1]> caps)))
       = Some x.
Proof.
  unfold timing_re, spaces. intros H.
  apply exec_group_timestamp_inv in H as (ts1 & r1 & T1 & H).
  apply exec_greedy_inv in H as (r2 & H).
  apply exec_chr_inv in H as (r3 & _ & H).
  apply exec_chr_inv in H as (r4 & _ & H).
  apply exec_chr_inv in H as (r5 & _ & H).
  apply exec_greedy_inv in H as (r6 & H).
  apply exec_group_timestamp_inv in H as (ts2 & r7 & T2 & H).
  apply exec_greedy_inv in H as (r8 & H).
  apply exec_chr_inv in H as (r9 & _ & H).
  apply exec_body_inv in H as (g3 & rest & H).
  now exists ts1, ts2, g3, rest.
Qed.

Lemma vtt_match_caps s len caps :
  Re.match_here vtt_pattern s = Some (len, caps) ->
  exists ts1 ts2 g3,
    is_ts "." ts1 /\ is_ts "." ts2 /\ caps = block_caps ts1 ts2 g3.
Proof.
  unfold Re.match_here, vtt_pattern. intros H.
  apply exec_timing_inv in H as (ts1 & ts2 & g3 & rest & T1 & T2 & H).
  injection H as _ <-. now exists ts1, ts2, g3.
Qed.

Lemma srt_match_caps s len caps :
  Re.match_here srt_pattern s = Some (len, caps) ->
  exists ts1 ts2 g3,
    is_ts "," ts1 /\ is_ts "," ts2 /\ caps = block_caps ts1 ts2 g3.
Proof.
  unfold Re.match_here, srt_pattern, spaces. intros H.
  apply exec_greedy_inv in H as (r1 & H).
  apply exec_greedy_inv in H as (r2 & H).
  apply exec_chr_inv in H as (r3 & _ & H).
  apply exec_timing_inv in H as (ts1 & ts2 & g3 & rest & T1 & T2 & H).
  injection H as _ <-. now exists ts1, ts2, g3.
Qed.

Lemma scan_elem r s skip caps :
  caps ∈ Re.scan r s skip ->
  exists s' len, Re.match_here r s' = Some (len, caps).
Proof.
  revert skip. induction s as [|c s IH]; intros [|skip]; cbn [Re.scan].
  - destruct (Re.match_here r EmptyString) as [[len caps']|] eqn:M.
    + intros Hin. apply list_elem_of_singleton in Hin as ->. eauto.
    + intros Hin. now apply elem_of_nil in Hin.
  - intros Hin. now apply elem_of_nil in Hin.
  - destruct (Re.match_here r (String c s)) as [[len caps']|] eqn:M.
    + intros Hin. apply elem_of_cons in Hin as [->|Hin]; eauto.
    + apply IH.
  - apply IH.
Qed.

(** *** Captured timestamps always convert *)

Lemma digit_not_colon c : Str.is_digit c = true -> is_not ":" c = true.
Proof. by_character c. Qed.

Lemma digit_not_dot c : Str.is_digit c = true -> is_not "." c = true.
Proof. by_character c. Qed.

Lemma digit_not_comma c : Str.is_digit c = true -> is_not "," c = true.
Proof. by_character c. Qed.

Lemma digit_no_space c : Str.is_digit c = true -> negb (Str.is_space c) = true.
Proof. by_character c. Qed.

Lemma digits_value_some s acc :
  Str.forallb Str.is_digit s = true -> exists z, digits_value s acc = Some z.
Proof.
  revert acc. induction s as [|c s IH]; intros acc; simpl; [eauto|].
  rewrite andb_true_iff. intros [-> Hs]. now apply IH.
Qed.

Lemma py_int_digits s :
  Str.forallb Str.is_digit s = true -> s <> EmptyString ->
  exists z, py_int s = Ok z.
Proof.
  intros Hs Hne. unfold py_int.
  destruct (digits_value_some s 0 Hs) as [z E].
  destruct s; [contradiction|]. rewrite E. eauto.
Qed.

Lemma py_float_decimal ip fp :
  Str.forallb Str.is_digit ip = true -> Str.forallb Str.is_digit fp = true ->
  fp <> EmptyString ->
  exists f, py_float (ip +:+ String "." fp) = Ok f.
Proof.
  intros Hi Hf Hne. unfold py_float.
  rewrite split_first_at by (revert Hi; apply forallb_impl, digit_not_dot).
  assert (Hd : Str.forallb Str.is_digit (ip +:+ fp) = true)
    by (rewrite forallb_append, Hi, Hf; reflexivity).
  destruct (digits_value_some _ 0 Hd) as [n E].
  destruct (ip +:+ fp) eqn:E'; [|rewrite E; eauto].
  destruct ip; [|discriminate]. simpl in E'. contradiction.
Qed.

Lemma to_secs_ts ts : is_ts "." ts -> exists v, to_secs ts = Ok v.
Proof.
  intros (h1 & h2 & m1 & m2 & s1 & s2 & ms & -> & H1 & H2 & H3 & H4 & H5
          & H6 & Hms & Hne).
  change (String h1 (String h2 (String ":" (String m1 (String m2 (String ":"
            (String s1 (String s2 (String "." ms)))))))))
    with (String h1 (String h2 EmptyString) +:+ ":"
          +:+ String m1 (String m2 EmptyString) +:+ ":"
          +:+ (String s1 (String s2 EmptyString) +:+ String "." ms)).
  rewrite to_secs_fields.
  - destruct (py_int_digits (String h1 (String h2 EmptyString))) as [hh ->];
      [simpl; now rewrite H1, H2 | discriminate |].
    destruct (py_int_digits (String m1 (String m2 EmptyString))) as [mm ->];
      [simpl; now rewrite H3, H4 | discriminate |].
    destruct (py_float_decimal (String s1 (String s2 EmptyString)) ms)
      as [ss ->]; [simpl; now rewrite H5, H6 | exact Hms | exact Hne |].
    cbn [mbind res_bind]. eauto.
  - simpl. now rewrite (digit_not_colon _ H1), (digit_not_colon _ H2).
  - simpl. now rewrite (digit_not_colon _ H3), (digit_not_colon _ H4).
  - simpl. rewrite (digit_not_colon _ H5), (digit_not_colon _ H6).
    simpl. revert Hms. apply forallb_impl, digit_not_colon.
Qed.

Lemma strip_ts sep ts : is_ts sep ts -> Str.strip Str.is_space ts = ts.
Proof.
  intros (h1 & h2 & m1 & m2 & s1 & s2 & ms & -> & H1 & H2 & H3 & H4 & H5
          & H6 & Hms & Hne).
  unfold Str.strip. rewrite lstrip_keep by now apply digit_not_space.
  change (String h1 (String h2 (String ":" (String m1 (String m2 (String ":"
            (String s1 (String s2 (String sep ms)))))))))
    with (String h1 (String h2 (String ":" (String m1 (String m2 (String ":"
            (String s1 (String s2 (String sep EmptyString))))))))
          +:+ ms).
  apply rstrip_app_keep; [exact Hne|].
  apply rstrip_keep. revert Hms. apply forallb_impl, digit_no_space.
Qed.

Lemma comma_ts ts : is_ts "," ts -> is_ts "." (Str.replace "," "." ts).
Proof.
  intros (h1 & h2 & m1 & m2 & s1 & s2 & ms & -> & H1 & H2 & H3 & H4 & H5
          & H6 & Hms & Hne).
  exists h1, h2, m1, m2, s1, s2, ms. repeat split; auto.
  cbn [Str.replace].
  pose proof (digit_not_comma _ H1) as E1. pose proof (digit_not_comma _ H2) as E2.
  pose proof (digit_not_comma _ H3) as E3. pose proof (digit_not_comma _ H4) as E4.
  pose proof (digit_not_comma _ H5) as E5. pose proof (digit_not_comma _ H6) as E6.
  unfold is_not in *. rewrite negb_true_iff in *.
  rewrite E1, E2, E3, E4, E5, E6.
  rewrite replace_none by (revert Hms; apply forallb_impl, digit_not_comma).
  reflexivity.
Qed.

Lemma cue_timing_ts ts1 ts2 :
  is_ts "." ts1 -> is_ts "." ts2 ->
  exists s d, cue_timing ts1 ts2 = (Some s, Some d).
Proof.
  intros T1 T2. unfold cue_timing.
  destruct (to_secs_ts ts1 T1) as [s ->]. destruct (to_secs_ts ts2 T2) as [e ->].
  eauto.
Qed.

Lemma group_caps ts1 ts2 g3 :
  Re.group 1 (block_caps ts1 ts2 g3) = ts1
  /\ Re.group 2 (block_caps ts1 ts2 g3) = ts2
  /\ Re.group 3 (block_caps ts1 ts2 g3) = g3.
Proof. repeat split. Qed.

Lemma vtt_cue_timed ts1 ts2 g3 :
  is_ts "." ts1 -> is_ts "." ts2 -> timed (vtt_cue (block_caps ts1 ts2 g3)).
Proof.
  intros T1 T2. unfold vtt_cue.
  destruct (group_caps ts1 ts2 g3) as (-> & -> & ->).
  rewrite (strip_ts _ _ T1), (strip_ts _ _ T2).
  destruct (cue_timing_ts ts1 ts2 T1 T2) as (s & d & ->).
  split; cbn; eauto.
Qed.

Lemma srt_cue_timed ts1 ts2 g3 :
  is_ts "," ts1 -> is_ts "," ts2 -> timed (srt_cue (block_caps ts1 ts2 g3)).
Proof.
  intros T1 T2. unfold srt_cue.
  destruct (group_caps ts1 ts2 g3) as (-> & -> & ->).
  rewrite (strip_ts _ _ T1), (strip_ts _ _ T2).
  destruct (cue_timing_ts _ _ (comma_ts _ T1) (comma_ts _ T2)) as (s & d & ->).
  split; cbn; eauto.
Qed.

Lemma matched_blocks_timed data c :
  c ∈ vtt_cues data \/ c ∈ srt_cues data -> timed c.
Proof.
  intros [H | H].
  - unfold vtt_cues, Re.finditer in H.
    apply list_elem_of_fmap in H as (caps & -> & H).
    apply scan_elem in H as (s' & len & H).
    apply vtt_match_caps in H as (ts1 & ts2 & g3 & T1 & T2 & ->).
    now apply vtt_cue_timed.
  - unfold srt_cues, Re.finditer in H.
    apply list_elem_of_fmap in H as (caps & -> & H).
    apply scan_elem in H as (s' & len & H).
    apply srt_match_caps in H as (ts1 & ts2 & g3 & T1 & T2 & ->).
    now apply srt_cue_timed.
Qed.

(** X11. Every block that the VTT pattern or the SRT pattern matches, in
    any text, gives a cue with a start and a duration: the timestamps the
    patterns capture always convert, so the branch of the parser that sets
    both fields to null is never taken for a matched block. *)
Theorem matched_blocks_are_timed :
  forall data c, c ∈ vtt_cues data \/ c ∈ srt_cues data -> timed c.
Proof. intros data c H. exact (matched_blocks_timed data c H). Qed.

(** X11, witness: the cue of a VTT block whose end precedes its start. *)
Lemma matched_blocks_are_timed_witness :
  timed (mkCue (Some "hi") (Some 5%float) (Some (-2)%float) None None).
Proof.
  apply (matched_blocks_are_timed
           ("00:00:05.000 --> 00:00:03.000" +:+ nl +:+ "hi")).
  left. vm_compute. apply list_elem_of_here.
Defined.

(** *** Texts are trimmed lines *)

Lemma replace_no_newline s :
  Str.forallb (is_not newline) (Str.replace newline " " s) = true.
Proof.
  induction s as [|c s IH]; [reflexivity|].
  cbn [Str.replace Str.forallb]. rewrite IH, andb_true_r.
  unfold is_not. destruct (Ascii.eqb c newline) eqn:E; [reflexivity|].
  now rewrite E.
Qed.

Lemma lstrip_stops p s : stops p (Str.lstrip p s).
Proof.
  induction s as [|c s IH]; [exact I|]. cbn [Str.lstrip].
  destruct (p c) eqn:E; [exact IH | exact E].
Qed.

Lemma rstrip_stops p s : stops p s -> stops p (Str.rstrip p s).
Proof.
  destruct s as [|c s]; [trivial|]. cbn [Str.rstrip stops]. intros Hc.
  destruct (Str.rstrip p s); [now rewrite Hc | exact Hc].
Qed.

Lemma replace_stops p a b s :
  p a = true -> stops p s -> stops p (Str.replace a b s).
Proof.
  intros Ha. destruct s as [|c s]; [trivial|]. cbn [Str.replace stops].
  intros Hc. destruct (Ascii.eqb_spec c a) as [->|]; [congruence | exact Hc].
Qed.

Lemma rstrip_idem p s : Str.rstrip p (Str.rstrip p s) = Str.rstrip p s.
Proof.
  induction s as [|c s IH]; [reflexivity|]. cbn [Str.rstrip].
  destruct (Str.rstrip p s) as [|d r] eqn:E.
  - destruct (p c) eqn:Hc; [reflexivity|]. cbn [Str.rstrip]. now rewrite Hc.
  - cbn [Str.rstrip]. cbn [Str.rstrip] in IH. now rewrite IH.
Qed.

Lemma rstrip_replace p a b s :
  p a = true -> Str.rstrip p s = s ->
  Str.rstrip p (Str.replace a b s) = Str.replace a b s.
Proof.
  intros Ha. induction s as [|c s IH]; [reflexivity|].
  cbn [Str.rstrip Str.replace].
  destruct (Str.rstrip p s) as [|d r] eqn:E.
  - destruct (p c) eqn:Hc; [discriminate|]. intros [= <-].
    cbn [Str.replace Str.rstrip].
    destruct (Ascii.eqb_spec c a) as [->|]; [congruence|]. now rewrite Hc.
  - intros [= Hs]. rewrite <- Hs in *. rewrite (IH eq_refl). reflexivity.
Qed.

Lemma strip_replace_strip s :
  Str.strip Str.is_space (Str.replace newline " " (Str.strip Str.is_space s))
  = Str.replace newline " " (Str.strip Str.is_space s).
Proof.
  unfold Str.strip at 1.
  rewrite lstrip_keep.
  - apply rstrip_replace; [reflexivity|]. apply rstrip_idem.
  - apply (replace_stops Str.is_space); [reflexivity|].
    apply rstrip_stops, lstrip_stops.
Qed.

Lemma strip_idem p s : Str.strip p (Str.strip p s) = Str.strip p s.
Proof.
  unfold Str.strip at 1. rewrite lstrip_keep.
  - apply rstrip_idem.
  - apply rstrip_stops, lstrip_stops.
Qed.

Lemma cue_text_trimmed g : trimmed_line (cue_text g).
Proof.
  split; [apply replace_no_newline | apply strip_replace_strip].
Qed.

Lemma vtt_cue_fields mm :
  speaker (vtt_cue mm) = None /\ confidence (vtt_cue mm) = None
  /\ text (vtt_cue mm) = Some (cue_text (Re.group 3 mm)).
Proof. unfold vtt_cue. now destruct (cue_timing _ _). Qed.

Lemma srt_cue_fields mm :
  speaker (srt_cue mm) = None /\ confidence (srt_cue mm) = None
  /\ text (srt_cue mm) = Some (cue_text (Re.group 3 mm)).
Proof. unfold srt_cue. now destruct (cue_timing _ _). Qed.

Lemma part_cue_fields p c :
  part_cue p = Some c ->
  exists t, c = mkCue (Some t) None None None None
            /\ t <> EmptyString /\ trimmed_line t.
Proof.
  unfold part_cue.
  destruct (Str.strip Str.is_space _) as [|a q] eqn:E; [discriminate|].
  intros [= <-]. exists (String a q). split; [reflexivity|].
  split; [discriminate|]. rewrite <- E. split.
  - apply strip_forallb, replace_no_newline.
  - apply strip_idem.
Qed.

Lemma parse_subtitles_cases data cues :
  parse_subtitles data = Some cues ->
  cues <> []
  /\ (cues = vtt_cues data \/ cues = srt_cues data
      \/ cues = blank_line_cues data).
Proof.
  unfold parse_subtitles, timed_cues.
  destruct (vtt_cues data) as [|c1 l1].
  - destruct (srt_cues data) as [|c2 l2].
    + destruct (blank_line_cues data) as [|c3 l3]; [discriminate|].
      intros [= <-]. split; [discriminate | auto].
    + intros [= <-]. split; [discriminate | auto].
  - intros [= <-]. split; [discriminate | auto].
Qed.

(** X12. Whatever the subtitle text, the parser never returns an empty
    cue list (it returns [None] instead), and every cue it returns has a
    null speaker, a null confidence, and a text that is a single line
    without white space at either end. *)
Theorem parsed_cues_well_formed :
  forall data cues,
    parse_subtitles data = Some cues ->
    cues <> []
    /\ Forall (fun c => speaker c = None /\ confidence c = None
                        /\ exists t, text c = Some t /\ trimmed_line t) cues.
Proof.
  intros data cues H.
  apply parse_subtitles_cases in H as [Hne [-> | [-> | ->]]];
    (split; [exact Hne|]); apply Forall_forall; intros c Hc.
  - apply list_elem_of_fmap in Hc as (mm & -> & _).
    destruct (vtt_cue_fields mm) as (-> & -> & ->).
    repeat split. eexists. split; [reflexivity | apply cue_text_trimmed].
  - apply list_elem_of_fmap in Hc as (mm & -> & _).
    destruct (srt_cue_fields mm) as (-> & -> & ->).
    repeat split. eexists. split; [reflexivity | apply cue_text_trimmed].
  - apply list_elem_of_omap in Hc as (p & _ & Hp).
    apply part_cue_fields in Hp as (t & -> & _ & Ht).
    repeat split. now exists t.
Qed.

(** X12, witness: a text without timing lines, parsed by the blank-line
    fallback. *)
Lemma parsed_cues_well_formed_witness :
  [mkCue (Some "hello world") None None None None] <> []
  /\ Forall (fun c => speaker c = None /\ confidence c = None
                      /\ exists t, text c = Some t /\ trimmed_line t)
       [mkCue (Some "hello world") None None None None].
Proof.
  apply (parsed_cues_well_formed ("1" +:+ nl +:+ " hello" +:+ nl +:+ "world ")).
  vm_compute. reflexivity.
Defined.

(** X13. A parsed transcript is timed throughout or not at all: either
    every cue has a start and a duration (the text had VTT or SRT blocks),
    or every cue has neither and a text that is not empty (the text was
    split on blank lines). *)
Theorem parsed_cues_all_timed_or_all_untimed :
  forall data cues,
    parse_subtitles data = Some cues ->
    Forall timed cues
    \/ Forall (fun c => untimed c /\ text c <> Some EmptyString) cues.
Proof.
  intros data cues H.
  apply parse_subtitles_cases in H as [_ [-> | [-> | ->]]].
  - left. apply Forall_forall. intros c Hc.
    apply (matched_blocks_timed data). now left.
  - left. apply Forall_forall. intros c Hc.
    apply (matched_blocks_timed data). now right.
  - right. apply Forall_forall. intros c Hc.
    apply list_elem_of_omap in Hc as (p & _ & Hp).
    apply part_cue_fields in Hp as (t & -> & Hne & _).
    split; [now split|]. cbn. congruence.
Qed.

(** X13, witness: a text with one VTT block. *)
Lemma parsed_cues_all_timed_or_all_untimed_witness :
  Forall timed [mkCue (Some "hi") (Some 61.5%float) (Some 2.5%float) None None]
  \/ Forall (fun c => untimed c /\ text c <> Some EmptyString)
       [mkCue (Some "hi") (Some 61.5%float) (Some 2.5%float) None None].
Proof.
  apply (parsed_cues_all_timed_or_all_untimed
           ("00:01:01.500 --> 00:01:04.000" +:+ nl +:+ "hi")).
  vm_compute. reflexivity.
Defined.

(** ** The video id, once more *)

(** X14. An identifier that [extract_video_id] takes from the path of a
    URL (the query gave no value of [v]) is always a clean token: it is made
    of letters, digits, hyphens and underscores only, and has at least six
    characters. The newline that [$] of the pattern would tolerate before
    the end cannot occur, since the URL parser has removed line breaks. *)
Theorem path_id_is_clean :
  forall (urllib : UrlLib) url parsed c,
    Url.urlparse url = Ok parsed ->
    query_v parsed = None ->
    extract_video_id url = Ok c ->
    Str.forallb is_id_char c = true /\ (6 <= String.length c)%nat.
Proof.
  intros urllib url parsed c Hu Hq. unfold extract_video_id. rewrite Hu.
  cbn [mbind res_bind]. rewrite Hq.
  destruct (path_candidate parsed) as [cand|] eqn:P; [|discriminate].
  destruct (match_video_id cand) eqn:M; [|discriminate].
  intros [= <-]. apply match_video_id_kept; [|exact M].
  apply (path_candidate_kept parsed); [|exact P].
  rewrite (urlparse_ok url parsed Hu). apply parse_parts_path_kept.
Qed.

(** X14, witness: the identifier of a short URL. *)
Lemma path_id_is_clean_witness :
  Str.forallb is_id_char "dQw4w9WgXcQ" = true
  /\ (6 <= String.length "dQw4w9WgXcQ")%nat.
Proof.
  apply (path_id_is_clean decode_lib "https://youtu.be/dQw4w9WgXcQ"
           (parse_parts "https://youtu.be/dQw4w9WgXcQ"));
    vm_compute; reflexivity.
Defined.

Lemma query_plain_facts c :
  query_plain c = true ->
  url_plain c = true /\ is_not ":" c = true /\ is_not "&" c = true
  /\ is_not "+" c = true /\ is_not "%" c = true.
Proof. by_character c. Qed.

Lemma query_plain_all (q : ascii -> bool) v :
  (forall c, query_plain c = true -> q c = true) ->
  Str.forallb query_plain v = true -> Str.forallb q v = true.
Proof. apply forallb_impl. Qed.

Lemma plain_query base v :
  Str.forallb url_plain base = true ->
  Str.forallb query_plain v = true ->
  query (parse_parts (base +:+ "?v=" +:+ v)) = "v=" +:+ v.
Proof.
  intros Hb Hv. rewrite urlparse_query. unfold url_parts.
  assert (Hvp : Str.forallb url_plain v = true).
  { revert Hv. apply query_plain_all. intros c Hc.
    now apply query_plain_facts in Hc. }
  rewrite urlsplit_clean.
  2:{ right. exists base, ("v=" +:+ v). repeat split; auto. }
  destruct (split_scheme_tail base ("?v=" +:+ v)) as (sch & pre & b1 & -> & E).
  { simpl. revert Hv. apply query_plain_all. intros c Hc.
    now apply query_plain_facts in Hc. }
  subst base. apply forallb_suffix in Hb.
  destruct (split_netloc_query b1 ("v=" +:+ v)) as (n & pre' & b' & E' & E).
  change ("?v=" +:+ v) with (String "?" ("v=" +:+ v)).
  rewrite E'. subst b1. apply forallb_suffix in Hb.
  rewrite split_first_none.
  2:{ rewrite forallb_append. simpl.
      rewrite (plain_not_fragment b' Hb), (plain_not_fragment v Hvp).
      reflexivity. }
  rewrite split_first_at by now apply plain_not_query.
  reflexivity.
Qed.

Lemma query_v_plain `{UrlLib} parsed v :
  query parsed = "v=" +:+ v ->
  v <> EmptyString ->
  Str.forallb query_plain v = true ->
  query_v parsed = Some v.
Proof.
  intros Hq Hne Hv. unfold query_v. rewrite Hq.
  change ("v=" +:+ v) with (String "v" (String "=" v)).
  cbv beta iota. unfold parse_qs, parse_qsl.
  rewrite split_single.
  2:{ change (String "v" (String "=" v)) with ("v=" +:+ v).
      rewrite forallb_append. apply andb_true_iff. split; [reflexivity|].
      revert Hv. apply query_plain_all. intros c Hc.
      now apply query_plain_facts in Hc. }
  cbn [flat_map]. unfold parse_field.
  change (Str.split_first "=" (String "v" (String "=" v)))
    with (Some (String "v" EmptyString, v)).
  destruct v as [|c v]; [contradiction|]. cbv beta iota.
  rewrite (replace_none "+" " " (String c v)).
  2:{ revert Hv. apply query_plain_all. intros a Ha.
      now apply query_plain_facts in Ha. }
  change (Str.replace "+" " " "v") with "v".
  rewrite (unquote_plain "v") by reflexivity.
  rewrite (unquote_plain (String c v)).
  2:{ apply contains_none. revert Hv. apply query_plain_all. intros a Ha.
      now apply query_plain_facts in Ha. }
  cbn [app fold_left]. unfold add_field. cbn [fst snd].
  rewrite lookup_empty, lookup_insert_eq. reflexivity.
Qed.



(** ** File names *)

Lemma map_chars_length f s : String.length (map_chars f s) = String.length s.
Proof. induction s as [|c s IH]; simpl; [reflexivity | now rewrite IH]. Qed.

Lemma map_chars_app f a b :
  map_chars f (a +:+ b) = map_chars f a +:+ map_chars f b.
Proof. induction a as [|c a IH]; simpl; [reflexivity | now rewrite IH]. Qed.

Lemma map_chars_ext f g s :
  (forall c, f c = g c) -> map_chars f s = map_chars g s.
Proof.
  intros H. induction s as [|c s IH]; simpl; [reflexivity|].
  now rewrite H, IH.
Qed.

Lemma map_chars_compose f g s :
  map_chars f (map_chars g s) = map_chars (fun c => f (g c)) s.
Proof. induction s as [|c s IH]; simpl; [reflexivity | now rewrite IH]. Qed.

Lemma map_chars_fixed (q : ascii -> bool) f s :
  (forall c, q c = true -> f c = c) ->
  Str.forallb q s = true -> map_chars f s = s.
Proof.
  intros H. induction s as [|c s IH]; simpl; [reflexivity|].
  rewrite andb_true_iff. intros [Hc Hs]. now rewrite (H c Hc), (IH Hs).
Qed.

Lemma forallb_map_chars q f s :
  Str.forallb q (map_chars f s) = Str.forallb (fun c => q (f c)) s.
Proof. induction s as [|c s IH]; simpl; [reflexivity | now rewrite IH]. Qed.

Lemma forallb_true q s : (forall c, q c = true) -> Str.forallb q s = true.
Proof.
  intros H. induction s as [|c s IH]; simpl; [reflexivity|].
  now rewrite H, IH.
Qed.

Lemma replace_map a b s :
  Str.replace a b s = map_chars (fun c => if Ascii.eqb c a then b else c) s.
Proof. induction s as [|c s IH]; simpl; [reflexivity | now rewrite IH]. Qed.

Lemma lower_map s : lower s = map_chars lower_char s.
Proof. induction s as [|c s IH]; simpl; [reflexivity | now rewrite IH]. Qed.

Lemma match_here_class p c s :
  Re.match_here (Class p) (String c s)
  = if p c then Some (1%nat, ∅) else None.
Proof.
  unfold Re.match_here. cbn [Re.exec]. destruct (p c); [|reflexivity].
  do 2 f_equal. cbn [String.length]. lia.
Qed.

Lemma re_sub_class p r s :
  re_sub (Class p) (String r EmptyString) s O
  = map_chars (fun c => if p c then r else c) s.
Proof.
  induction s as [|c s IH]; [reflexivity|].
  cbn [re_sub map_chars]. rewrite match_here_class.
  destruct (p c); cbn [String.append]; now rewrite IH.
Qed.

Lemma stops_map p f s :
  (forall c, p c = false -> p (f c) = false) ->
  stops p s -> stops p (map_chars f s).
Proof. intros H. destruct s as [|c s]; [trivial|]. cbn. apply H. Qed.

Lemma rstrip_map p f s :
  (forall c, p c = false -> p (f c) = false) ->
  Str.rstrip p s = s -> Str.rstrip p (map_chars f s) = map_chars f s.
Proof.
  intros H. induction s as [|c s IH]; [reflexivity|].
  cbn [Str.rstrip map_chars].
  destruct (Str.rstrip p s) as [|d r] eqn:E.
  - destruct (p c) eqn:Hc; [discriminate|]. intros [= <-].
    cbn [map_chars Str.rstrip]. now rewrite (H c Hc).
  - intros [= Hs]. rewrite <- Hs in *. rewrite (IH eq_refl). reflexivity.
Qed.

Lemma length_lstrip p s :
  (String.length (Str.lstrip p s) <= String.length s)%nat.
Proof.
  induction s as [|c s IH]; [reflexivity|]. cbn [Str.lstrip].
  destruct (p c); cbn [String.length]; lia.
Qed.

Lemma length_rstrip p s :
  (String.length (Str.rstrip p s) <= String.length s)%nat.
Proof.
  induction s as [|c s IH]; [reflexivity|]. cbn [Str.rstrip].
  destruct (Str.rstrip p s); [destruct (p c)|]; cbn [String.length] in *; lia.
Qed.

Lemma length_strip p s :
  (String.length (Str.strip p s) <= String.length s)%nat.
Proof.
  unfold Str.strip. pose proof (length_rstrip p (Str.lstrip p s)).
  pose proof (length_lstrip p s). lia.
Qed.

Lemma substring_length n s :
  (String.length (String.substring 0 n s) <= n)%nat.
Proof.
  revert s. induction n as [|n IH]; intros [|c s]; simpl; try lia.
  specialize (IH s). lia.
Qed.

Lemma substring_all n s :
  (String.length s <= n)%nat -> String.substring 0 n s = s.
Proof.
  revert s. induction n as [|n IH]; intros [|c s]; simpl; try reflexivity;
    try lia.
  intros H. rewrite IH; [reflexivity | lia].
Qed.

Lemma substring_short n s :
  (String.length (String.substring 0 n s) < n)%nat ->
  String.substring 0 n s = s.
Proof.
  revert s. induction n as [|n IH]; intros [|c s]; simpl; try reflexivity;
    try lia.
  intros H. rewrite IH; [reflexivity | lia].
Qed.

Lemma substring_forallb q n s :
  Str.forallb q s = true -> Str.forallb q (String.substring 0 n s) = true.
Proof.
  revert s. induction n as [|n IH]; intros [|c s]; simpl; try reflexivity.
  rewrite !andb_true_iff. intros [Hc Hs]. auto.
Qed.

Lemma sanitize_char c :
  (if is_illegal
        (if Ascii.eqb (if Ascii.eqb c "/" then "_" else c) backslash
         then "_" else if Ascii.eqb c "/" then "_" else c)
   then "_"
   else if Ascii.eqb (if Ascii.eqb c "/" then "_" else c) backslash
        then "_" else if Ascii.eqb c "/" then "_" else c)%char
  = safe_char c.
Proof. by_character c. Qed.

Lemma safe_char_facts c :
  legal (safe_char c) = true /\ safe_char (safe_char c) = safe_char c
  /\ (Str.is_space c = false -> Str.is_space (safe_char c) = false).
Proof.
  destruct c as [[] [] [] [] [] [] [] []]; vm_compute; repeat split; intros;
    try discriminate; reflexivity.
Qed.

Lemma legal_facts c :
  legal c = true ->
  is_not "/" c = true /\ is_not backslash c = true /\ safe_char c = c.
Proof. by_character c. Qed.

Lemma ext_char_facts c :
  ext_char (lower_char c) = true ->
  legal c = true /\ negb (Str.is_space c) = true.
Proof. by_character c. Qed.

Lemma lower_lower c : Str.is_lower c = true -> lower_char c = c.
Proof. by_character c. Qed.

(** [safe_filename], character by character. *)
Lemma safe_filename_chars name :
  safe_filename name
  = String.substring 0 200 (map_chars safe_char (Str.strip Str.is_space name)).
Proof.
  unfold safe_filename.
  change (String "_" EmptyString) with (String "_"%char EmptyString).
  rewrite re_sub_class, !replace_map, !map_chars_compose.
  f_equal. apply map_chars_ext, sanitize_char.
Qed.

Lemma safe_filename_legal name :
  Str.forallb legal (safe_filename name) = true.
Proof.
  rewrite safe_filename_chars. apply substring_forallb.
  rewrite forallb_map_chars. apply forallb_true.
  intros c. now destruct (safe_char_facts c).
Qed.

Lemma legal_no_separator s :
  Str.forallb legal s = true ->
  Str.contains "/" s = false /\ Str.contains backslash s = false.
Proof.
  intros H. split; apply contains_none; revert H; apply forallb_impl;
    intros c Hc; now apply legal_facts in Hc.
Qed.

Lemma safe_filename_bounds name :
  (String.length (safe_filename name) <= 200)%nat
  /\ Str.forallb legal (safe_filename name) = true
  /\ Str.contains "/" (safe_filename name) = false
  /\ Str.contains backslash (safe_filename name) = false.
Proof.
  split; [|split].
  - rewrite safe_filename_chars. apply substring_length.
  - apply safe_filename_legal.
  - apply legal_no_separator, safe_filename_legal.
Qed.

(** X16. Whatever the name, the result of [safe_filename] has at most 200
    characters, all of them letters, digits, dots, underscores, hyphens or
    white space; in particular it contains neither a slash nor a
    backslash. *)
Theorem safe_filename_is_safe :
  forall name,
    (String.length (safe_filename name) <= 200)%nat
    /\ Str.forallb legal (safe_filename name) = true
    /\ Str.contains "/" (safe_filename name) = false
    /\ Str.contains backslash (safe_filename name) = false.
Proof. exact safe_filename_bounds. Qed.

Lemma strip_sanitized s :
  Str.strip Str.is_space (map_chars safe_char (Str.strip Str.is_space s))
  = map_chars safe_char (Str.strip Str.is_space s).
Proof.
  assert (P : forall c, Str.is_space c = false ->
                        Str.is_space (safe_char c) = false)
    by (intros c; apply safe_char_facts).
  unfold Str.strip at 1. rewrite lstrip_keep.
  - apply rstrip_map; [exact P|]. apply rstrip_idem.
  - apply (stops_map Str.is_space); [exact P|].
    apply rstrip_stops, lstrip_stops.
Qed.

(** X17. On a name of at most 200 characters [safe_filename] is
    idempotent: sanitizing a sanitized name changes nothing. *)
Theorem safe_filename_idempotent :
  forall name,
    (String.length name <= 200)%nat ->
    safe_filename (safe_filename name) = safe_filename name.
Proof.
  intros name Hlen.
  assert (E : safe_filename name
              = map_chars safe_char (Str.strip Str.is_space name)).
  { rewrite safe_filename_chars. apply substring_all.
    rewrite map_chars_length. pose proof (length_strip Str.is_space name). lia. }
  rewrite E at 1. rewrite safe_filename_chars, strip_sanitized.
  rewrite map_chars_compose.
  rewrite (map_chars_ext _ safe_char)
    by (intros c; now destruct (safe_char_facts c)).
  rewrite substring_all; [now rewrite E|].
  rewrite map_chars_length. pose proof (length_strip Str.is_space name). lia.
Qed.

(** X17, witness: a name with a slash, a colon and outer spaces. *)
Lemma safe_filename_idempotent_witness :
  safe_filename (safe_filename " my/talk: part 1?.srt ")
  = safe_filename " my/talk: part 1?.srt ".
Proof.
  apply (safe_filename_idempotent " my/talk: part 1?.srt "). simpl. lia.
Defined.

(** *** Extensions *)

Lemma endswith_app suffix x : endswith suffix (x +:+ suffix) = true.
Proof.
  induction x as [|c x IH].
  - destruct suffix; simpl; now rewrite ?Ascii.eqb_refl, ?String.eqb_refl.
  - cbn [String.append endswith]. rewrite IH. apply orb_true_r.
Qed.

Lemma endswith_parts suffix s :
  endswith suffix s = true -> exists x, s = x +:+ suffix.
Proof.
  induction s as [|c s IH]; cbn [endswith]; rewrite orb_true_iff.
  - intros [H | H]; [|discriminate]. apply String.eqb_eq in H as <-.
    now exists EmptyString.
  - intros [H | H].
    + apply String.eqb_eq in H as <-. now exists EmptyString.
    + destruct (IH H) as [x ->]. now exists (String c x).
Qed.

Lemma map_chars_app_inv f s x y :
  map_chars f s = x +:+ y ->
  exists a b, s = a +:+ b /\ map_chars f a = x /\ map_chars f b = y.
Proof.
  revert s. induction x as [|c x IH]; intros s E.
  - now exists EmptyString, s.
  - destruct s as [|d s]; [discriminate|]. cbn in E. injection E as Hd E.
    destruct (IH s E) as (a & b & -> & Ha & Hb).
    exists (String d a), b. cbn. now rewrite Hd, Ha.
Qed.

Lemma supported_extension fmt :
  fmt ∈ supported_formats ->
  Str.forallb ext_char ("." +:+ fmt) = true /\ lower fmt = fmt.
Proof.
  unfold supported_formats. rewrite !elem_of_cons, elem_of_nil.
  intros [-> | [-> | [-> | [-> | [-> | [-> | [-> | []]]]]]]]; now split.
Qed.

Lemma with_extension_ends fmt name :
  lower fmt = fmt ->
  endswith ("." +:+ fmt) (lower (with_extension fmt name)) = true.
Proof.
  intros Hf. unfold with_extension.
  destruct (endswith ("." +:+ fmt) (lower name)) eqn:E; [exact E|].
  cbn [negb]. rewrite lower_map, map_chars_app, <- !lower_map.
  replace (lower ("." +:+ fmt)) with ("." +:+ fmt)
    by (cbn [String.append lower]; now rewrite Hf).
  apply endswith_app.
Qed.

Lemma lstrip_app_keep p y z :
  stops p z -> exists y', Str.lstrip p (y +:+ z) = y' +:+ z.
Proof.
  intros Hz. induction y as [|c y IH].
  - exists EmptyString. now apply lstrip_keep.
  - cbn [String.append Str.lstrip]. destruct (p c); [exact IH|].
    now exists (String c y).
Qed.

(** A name that ends in an extension keeps it through [safe_filename],
    unless the result is cut at 200 characters. *)
Lemma safe_filename_keeps_extension ext name :
  Str.forallb ext_char ext = true -> ext <> EmptyString ->
  endswith ext (lower name) = true ->
  (String.length (safe_filename name) < 200)%nat ->
  endswith ext (lower (safe_filename name)) = true.
Proof.
  intros Hext Hne He Hlen.
  apply endswith_parts in He as [x He]. rewrite lower_map in He.
  apply map_chars_app_inv in He as (y & z & -> & _ & Hz).
  assert (Hzc : Str.forallb (fun c => ext_char (lower_char c)) z = true)
    by (rewrite <- forallb_map_chars, Hz; exact Hext).
  assert (Hzl : Str.forallb legal z = true).
  { revert Hzc. apply forallb_impl. intros c Hc. now apply ext_char_facts in Hc. }
  assert (Hzs : Str.forallb (fun c => negb (Str.is_space c)) z = true).
  { revert Hzc. apply forallb_impl. intros c Hc. now apply ext_char_facts in Hc. }
  assert (Hzn : z <> EmptyString) by (intros ->; now subst ext).
  assert (Hstrip : exists y', Str.strip Str.is_space (y +:+ z) = y' +:+ z).
  { destruct (lstrip_app_keep Str.is_space y z) as [y' L].
    - destruct z as [|c z]; [contradiction|]. simpl in Hzs.
      apply andb_true_iff in Hzs as [Hc _]. now apply negb_true_iff in Hc.
    - exists y'. unfold Str.strip. rewrite L.
      apply rstrip_app_keep; [exact Hzn | now apply rstrip_keep]. }
  destruct Hstrip as [y' Hs].
  rewrite safe_filename_chars, Hs in *.
  rewrite (substring_short _ _ Hlen).
  rewrite map_chars_app, (map_chars_fixed legal safe_char z); [|  |exact Hzl].
  2:{ intros c Hc. now apply legal_facts in Hc. }
  rewrite lower_map, map_chars_app, Hz. apply endswith_app.
Qed.

(** X18. The file name [process_row] computes for a supported format always
    ends, in lower case, with a dot and the format name; and when a custom
    name is given, the file name contains neither a slash nor a backslash,
    so that joining it to the output directory cannot leave that
    directory's tree by a separator. *)
Theorem row_filename_is_well_formed :
  forall vid fmt outputfile,
    fmt ∈ supported_formats ->
    endswith ("." +:+ fmt) (lower (row_filename vid fmt outputfile)) = true
    /\ (forall c o,
          outputfile = Some (String c o) ->
          Str.contains "/" (row_filename vid fmt outputfile) = false
          /\ Str.contains backslash (row_filename vid fmt outputfile) = false).
Proof.
  intros vid fmt outputfile Hf.
  destruct (supported_extension fmt Hf) as [Hext Hl]. split.
  - unfold row_filename. now apply with_extension_ends.
  - intros c o ->. apply legal_no_separator.
    unfold row_filename, with_extension.
    destruct (negb _); [|apply safe_filename_legal].
    rewrite forallb_append, safe_filename_legal.
    revert Hext. apply forallb_impl. intros a Ha.
    apply (ext_char_facts a). destruct a as [[] [] [] [] [] [] [] []];
      vm_compute in Ha |- *; congruence.
Qed.

(** X18, witness: a custom name with a slash and an upper-case extension. *)
Lemma row_filename_is_well_formed_witness :
  endswith ".srt" (lower (row_filename "abc123" "srt" (Some "a/b.SRT"))) = true
  /\ (forall c o,
        Some "a/b.SRT" = Some (String c o) ->
        Str.contains "/" (row_filename "abc123" "srt" (Some "a/b.SRT")) = false
        /\ Str.contains backslash
             (row_filename "abc123" "srt" (Some "a/b.SRT")) = false).
Proof.
  apply (row_filename_is_well_formed "abc123" "srt" (Some "a/b.SRT")).
  unfold supported_formats. set_solver.
Defined.

(** X19. With a template, [apply_output_template] returns a name of at
    most 200 characters without slash or backslash, whatever the template,
    the title and the video id contain; and, for a supported format, a name
    shorter than 200 characters ends, in lower case, with a dot and the
    format name. (A name of 200 characters may have lost its extension:
    the cut comes after the extension is added.) *)
Theorem template_name_is_well_formed :
  forall c t index video_id title fmt,
    let name := apply_output_template (Some (String c t)) index video_id
                  title fmt in
    (String.length name <= 200)%nat
    /\ Str.contains "/" name = false
    /\ Str.contains backslash name = false
    /\ (fmt ∈ supported_formats -> (String.length name < 200)%nat ->
        endswith ("." +:+ fmt) (lower name) = true).
Proof.
  intros c t index video_id title fmt. cbn zeta. unfold apply_output_template.
  set (n := str_replace "{ext}" fmt _ O).
  destruct (safe_filename_bounds (with_extension fmt n)) as (H1 & _ & H2 & H3).
  repeat split; auto.
  intros Hf Hlen. destruct (supported_extension fmt Hf) as [Hext Hl].
  apply safe_filename_keeps_extension;
    [exact Hext | discriminate | now apply with_extension_ends | exact Hlen].
Qed.

(** X19, witness: a template with the index and the title. *)
Lemma template_name_is_well_formed_witness :
  let name := apply_output_template (Some "{index} - {title}") 7 "abc123"
                "My talk: part 1/2" "srt" in
  name = "7 - My talk_ part 1_2.srt"
  /\ endswith ".srt" (lower name) = true.
Proof.
  cbn zeta. split; [vm_compute; reflexivity|].
  apply (template_name_is_well_formed "{" "index} - {title}" 7 "abc123"
           "My talk: part 1/2" "srt").
  - unfold supported_formats. set_solver.
  - vm_compute. lia.
Defined.

(** ** Playlists and channels *)

(** The host of the URL built for a playlist entry. *)
Lemma watch_url_netloc v :
  Str.forallb query_plain v = true ->
  netloc (url_parts ("https://www.youtube.com/watch" +:+ "?v=" +:+ v))
  = "www.youtube.com".
Proof.
  intros Hv.
  assert (Hvp : Str.forallb url_plain v = true).
  { revert Hv. apply query_plain_all. intros c Hc.
    now apply query_plain_facts in Hc. }
  unfold url_parts. rewrite urlsplit_clean.
  2:{ right. exists "https://www.youtube.com/watch", ("v=" +:+ v).
      repeat split; auto. }
  replace (Url.split_scheme ("https://www.youtube.com/watch" +:+ "?v=" +:+ v))
    with ("https", "//www.youtube.com/watch?v=" +:+ v)
    by (vm_compute; reflexivity).
  replace (Url.split_netloc ("//www.youtube.com/watch?v=" +:+ v))
    with ("www.youtube.com", "/watch?v=" +:+ v)
    by (vm_compute; reflexivity).
  destruct (Str.split_first "#" _) as [[u f]|];
    destruct (Str.split_first "?" _) as [[u' q]|]; reflexivity.
Qed.

(** X20. The URL that [extract_playlist_videos] builds for an entry leads
    back to the entry's id: for every video it returns whose id has no
    character that the URL or query parser treats specially,
    [extract_video_id] of the video's URL is the video's id. Every returned
    video has a non-empty id. *)
Theorem playlist_urls_give_back_ids :
  forall (urllib : UrlLib) entries v,
    v ∈ playlist_videos entries ->
    v_id v <> EmptyString
    /\ (Str.forallb query_plain (v_id v) = true ->
        extract_video_id (v_url v) = Ok (v_id v)).
Proof.
  intros urllib entries v Hv.
  apply list_elem_of_omap in Hv as (e & _ & He).
  unfold playlist_video in He.
  destruct (entry_id e) as [[|c vid]|]; try discriminate.
  injection He as <-. cbn [v_id v_url]. split; [discriminate|].
  intros Hp.
  change (extract_video_id
            ("https://www.youtube.com/watch" +:+ "?v=" +:+ String c vid)
          = Ok (String c vid)).
  unfold extract_video_id.
  rewrite urlparse_parts, (watch_url_netloc _ Hp).
  change (Url.check_netloc "www.youtube.com") with (Ok (A := unit) tt).
  cbn [mbind res_bind].
  rewrite (query_v_plain _ (String c vid)
             (plain_query "https://www.youtube.com/watch" _ eq_refl Hp)
             ltac:(discriminate) Hp).
  reflexivity.
Qed.

(** X20, witness: a listing of two entries, the first without an id. *)
Lemma playlist_urls_give_back_ids_witness :
  v_id (mkVideo "dQw4w9WgXcQ" "Talk"
          "https://www.youtube.com/watch?v=dQw4w9WgXcQ") <> EmptyString
  /\ (Str.forallb query_plain "dQw4w9WgXcQ" = true ->
      extract_video_id (urllib := decode_lib)
        "https://www.youtube.com/watch?v=dQw4w9WgXcQ" = Ok "dQw4w9WgXcQ").
Proof.
  apply (playlist_urls_give_back_ids decode_lib
           [mkEntry None (Some "no id") None;
            mkEntry (Some "dQw4w9WgXcQ") None (Some "Talk")]).
  vm_compute. apply list_elem_of_here.
Defined.

Lemma substring_tail a b rest :
  String.substring 2 (String.length (String a (String b rest)) - 2)
    (String a (String b rest)) = rest.
Proof.
  replace (String.length (String a (String b rest)) - 2)%nat
    with (String.length rest) by (cbn [String.length]; lia).
  cbn [String.substring]. now apply substring_all.
Qed.

Lemma channel_url_parts channel_id url :
  channel_uploads_playlist_url channel_id = Ok url ->
  exists rest,
    rest <> EmptyString /\ channel_id = "UC" +:+ rest
    /\ url = "https://www.youtube.com/playlist?list=UU" +:+ rest.
Proof.
  unfold channel_uploads_playlist_url.
  destruct (startswith "UC" channel_id) eqn:P; [|discriminate].
  cbn [negb orb].
  destruct channel_id as [|a [|b rest]]; cbn [startswith] in P;
    try discriminate.
  rewrite andb_true_r in P. apply andb_true_iff in P as [Ha Hb].
  apply Ascii.eqb_eq in Ha as <-. apply Ascii.eqb_eq in Hb as <-.
  destruct rest as [|c rest]; [discriminate|].
  rewrite (substring_tail "U" "C" (String c rest)).
  cbn [String.length Nat.leb]. intros [= <-]. exists (String c rest).
  split; [discriminate|]. split; reflexivity.
Qed.

(** X21. [channel_uploads_playlist_url] accepts exactly the channel ids
    that are [UC] followed by at least one character, and returns the
    playlist URL whose list id is [UU] followed by the same characters; any
    other id raises ValueError. Two channel ids with the same URL are the
    same id. *)
Theorem channel_uploads_url_shape :
  (forall rest,
      rest <> EmptyString ->
      channel_uploads_playlist_url ("UC" +:+ rest)
      = Ok ("https://www.youtube.com/playlist?list=UU" +:+ rest))
  /\ (forall channel_id url,
        channel_uploads_playlist_url channel_id = Ok url ->
        exists rest,
          rest <> EmptyString /\ channel_id = "UC" +:+ rest
          /\ url = "https://www.youtube.com/playlist?list=UU" +:+ rest)
  /\ (forall channel_id e,
        channel_uploads_playlist_url channel_id = Raise e ->
        e = ValueError "Invalid channel id (expected string starting with 'UC').")
  /\ (forall a b url,
        channel_uploads_playlist_url a = Ok url ->
        channel_uploads_playlist_url b = Ok url -> a = b).
Proof.
  split; [|split; [exact channel_url_parts|split]].
  - intros [|c rest] Hne; [contradiction|].
    unfold channel_uploads_playlist_url.
    change ("UC" +:+ String c rest) with (String "U" (String "C" (String c rest))).
    rewrite substring_tail. reflexivity.
  - intros channel_id e. unfold channel_uploads_playlist_url.
    destruct (_ || _); [|discriminate]. now intros [= <-].
  - intros a b url Ha Hb.
    apply channel_url_parts in Ha as (ra & _ & -> & Ea).
    apply channel_url_parts in Hb as (rb & _ & -> & Eb).
    rewrite Ea in Eb.
    change ("https://www.youtube.com/playlist?list=UU" +:+ ra)
      with ("https://www.youtube.com/playlist?list=UU" ++ ra)%string in Eb.
    f_equal. revert Eb. cbn. now intros [= ->].
Qed.

(** ** Whole seconds *)

Lemma all_from_spec f lo k :
  all_from f lo k = true ->
  forall n, lo <= n < lo + Z.of_nat k -> f n = true.
Proof.
  revert lo. induction k as [|k IH]; intros lo; cbn [all_from].
  - intros _ n Hn. lia.
  - rewrite andb_true_iff. intros [Hlo Hrest] n Hn.
    destruct (Z.eq_dec n lo) as [->|Hne]; [exact Hlo|].
    apply (IH (lo + 1) Hrest). lia.
Qed.

Lemma four_hours_read_back :
  all_from reads_back 0 (Z.to_nat 14400) = true.
Proof. vm_compute. reflexivity. Qed.

Lemma replace_digits a b s :
  Str.forallb Str.is_digit s = true -> Str.is_digit a = false ->
  Str.replace a b s = s.
Proof.
  intros Hs Ha. apply replace_none. revert Hs. apply forallb_impl.
  intros c Hc. unfold is_not. apply negb_true_iff.
  destruct (Ascii.eqb_spec c a) as [->|]; [congruence | reflexivity].
Qed.

Lemma replace_app a b x y :
  Str.replace a b (x +:+ y) = Str.replace a b x +:+ Str.replace a b y.
Proof. rewrite !replace_map. apply map_chars_app. Qed.

(** X22. For every whole number of seconds below four hours, the two
    timestamp functions render hours, minutes and seconds of that number
    with the milliseconds [000], and the parser's conversion of the
    rendered timestamp (of the SRT one after its comma is replaced by a
    dot, as the parser does) gives back the same number. *)
Theorem whole_seconds_read_back :
  forall n,
    0 <= n < 14400 ->
    secs_to_vtt_timestamp (PyNum.of_Z n) = Ok (whole_second "." n)
    /\ secs_to_srt_timestamp (PyNum.of_Z n) = Ok (whole_second "," n)
    /\ Str.replace "," "." (whole_second "," n) = whole_second "." n
    /\ exists a,
         to_secs (whole_second "." n) = Ok a
         /\ PrimFloat.eqb a (PyNum.of_Z n) = true.
Proof.
  intros n Hn.
  assert (B : 0 <= n < 0 + Z.of_nat (Z.to_nat 14400))
    by (rewrite Z2Nat.id; lia).
  pose proof (all_from_spec _ _ _ four_hours_read_back n B) as H.
  unfold reads_back in H.
  destruct (clock (PyNum.of_Z n)) as [[[[hh mm] ss] ms]|e] eqn:C;
    [|discriminate].
  rewrite !andb_true_iff, !Z.eqb_eq in H.
  destruct H as [[[[-> ->] ->] ->] H].
  change (render "." (n / 3600, n mod 3600 / 60, n mod 60, 0))
    with (whole_second "." n) in H.
  rewrite vtt_timestamp_clock, srt_timestamp_clock, C.
  split; [reflexivity|]. split; [reflexivity|]. split.
  - unfold whole_second.
    assert (H1 : 0 <= n / 3600) by (apply Z.div_pos; lia).
    assert (H2 : 0 <= n mod 3600 / 60)
      by (apply Z.div_pos; [apply Z.mod_pos_bound|]; lia).
    assert (H3 : 0 <= n mod 60) by (apply Z.mod_pos_bound; lia).
    rewrite !replace_app.
    rewrite !(replace_digits "," "." (fmt_d 2 _)) by
      (try reflexivity; now apply fmt_d_digits).
    reflexivity.
  - destruct (to_secs (whole_second "." n)) as [a|]; [|discriminate].
    now exists a.
Qed.

(** X22, witness: one hour, two minutes and five seconds. *)
Lemma whole_seconds_read_back_witness :
  secs_to_vtt_timestamp (PyNum.of_Z 3725) = Ok (whole_second "." 3725)
  /\ secs_to_srt_timestamp (PyNum.of_Z 3725) = Ok (whole_second "," 3725)
  /\ Str.replace "," "." (whole_second "," 3725) = whole_second "." 3725
  /\ exists a,
       to_secs (whole_second "." 3725) = Ok a
       /\ PrimFloat.eqb a (PyNum.of_Z 3725) = true.
Proof. apply (whole_seconds_read_back 3725). lia. Defined.
